(** * Conversation capture: incremental parser and artifact extractor

    A shallow embedding of

      - [server/services/conversationParserService.js]
      - [server/services/artifactExtractorService.js]
      - [server/services/configExtractorService.js]

    of the claude-monitor server, together with the storage schema the
    services write to (the [CREATE TABLE] statements of [server/index.js]).

    Conventions of the embedding.

    - JavaScript values decoded from an event-log line are terms of [value].
      Numbers are integers ([Z]); strings are sequences of 8-bit code units
      (Rocq's [string]), so [length] is the number of code units.
    - [JSON.parse] and SHA-256 are the platform's: they are parameters
      ([JSON_parse], [sha256]) of everything that uses them.  SQL [MIN]/[MAX]
      over timestamps and the [Date] subtraction of the statistics update are
      parameters as well.
    - A [TypeError] raised by the services' own code (reading a property of
      [null], calling [slice] on a value that has none) is the [Throw] of the
      result type [res]; stateful code lives in the state-and-exception monad
      [SE], where a [Throw] keeps the mutations done before it.
    - The database is the record [store]: one list per table, rows in
      insertion order, [AUTOINCREMENT] ids counted from 1, and the
      [UNIQUE(conversation_id, entry_hash)] constraint of
      [conversation_entries] enforced by [insertEntry].  The database module
      is not part of the two services: a statement stores the values bound
      to it as they are, and a driver that refuses a value it cannot bind is
      not modelled.
    - The file system is a function from paths to contents.  Logging is
      left out.
    - The configuration extractor has a store of its own, the list of the
      rows of [config_snapshots], with [UNIQUE(file_path, file_hash)] and
      the foreign key of [project_id] enforced by [storeSnapshot]; the
      messages of the errors it reports as metadata are parameters.

    The embedding comes first, then the concrete event logs, the
    statements about the parser and the artifact extractor, and further
    properties of both, of the queries and of the configuration
    extractor. *)

From Stdlib Require Import ZArith Ascii String List Lia Bool.
From stdpp Require Import base option list strings pretty gmap sorting.

Open Scope string_scope.
Set Warnings "-register-all".

(** ** JavaScript values and strings *)

Module JS.

Inductive value : Type :=
| VUndef
| VNull
| VBool (b : bool)
| VNum (n : Z)
| VStr (s : string)
| VArr (items : list value)
| VObj (fields : list (string * value)).

(** Result of a computation that may raise. *)
Inductive res (A : Type) : Type :=
| Ok (a : A)
| Throw.
Arguments Ok {A} a.
Arguments Throw {A}.

Definition res_bind {A B} (m : res A) (f : A -> res B) : res B :=
  match m with Ok a => f a | Throw => Throw end.

(** *** Strings *)

Definition str_empty (s : string) : bool :=
  match s with EmptyString => true | String _ _ => false end.

Fixpoint str_take (n : nat) (s : string) : string :=
  match n, s with
  | S n', String c s' => String c (str_take n' s')
  | _, _ => EmptyString
  end.

Fixpoint str_drop (n : nat) (s : string) : string :=
  match n, s with
  | S n', String _ s' => str_drop n' s'
  | _, _ => s
  end.

(** [s.slice(0, n)] *)
Definition slice_to (n : nat) (s : string) : string := str_take n s.

(** [s.slice(-n)] *)
Definition slice_last (n : nat) (s : string) : string :=
  str_drop (String.length s - n) s.

Fixpoint str_map (f : ascii -> ascii) (s : string) : string :=
  match s with
  | EmptyString => EmptyString
  | String c s' => String (f c) (str_map f s')
  end.

Fixpoint str_rev_onto (s acc : string) : string :=
  match s with
  | EmptyString => acc
  | String c s' => str_rev_onto s' (String c acc)
  end.

Definition str_rev (s : string) : string := str_rev_onto s EmptyString.

(** [s.includes(pat)] *)
Fixpoint includes (s pat : string) : bool :=
  String.prefix pat s ||
  match s with
  | EmptyString => false
  | String _ s' => includes s' pat
  end.

(** Upper-case letters of the 8-bit range and their lower-case forms. *)
Definition lower_char (c : ascii) : ascii :=
  let n := N_of_ascii c in
  if ((65 <=? n) && (n <=? 90))%N then ascii_of_N (n + 32)
  else if ((192 <=? n) && (n <=? 222) && negb (n =? 215))%N
       then ascii_of_N (n + 32)
  else c.

(** [s.toLowerCase()] *)
Definition toLowerCase (s : string) : string := str_map lower_char s.

(** White space of [trim] and of the pattern class [\s]. *)
Definition is_ws (c : ascii) : bool :=
  let n := N_of_ascii c in
  ((9 <=? n) && (n <=? 13) || (n =? 32) || (n =? 160))%N.

(** Word characters, the pattern class [\w]. *)
Definition is_word (c : ascii) : bool :=
  let n := N_of_ascii c in
  ((48 <=? n) && (n <=? 57) || (65 <=? n) && (n <=? 90)
   || (97 <=? n) && (n <=? 122) || (n =? 95))%N.

(** Line terminators, after which [^] matches under the [m] flag. *)
Definition is_line_end (c : ascii) : bool :=
  let n := N_of_ascii c in ((n =? 10) || (n =? 13))%N.

Fixpoint trim_start (s : string) : string :=
  match s with
  | String c s' => if is_ws c then trim_start s' else s
  | EmptyString => EmptyString
  end.

(** [s.trim()] *)
Definition trim (s : string) : string :=
  str_rev (trim_start (str_rev (trim_start s))).

(** [s.split('\n')], with the current piece accumulated in reverse. *)
Fixpoint split_nl_go (s : string) (cur : string) : list string :=
  match s with
  | EmptyString => [str_rev cur]
  | String c s' =>
      if Ascii.eqb c "010"%char then str_rev cur :: split_nl_go s' EmptyString
      else split_nl_go s' (String c cur)
  end.

Definition split_nl (s : string) : list string := split_nl_go s EmptyString.

(** [content.split('\n').filter(line => line.trim())] *)
Definition nonblank_lines (content : string) : list string :=
  List.filter (fun l => negb (str_empty (trim l))) (split_nl content).

(** [parts.join(sep)] on strings *)
Fixpoint str_join (sep : string) (parts : list string) : string :=
  match parts with
  | [] => ""
  | [p] => p
  | p :: rest => p ++ sep ++ str_join sep rest
  end.

(** *** Truthiness, property reads, coercions *)

Definition truthy (v : value) : bool :=
  match v with
  | VUndef | VNull => false
  | VBool b => b
  | VNum n => negb (n =? 0)%Z
  | VStr s => negb (str_empty s)
  | VArr _ | VObj _ => true
  end.

(** [a || b] *)
Definition js_or (a b : value) : value := if truthy a then a else b.

Definition is_nullish (v : value) : bool :=
  match v with VUndef | VNull => true | _ => false end.

Fixpoint assoc (k : string) (fields : list (string * value)) : value :=
  match fields with
  | [] => VUndef
  | (k', v) :: rest => if String.eqb k k' then v else assoc k rest
  end.

(** [v.k] for the property names the services read ([type], [message],
    [content], [role], [id], [name], [input], [text], [tool_use_id],
    [is_error], [timestamp], [sessionId], [version], [gitBranch], [cwd],
    [model]): none of them is a built-in property of a string, a number, a
    boolean or an array, and a decoded object has one binding per key. *)
Definition prop (v : value) (k : string) : res value :=
  match v with
  | VUndef | VNull => Throw
  | VObj fields => Ok (assoc k fields)
  | _ => Ok VUndef
  end.

(** [v?.k] *)
Definition prop_opt (v : value) (k : string) : value :=
  match v with
  | VObj fields => assoc k fields
  | _ => VUndef
  end.

(** [v === 'lit'] *)
Definition is_str (v : value) (lit : string) : bool :=
  match v with VStr s => String.eqb s lit | _ => false end.

(** [v === true] *)
Definition is_true (v : value) : bool :=
  match v with VBool true => true | _ => false end.

Definition isArray (v : value) : bool :=
  match v with VArr _ => true | _ => false end.

(** [String(v)], as string concatenation and template literals apply it. *)
Fixpoint to_string (v : value) : string :=
  match v with
  | VUndef => "undefined"
  | VNull => "null"
  | VBool true => "true"
  | VBool false => "false"
  | VNum n => pretty n
  | VStr s => s
  | VArr items =>
      str_join ","
        (map (fun x => if is_nullish x then "" else to_string x) items)
  | VObj _ => "[object Object]"
  end.

(** [items.join(sep)] on values *)
Definition join (sep : string) (items : list value) : string :=
  str_join sep (map (fun x => if is_nullish x then "" else to_string x) items).

(** *** [JSON.stringify] *)

Definition hex_digit (n : N) : ascii :=
  match n with
  | 0 => "0" | 1 => "1" | 2 => "2" | 3 => "3" | 4 => "4" | 5 => "5"
  | 6 => "6" | 7 => "7" | 8 => "8" | 9 => "9" | 10 => "a" | 11 => "b"
  | 12 => "c" | 13 => "d" | 14 => "e" | _ => "f"
  end%N%char.

Definition dquote : ascii := ascii_of_N 34.

Definition escape_char (c : ascii) : string :=
  let n := N_of_ascii c in
  if (n =? 34)%N then String "\" (String dquote "")
  else if (n =? 92)%N then "\\"
  else if (n =? 8)%N then "\b"
  else if (n =? 9)%N then "\t"
  else if (n =? 10)%N then "\n"
  else if (n =? 12)%N then "\f"
  else if (n =? 13)%N then "\r"
  else if (n <? 32)%N then
    "\u00" ++ String (hex_digit (n / 16)) (String (hex_digit (n mod 16)) "")
  else String c "".

Fixpoint escape (s : string) : string :=
  match s with
  | EmptyString => ""
  | String c s' => escape_char c ++ escape s'
  end.

Definition quote (s : string) : string :=
  String dquote (escape s ++ String dquote "").

Definition nl : string := String (ascii_of_N 10) "".

(** The closing step of the serialization of an array or an object: [parts]
    are the serialized members, [gap] the indentation unit, [ind] the
    indentation of the enclosing level and [ind'] the one of the members. *)
Definition wrap (open close gap ind ind' : string) (parts : list string)
  : string :=
  match parts with
  | [] => open ++ close
  | _ =>
      if str_empty gap then open ++ str_join "," parts ++ close
      else open ++ nl ++ ind' ++ str_join ("," ++ nl ++ ind') parts
           ++ nl ++ ind ++ close
  end.

Fixpoint serialize (gap ind : string) (v : value) {struct v} : option string :=
  match v with
  | VUndef => None
  | VNull => Some "null"
  | VBool true => Some "true"
  | VBool false => Some "false"
  | VNum n => Some (pretty n)
  | VStr s => Some (quote s)
  | VArr items =>
      let ind' := ind ++ gap in
      Some (wrap "[" "]" gap ind ind'
              (map (fun x => default "null" (serialize gap ind' x)) items))
  | VObj fields =>
      let ind' := ind ++ gap in
      Some (wrap "{" "}" gap ind ind'
              ((fix members (fs : list (string * value)) : list string :=
                  match fs with
                  | [] => []
                  | (k, x) :: rest =>
                      match serialize gap ind' x with
                      | Some sx =>
                          (quote k ++ (if str_empty gap then ":" else ": ")
                             ++ sx) :: members rest
                      | None => members rest
                      end
                  end) fields))
  end.

(** [JSON.stringify(v)]; [None] is JavaScript's [undefined]. *)
Definition JSON_stringify (v : value) : option string := serialize "" "" v.

(** [JSON.stringify(v, null, 2)] *)
Definition JSON_stringify_pretty (v : value) : option string :=
  serialize "  " "" v.

(** A serialization spliced into a template literal. *)
Definition or_undefined (o : option string) : string := default "undefined" o.

(** Key comparison of [Map] and of [Array.prototype.includes]: primitives by
    value; an array or an object only equals itself, and two values read from
    different places of the decoded input are never the same object. *)
Definition same_value_zero (a b : value) : bool :=
  match a, b with
  | VUndef, VUndef | VNull, VNull => true
  | VBool x, VBool y => Bool.eqb x y
  | VNum x, VNum y => (x =? y)%Z
  | VStr x, VStr y => String.eqb x y
  | _, _ => false
  end.

(** *** State and exceptions *)

Definition SE (S A : Type) : Type := S -> res A * S.

Definition ret {S A} (a : A) : SE S A := fun s => (Ok a, s).

Definition bind {S A B} (m : SE S A) (f : A -> SE S B) : SE S B :=
  fun s => match m s with
           | (Ok a, s') => f a s'
           | (Throw, s') => (Throw, s')
           end.

Definition get {S} : SE S S := fun s => (Ok s, s).
Definition put {S} (s : S) : SE S unit := fun _ => (Ok tt, s).
Definition lift {S A} (r : res A) : SE S A := fun s => (r, s).

(** [try { x = m } catch (e) { }], where [x] was [dflt] before. *)
Definition try_or {S A} (m : SE S A) (dflt : A) : SE S A :=
  fun s => match m s with
           | (Ok a, s') => (Ok a, s')
           | (Throw, s') => (Ok dflt, s')
           end.

End JS.

Export JS.

Notation "'let*' x ':=' m 'in' k" := (bind m (fun x => k))
  (at level 10, x name, m at level 100, k at level 200, only parsing).
Notation "'let?' x ':=' m 'in' k" := (res_bind m (fun x => k))
  (at level 10, x name, m at level 100, k at level 200, only parsing).

(** ** The store *)

(** Row of [conversation_parse_state] (the time of the last parse is not
    modelled). *)
Record parse_state_row := {
  last_line_number : nat;
  last_entry_hash : option string
}.

Record conversation_row := {
  c_id : nat;
  c_conversation_id : value;
  c_project_id : value;
  c_source_file_path : string;
  c_source_file_type : string;
  c_started_at : value;
  c_ended_at : value;
  c_duration_seconds : value;
  c_message_count : nat;
  c_model_used : value;
  c_claude_code_version : value;
  c_git_branch : value;
  c_working_directory : value
}.

Record entry_row := {
  e_id : nat;
  e_conversation_id : nat;
  e_entry_hash : string;
  e_entry_index : nat;
  e_role : value;
  e_content : string;
  e_timestamp : value
}.

Record artifact_row := {
  a_conversation_id : nat;
  a_entry_id : option nat;
  a_artifact_type : string;
  a_language : option string;
  a_tool_name : value;
  a_content : option string;
  a_metadata : option string;
  a_content_hash : string;
  a_outcome : option string;
  a_output_summary : option string;
  a_output_full : option string;
  a_output_size_bytes : option nat;
  a_output_truncated : bool;
  a_error_type : option string;
  a_prompt_context : value
}.

Record store := {
  parse_states : gmap string parse_state_row;
  conversations : list conversation_row;
  entries : list entry_row;
  artifacts : list artifact_row
}.

Definition empty_store : store :=
  {| parse_states := ∅; conversations := []; entries := []; artifacts := [] |}.

(** The files on disk: [fs p] is the content of the file at path [p]. *)
Definition filesystem := string -> option string.

(** ** conversationParserService.js *)

Module Parser.

Inductive parse_result :=
| ParseFailure (error : string)
    (** [{ success: false, error }] *)
| ParseUnchanged
    (** [{ success: true, newEntries: 0, skipped: 0 }] *)
| ParseDone (conversationId : nat) (sessionId : value)
            (newEntries skipped : nat) (totalLines : option nat).

(** Session fields read off a line: [{ version, gitBranch, cwd, model }]. *)
Record session_metadata := {
  md_version : value;
  md_gitBranch : value;
  md_cwd : value;
  md_model : value
}.

Definition no_metadata : session_metadata :=
  {| md_version := VUndef; md_gitBranch := VUndef;
     md_cwd := VUndef; md_model := VUndef |}.

(** Counters of the loop over the new lines of [parseJSONL]. *)
Record parse_acc := {
  newEntries : nat;
  skipped : nat;
  entryIndex : nat;
  lastHash : option string
}.

(** [s.replace(pat, '')]: the first occurrence only. *)
Fixpoint remove_first (pat s : string) : string :=
  if String.prefix pat s then str_drop (String.length pat) s
  else match s with
       | EmptyString => EmptyString
       | String c s' => String c (remove_first pat s')
       end.

(** [filePath.split(/[/\\]/).pop()] *)
Fixpoint last_segment_go (s cur : string) : string :=
  match s with
  | EmptyString => str_rev cur
  | String c s' =>
      if Ascii.eqb c "/"%char || Ascii.eqb c "\"%char
      then last_segment_go s' EmptyString
      else last_segment_go s' (String c cur)
  end.

Definition last_segment (s : string) : string := last_segment_go s EmptyString.

(** [filePath.toLowerCase().split('.').pop()] *)
Fixpoint extension_go (s cur : string) : string :=
  match s with
  | EmptyString => str_rev cur
  | String c s' =>
      if Ascii.eqb c "."%char then extension_go s' EmptyString
      else extension_go s' (String c cur)
  end.

Definition extension (filePath : string) : string :=
  extension_go (toLowerCase filePath) EmptyString.

Section Platform.

(** [JSON.parse]: [None] when it raises a [SyntaxError]. *)
Variable JSON_parse : string -> option value.
(** [crypto.createHash('sha256').update(content).digest('hex')] *)
Variable sha256 : string -> string.
(** SQL [MIN(timestamp)] and [MAX(timestamp)] over the rows of a
    conversation, and [Math.floor((new Date(b) - new Date(a)) / 1000)]. *)
Variable sql_min sql_max : list value -> value.
Variable date_diff_seconds : value -> value -> value.

Definition hashContent (content : string) : string := sha256 content.

Definition getParseState (filePath : string) : SE store (option parse_state_row) :=
  fun st => (Ok (parse_states st !! filePath), st).

Definition updateParseState (filePath : string) (lineNumber : nat)
    (entryHash : option string) : SE store unit :=
  fun st =>
    (Ok tt,
     {| parse_states :=
          <[filePath := {| last_line_number := lineNumber;
                           last_entry_hash := entryHash |}]> (parse_states st);
        conversations := conversations st;
        entries := entries st;
        artifacts := artifacts st |}).

Definition find_conversation (sessionId : value) (st : store)
  : option conversation_row :=
  List.find (fun c => same_value_zero (c_conversation_id c) sessionId)
            (conversations st).

Definition findOrCreateConversation (sessionId : value)
    (filePath fileType : string) (metadata : session_metadata)
  : SE store conversation_row :=
  fun st =>
    match find_conversation sessionId st with
    | Some conversation => (Ok conversation, st)
    | None =>
        let row :=
          {| c_id := S (length (conversations st));
             c_conversation_id := sessionId;
             c_project_id := VNull;
             c_source_file_path := filePath;
             c_source_file_type := fileType;
             c_started_at := VNull;
             c_ended_at := VNull;
             c_duration_seconds := VNull;
             c_message_count := 0;
             c_model_used := js_or (md_model metadata) VNull;
             c_claude_code_version := js_or (md_version metadata) VNull;
             c_git_branch := js_or (md_gitBranch metadata) VNull;
             c_working_directory := js_or (md_cwd metadata) VNull |} in
        (Ok row,
         {| parse_states := parse_states st;
            conversations := conversations st ++ [row];
            entries := entries st;
            artifacts := artifacts st |})
    end.

(** A row of [conversation_entries] with this conversation and hash exists:
    the [UNIQUE(conversation_id, entry_hash)] constraint would be violated. *)
Definition entry_exists (conversationId : nat) (entryHash : string)
    (st : store) : bool :=
  existsb (fun e => Nat.eqb (e_conversation_id e) conversationId
                    && String.eqb (e_entry_hash e) entryHash)
          (entries st).

Definition insertEntry (conversationId : nat) (entryHash : string)
    (entryIndex : nat) (role : value) (content : string) (timestamp : value)
  : SE store bool :=
  fun st =>
    if is_nullish role then (Throw, st)
    else if entry_exists conversationId entryHash st then (Ok false, st)
    else
      (Ok true,
       {| parse_states := parse_states st;
          conversations := conversations st;
          entries := entries st ++
            [{| e_id := S (length (entries st));
                e_conversation_id := conversationId;
                e_entry_hash := entryHash;
                e_entry_index := entryIndex;
                e_role := role;
                e_content := content;
                e_timestamp := timestamp |}];
          artifacts := artifacts st |}).

Definition set_stats (conversationId : nat) (count : nat)
    (started ended duration : value) (c : conversation_row)
  : conversation_row :=
  if Nat.eqb (c_id c) conversationId then
    {| c_id := c_id c;
       c_conversation_id := c_conversation_id c;
       c_project_id := c_project_id c;
       c_source_file_path := c_source_file_path c;
       c_source_file_type := c_source_file_type c;
       c_started_at := started;
       c_ended_at := ended;
       c_duration_seconds := duration;
       c_message_count := count;
       c_model_used := c_model_used c;
       c_claude_code_version := c_claude_code_version c;
       c_git_branch := c_git_branch c;
       c_working_directory := c_working_directory c |}
  else c.

Definition updateConversationStats (conversationId : nat) : SE store unit :=
  fun st =>
    let rows := List.filter (fun e => Nat.eqb (e_conversation_id e) conversationId)
                            (entries st) in
    let started_at := sql_min (map e_timestamp rows) in
    let ended_at := sql_max (map e_timestamp rows) in
    let durationSeconds :=
      if truthy started_at && truthy ended_at
      then date_diff_seconds started_at ended_at else VNull in
    (Ok tt,
     {| parse_states := parse_states st;
        conversations :=
          map (set_stats conversationId (length rows) started_at ended_at
                         durationSeconds) (conversations st);
        entries := entries st;
        artifacts := artifacts st |}).

(** [UPDATE conversations SET project_id = ? WHERE id = ?] *)
Definition set_project (projectId : value) (conversationId : nat)
  : SE store unit :=
  fun st =>
    (Ok tt,
     {| parse_states := parse_states st;
        conversations :=
          map (fun c =>
                 if Nat.eqb (c_id c) conversationId then
                   {| c_id := c_id c;
                      c_conversation_id := c_conversation_id c;
                      c_project_id := projectId;
                      c_source_file_path := c_source_file_path c;
                      c_source_file_type := c_source_file_type c;
                      c_started_at := c_started_at c;
                      c_ended_at := c_ended_at c;
                      c_duration_seconds := c_duration_seconds c;
                      c_message_count := c_message_count c;
                      c_model_used := c_model_used c;
                      c_claude_code_version := c_claude_code_version c;
                      c_git_branch := c_git_branch c;
                      c_working_directory := c_working_directory c |}
                 else c) (conversations st);
        entries := entries st;
        artifacts := artifacts st |}).

Definition extractRole (entry : value) : res value :=
  let? message := prop entry "message" in
  let role := prop_opt message "role" in
  if truthy role then Ok role
  else
    let? type := prop entry "type" in
    if is_str type "user" then Ok (VStr "user")
    else if is_str type "assistant" then Ok (VStr "assistant")
    else if is_str type "tool_result" || is_str type "tool" then Ok (VStr "tool")
    else Ok (VStr "system").

(** The callback of [content.map] in [extractContent]. *)
Definition render_block (block : value) : res value :=
  match block with
  | VStr _ => Ok block
  | _ =>
      let? type := prop block "type" in
      if is_str type "text" then prop block "text"
      else if is_str type "tool_use" then
        let? name := prop block "name" in
        let? input := prop block "input" in
        Ok (VStr ("[Tool: " ++ to_string name ++ "]" ++ nl
                    ++ or_undefined (JSON_stringify_pretty input)))
      else if is_str type "tool_result" then
        let? content := prop block "content" in
        let result :=
          match content with
          | VStr s => s
          | _ => or_undefined (JSON_stringify content)
          end in
        let? tool_use_id := prop block "tool_use_id" in
        Ok (VStr ("[Tool Result: " ++ to_string tool_use_id ++ "]" ++ nl
                    ++ result))
      else Ok (VStr (or_undefined (JSON_stringify block)))
  end.

Fixpoint map_res {A B} (f : A -> res B) (l : list A) : res (list B) :=
  match l with
  | [] => Ok []
  | x :: rest =>
      let? y := f x in
      let? ys := map_res f rest in
      Ok (y :: ys)
  end.

(** [None] is the [null] the source returns for a missing content. *)
Definition extractContent (entry : value) : res (option string) :=
  let? message := prop entry "message" in
  let content := prop_opt message "content" in
  if negb (truthy content) then Ok None
  else
    match content with
    | VArr blocks =>
        let? rendered := map_res render_block blocks in
        Ok (Some (join (nl ++ nl) rendered))
    | VStr s => Ok (Some s)
    | _ => Ok (Some (or_undefined (JSON_stringify content)))
    end.

(** First pass of [parseJSONL]: the session identifier and metadata of the
    first line that carries one. *)
Definition session_step (acc : value * session_metadata) (line : string)
  : value * session_metadata :=
  match JSON_parse line with
  | None => acc
  | Some entry =>
      match prop entry "sessionId" with
      | Throw => acc
      | Ok sid =>
          if truthy sid && negb (truthy (fst acc)) then
            (sid,
             {| md_version := prop_opt entry "version";
                md_gitBranch := prop_opt entry "gitBranch";
                md_cwd := prop_opt entry "cwd";
                md_model := prop_opt entry "model" |})
          else acc
      end
  end.

Definition find_session (lines : list string) : value * session_metadata :=
  fold_left session_step lines (VNull, no_metadata).

(** [['user', 'assistant', 'tool_result'].includes(type)] *)
Definition is_message_type (type : value) : bool :=
  existsb (same_value_zero type)
          [VStr "user"; VStr "assistant"; VStr "tool_result"].

(** The body of the [try] block of the loop over new lines. *)
Definition parse_line_body (conversationId : nat) (line : string)
    (acc : parse_acc) : SE store parse_acc :=
  let lineHash := hashContent line in
  match JSON_parse line with
  | None => lift Throw
  | Some entry =>
      let* type := lift (prop entry "type") in
      if negb (is_message_type type) then ret acc
      else
        let* role := lift (extractRole entry) in
        let* content := lift (extractContent entry) in
        match content with
        | None => ret acc
        | Some text =>
            if str_empty text then ret acc
            else
              let* timestamp := lift (prop entry "timestamp") in
              let* inserted :=
                insertEntry conversationId lineHash (entryIndex acc) role text
                            (js_or timestamp VNull) in
              ret {| newEntries :=
                       if inserted : bool then S (newEntries acc)
                       else newEntries acc;
                     skipped :=
                       if inserted then skipped acc else S (skipped acc);
                     entryIndex := S (entryIndex acc);
                     lastHash := Some lineHash |}
        end
  end.

Definition parse_line (conversationId : nat) (line : string) (acc : parse_acc)
  : SE store parse_acc :=
  try_or (parse_line_body conversationId line acc) acc.

Fixpoint parse_lines (conversationId : nat) (lines : list string)
    (acc : parse_acc) : SE store parse_acc :=
  match lines with
  | [] => ret acc
  | line :: rest =>
      let* acc' := parse_line conversationId line acc in
      parse_lines conversationId rest acc'
  end.

Definition parseJSONL (fs : filesystem) (filePath : string) (projectId : value)
  : SE store parse_result :=
  match fs filePath with
  | None => ret (ParseFailure "File not found")
  | Some content =>
      let* parseState := getParseState filePath in
      let startLine :=
        match parseState with
        | Some row => last_line_number row
        | None => 0
        end in
      let lines := nonblank_lines content in
      if (length lines <=? startLine)%nat then ret ParseUnchanged
      else
        let found := find_session lines in
        let sessionId :=
          if truthy (fst found) then fst found
          else VStr (remove_first ".jsonl" (last_segment filePath)) in
        let* conversation :=
          findOrCreateConversation sessionId filePath "jsonl" (snd found) in
        let conversationId := c_id conversation in
        let* _ :=
          if truthy projectId && negb (truthy (c_project_id conversation))
          then set_project projectId conversationId else ret tt in
        let* acc :=
          parse_lines conversationId (drop startLine lines)
            {| newEntries := 0; skipped := 0;
               entryIndex := startLine; lastHash := None |} in
        let* _ :=
          if (0 <? newEntries acc)%nat || (startLine <? length lines)%nat then
            let* _ := updateParseState filePath (length lines) (lastHash acc) in
            updateConversationStats conversationId
          else ret tt in
        ret (ParseDone conversationId sessionId (newEntries acc) (skipped acc)
                       (Some (length lines)))
  end.

(** *** Plain-text transcripts *)

(** Where the scan of [content.split(/^(Human:|Assistant:|>)\s*/gm)] stands:
    inside a segment ([cur] is the segment so far, reversed, and [bol] tells
    whether the position is at the start of a line), inside a marker with [n]
    characters left, or in the white space after a marker. *)
Inductive split_mode :=
| InSegment (cur : string) (bol : bool)
| InMarker (n : nat)
| InSpace (bol : bool).

Definition marker_at (s : string) : option string :=
  if String.prefix "Human:" s then Some "Human:"
  else if String.prefix "Assistant:" s then Some "Assistant:"
  else if String.prefix ">" s then Some ">"
  else None.

Definition after_marker (n : nat) : split_mode :=
  match n with 0 => InSpace false | S _ => InMarker n end.

Fixpoint split_roles_go (s : string) (m : split_mode) : list string :=
  match s with
  | EmptyString =>
      match m with
      | InSegment cur _ => [str_rev cur]
      | _ => [""]
      end
  | String c s' =>
      match m with
      | InMarker n => split_roles_go s' (after_marker (n - 1))
      | InSegment cur bol =>
          match (if bol then marker_at s else None) with
          | Some mk =>
              str_rev cur :: mk
                :: split_roles_go s' (after_marker (String.length mk - 1))
          | None => split_roles_go s' (InSegment (String c cur) (is_line_end c))
          end
      | InSpace bol =>
          if is_ws c then split_roles_go s' (InSpace (is_line_end c))
          else
            match (if bol then marker_at s else None) with
            | Some mk =>
                "" :: mk
                  :: split_roles_go s' (after_marker (String.length mk - 1))
            | None => split_roles_go s' (InSegment (String c "") (is_line_end c))
            end
      end
  end.

Definition split_roles (content : string) : list string :=
  split_roles_go content (InSegment "" true).

Record txt_acc := {
  t_newEntries : nat;
  t_skipped : nat;
  t_currentRole : string;
  t_entryIndex : nat
}.

Definition txt_block (conversationId : nat) (raw : string) (acc : txt_acc)
  : SE store txt_acc :=
  let block := trim raw in
  if String.eqb block "Human:" || String.eqb block ">" then
    ret {| t_newEntries := t_newEntries acc; t_skipped := t_skipped acc;
           t_currentRole := "user"; t_entryIndex := t_entryIndex acc |}
  else if String.eqb block "Assistant:" then
    ret {| t_newEntries := t_newEntries acc; t_skipped := t_skipped acc;
           t_currentRole := "assistant"; t_entryIndex := t_entryIndex acc |}
  else if str_empty block then ret acc
  else
    let blockHash := hashContent block in
    let* inserted :=
      insertEntry conversationId blockHash (t_entryIndex acc)
                  (VStr (t_currentRole acc)) block VNull in
    ret {| t_newEntries :=
             if inserted : bool then S (t_newEntries acc) else t_newEntries acc;
           t_skipped := if inserted then t_skipped acc else S (t_skipped acc);
           t_currentRole := t_currentRole acc;
           t_entryIndex := S (t_entryIndex acc) |}.

Fixpoint txt_blocks (conversationId : nat) (blocks : list string)
    (acc : txt_acc) : SE store txt_acc :=
  match blocks with
  | [] => ret acc
  | raw :: rest =>
      let* acc' := txt_block conversationId raw acc in
      txt_blocks conversationId rest acc'
  end.

Definition parseTXT (fs : filesystem) (filePath : string) (projectId : value)
  : SE store parse_result :=
  match fs filePath with
  | None => ret (ParseFailure "File not found")
  | Some content =>
      let* parseState := getParseState filePath in
      let contentHash := hashContent content in
      if match parseState with
         | Some row =>
             match last_entry_hash row with
             | Some h => String.eqb h contentHash
             | None => false
             end
         | None => false
         end
      then ret ParseUnchanged
      else
        let basename := remove_first ".txt" (last_segment filePath) in
        let sessionId := VStr ("txt-" ++ basename) in
        let* conversation :=
          findOrCreateConversation sessionId filePath "txt" no_metadata in
        let conversationId := c_id conversation in
        let* _ :=
          if truthy projectId && negb (truthy (c_project_id conversation))
          then set_project projectId conversationId else ret tt in
        let blocks :=
          List.filter (fun s => negb (str_empty (trim s))) (split_roles content) in
        let* acc :=
          txt_blocks conversationId blocks
            {| t_newEntries := 0; t_skipped := 0;
               t_currentRole := "user"; t_entryIndex := 0 |} in
        let* _ := updateParseState filePath 0 (Some contentHash) in
        let* _ := updateConversationStats conversationId in
        ret (ParseDone conversationId sessionId (t_newEntries acc)
                       (t_skipped acc) None)
  end.

Definition processFile (fs : filesystem) (filePath : string) (projectId : value)
  : SE store parse_result :=
  let ext := extension filePath in
  if String.eqb ext "jsonl" then parseJSONL fs filePath projectId
  else if String.eqb ext "txt" then parseTXT fs filePath projectId
  else ret (ParseFailure "Unknown format").

End Platform.

End Parser.

(** ** artifactExtractorService.js *)

Module Extractor.

Definition MAX_OUTPUT_SIZE : nat := 10240.
Definition SUMMARY_LENGTH : nat := 500.
Definition PROMPT_CONTEXT_LENGTH : nat := 200.

(** The object handed to [storeArtifact]; a field the caller leaves out is
    [None], [VUndef] or [false]. *)
Record artifact := {
  conversationId : nat;
  entryId : option nat;
  type : string;
  language : option string;
  toolName : value;
  content : option string;
  metadata : option value;
  contentHash : string;
  outcome : option string;
  outputSummary : option string;
  outputFull : option string;
  outputSizeBytes : nat;
  outputTruncated : bool;
  errorType : option string;
  promptContext : value
}.

Record code_block := {
  cb_language : string;
  cb_content : string;
  cb_startIndex : nat
}.

Record json_object := {
  jo_content : string;
  jo_parsed : value;
  jo_startIndex : nat
}.

(** What [processOutput] returns. *)
Record output_data := {
  summary : option string;
  full : option string;
  size : nat;
  truncated : bool
}.

(** Entry of [toolCallMap]; [result], [isError] and [resultLineIndex] are
    assigned when a result is attached. *)
Record tool_call := {
  name : value;
  input : value;
  lineIndex : nat;
  timestamp : value;
  result : value;
  isError : value;
  resultLineIndex : option nat
}.

(** The counters [results]. *)
Record extract_counts := {
  codeBlocks : nat;
  toolCalls : nat;
  toolResults : nat;
  jsonObjects : nat;
  skipped : nat
}.

Inductive extract_result :=
| ExtractFailure (error : string)
    (** [{ success: false, error }] *)
| ExtractDone (results : extract_counts)
    (** [{ success: true, ...results }] of [processJSONLFile] *)
| ExtractEntriesDone (codeBlocks jsonObjects skipped : nat)
    (** [{ success: true, ...results }] of the stored-entries path *).

(** [x || null] on an optional string. *)
Definition or_null (o : option string) : option string :=
  match o with
  | Some s => if str_empty s then None else Some s
  | None => None
  end.

(** The serialization of a value that is not [undefined]. *)
Definition serialized (v : value) : string := default "" (JSON_stringify v).

(** [Object.keys(v)] *)
Definition object_keys (v : value) : list string :=
  match v with
  | VObj fields => map fst fields
  | VArr items => map (fun i : nat => pretty i) (seq 0 (length items))
  | VStr s => map (fun i : nat => pretty i) (seq 0 (String.length s))
  | _ => []
  end.

(** A JavaScript [Map] in insertion order. *)
Definition toolCallMap := list (value * tool_call).

Fixpoint map_get (m : toolCallMap) (key : value) : option tool_call :=
  match m with
  | [] => None
  | (k, c) :: rest => if same_value_zero k key then Some c else map_get rest key
  end.

(** [m.set(key, c)]: an existing key keeps its place. *)
Fixpoint map_set (key : value) (c : tool_call) (m : toolCallMap) : toolCallMap :=
  match m with
  | [] => [(key, c)]
  | (k, c0) :: rest =>
      if same_value_zero k key then (k, c) :: rest
      else (k, c0) :: map_set key c rest
  end.

Fixpoint for_each {S A} (f : A -> SE S unit) (l : list A) : SE S unit :=
  match l with
  | [] => ret tt
  | x :: rest => let* _ := f x in for_each f rest
  end.

(** *** Scanners *)

(** The text up to the next closing fence. *)
Fixpoint fence_body (s : string) : option string :=
  if String.prefix "```" s then Some ""
  else match s with
       | EmptyString => None
       | String c s' => option_map (String c) (fence_body s')
       end.

Fixpoint word_prefix (s : string) : string :=
  match s with
  | String c s' => if is_word c then String c (word_prefix s') else ""
  | EmptyString => ""
  end.

(** A match of the fence pattern (three backticks, a run of word characters,
    a line feed, the shortest text up to three backticks) that starts at the
    head of [s]: the two groups, language tag and body. *)
Definition code_match_at (s : string) : option (string * string) :=
  if String.prefix "```" s then
    let lang := word_prefix (str_drop 3 s) in
    match str_drop (3 + String.length lang) s with
    | String c rest =>
        if Ascii.eqb c "010"%char then
          match fence_body rest with
          | Some body => Some (lang, body)
          | None => None
          end
        else None
    | EmptyString => None
    end
  else None.

(** The [exec] loop: [idx] is the index of the head of [s] in the text and
    [skip] the number of characters of the last match still to pass. *)
Fixpoint code_scan (s : string) (idx skip : nat) : list code_block :=
  match s with
  | EmptyString => []
  | String _ s' =>
      match skip with
      | S k => code_scan s' (S idx) k
      | 0 =>
          match code_match_at s with
          | Some (lang, body) =>
              {| cb_language := if str_empty lang then "text" else lang;
                 cb_content := trim body;
                 cb_startIndex := idx |}
                :: code_scan s' (S idx)
                     (String.length lang + String.length body + 6)
          | None => code_scan s' (S idx) 0
          end
      end
  end.

Definition extractCodeBlocks (text : string) : list code_block :=
  code_scan text 0 0.

Section Platform.

Variable JSON_parse : string -> option value.
Variable sha256 : string -> string.
(** [ORDER BY entry_index ASC] of the stored-entries query. *)
Variable order_by_entry_index : list entry_row -> list entry_row.

Definition hashContent (content : string) : string := sha256 content.

(** [typeof parsed === 'object' && Object.keys(parsed).length > 0]; reading
    the keys of [null] raises, and the scanner catches it. *)
Definition meaningful (parsed : value) : bool :=
  match parsed with
  | VObj fields => negb (Nat.eqb (length fields) 0)
  | VArr items => negb (Nat.eqb (length items) 0)
  | _ => false
  end.

(** The [exec] loop of [/\{[\s\S]*?\}/g]: [open] holds the start index and
    the reversed text of a match that has begun. *)
Fixpoint json_scan (s : string) (idx : nat) (open : option (nat * string))
  : list json_object :=
  match s with
  | EmptyString => []
  | String c s' =>
      match open with
      | None =>
          if Ascii.eqb c "{"%char
          then json_scan s' (S idx) (Some (idx, String c ""))
          else json_scan s' (S idx) None
      | Some (start, acc) =>
          if Ascii.eqb c "}"%char then
            let text := str_rev (String c acc) in
            match JSON_parse text with
            | Some parsed =>
                if meaningful parsed then
                  {| jo_content := text; jo_parsed := parsed;
                     jo_startIndex := start |} :: json_scan s' (S idx) None
                else json_scan s' (S idx) None
            | None => json_scan s' (S idx) None
            end
          else json_scan s' (S idx) (Some (start, String c acc))
      end
  end.

Definition extractJsonObjects (text : string) : list json_object :=
  json_scan text 0 None.

Definition artifactExists (conversationId : nat) (contentHash : string)
  : SE store bool :=
  fun st =>
    (Ok (existsb (fun a => Nat.eqb (a_conversation_id a) conversationId
                           && String.eqb (a_content_hash a) contentHash)
                 (artifacts st)),
     st).

Definition artifact_to_row (a : artifact) : artifact_row :=
  {| a_conversation_id := conversationId a;
     a_entry_id := entryId a;
     a_artifact_type := type a;
     a_language := or_null (language a);
     a_tool_name := js_or (toolName a) VNull;
     a_content := or_null (content a);
     a_metadata :=
       match metadata a with
       | Some m => JSON_stringify m
       | None => None
       end;
     a_content_hash := contentHash a;
     a_outcome := or_null (outcome a);
     a_output_summary := or_null (outputSummary a);
     a_output_full := or_null (outputFull a);
     a_output_size_bytes :=
       match outputSizeBytes a with 0 => None | n => Some n end;
     a_output_truncated := outputTruncated a;
     a_error_type := or_null (errorType a);
     a_prompt_context := js_or (promptContext a) VNull |}.

Definition storeArtifact (a : artifact) : SE store unit :=
  fun st =>
    (Ok tt,
     {| parse_states := parse_states st;
        conversations := conversations st;
        entries := entries st;
        artifacts := artifacts st ++ [artifact_to_row a] |}).

Definition processOutput (output : value) (isError : bool) : output_data :=
  if negb (truthy output) then
    {| summary := None; full := None; size := 0; truncated := false |}
  else
    let outputStr :=
      match output with
      | VStr s => s
      | _ => serialized output
      end in
    let size := String.length outputStr in
    let summary := slice_to SUMMARY_LENGTH outputStr in
    if isError then
      {| summary := Some summary; full := Some outputStr;
         size := size; truncated := false |}
    else if (size <=? MAX_OUTPUT_SIZE)%nat then
      {| summary := Some summary; full := Some outputStr;
         size := size; truncated := false |}
    else
      {| summary := Some summary; full := None;
         size := size; truncated := true |}.

(** [a + b] when the sum is then used as a string ([toLowerCase]): the sum
    of two values that are neither strings, arrays nor objects is a number,
    and the method call on it raises. *)
Definition concat_text (a b : value) : res string :=
  let stringy v :=
    match v with VStr _ | VArr _ | VObj _ => true | _ => false end in
  if stringy a || stringy b then Ok (to_string a ++ to_string b) else Throw.

Definition classifyError (output errorMessage : value) : res string :=
  let? text := concat_text (js_or output (VStr "")) (js_or errorMessage (VStr "")) in
  let lowerText := toLowerCase text in
  if includes lowerText "permission denied" || includes lowerText "access denied"
  then Ok "permission"
  else if includes lowerText "not found" || includes lowerText "no such file"
  then Ok "not_found"
  else if includes lowerText "timeout" || includes lowerText "timed out"
  then Ok "timeout"
  else if includes lowerText "connection" || includes lowerText "network"
  then Ok "network"
  else if includes lowerText "syntax error" || includes lowerText "parse error"
  then Ok "syntax"
  else if includes lowerText "validation" || includes lowerText "invalid"
  then Ok "validation"
  else Ok "unknown".

(** [items.slice(-n)] on an array *)
Definition last_items {A} (n : nat) (l : list A) : list A :=
  drop (length l - n) l.

Definition getPromptContext (entries : list value) (currentIndex : nat)
  : res value :=
  if (currentIndex <=? 0)%nat || (length entries =? 0)%nat then Ok VNull
  else
    let prevEntry := nth (currentIndex - 1) entries VUndef in
    let content := prop_opt prevEntry "content" in
    if negb (truthy content) then Ok VNull
    else
      match content with
      | VStr s => Ok (VStr (slice_last PROMPT_CONTEXT_LENGTH s))
      | VArr items => Ok (VArr (last_items PROMPT_CONTEXT_LENGTH items))
      | _ => Throw
      end.

(** *** First pass: tool calls and their results *)

Definition record_tool_use (i : nat) (entry block : value)
  : SE toolCallMap unit :=
  let* type := lift (prop block "type") in
  if is_str type "tool_use" then
    fun m =>
      (Ok tt,
       map_set (prop_opt block "id")
               {| name := prop_opt block "name";
                  input := prop_opt block "input";
                  lineIndex := i;
                  timestamp := prop_opt entry "timestamp";
                  result := VUndef;
                  isError := VUndef;
                  resultLineIndex := None |} m)
  else ret tt.

Definition record_tool_result (i : nat) (block : value) : SE toolCallMap unit :=
  let* type := lift (prop block "type") in
  if is_str type "tool_result" then
    fun m =>
      let key := prop_opt block "tool_use_id" in
      match map_get m key with
      | Some call =>
          (Ok tt,
           map_set key
                   {| name := name call;
                      input := input call;
                      lineIndex := lineIndex call;
                      timestamp := timestamp call;
                      result := prop_opt block "content";
                      isError := prop_opt block "is_error";
                      resultLineIndex := Some i |} m)
      | None => (Ok tt, m)
      end
  else ret tt.

(** The body of the [try] block of the first pass. *)
Definition collect_line_body (i : nat) (line : string) : SE toolCallMap unit :=
  match JSON_parse line with
  | None => lift Throw
  | Some entry =>
      let* type := lift (prop entry "type") in
      let content := prop_opt (prop_opt entry "message") "content" in
      let* _ :=
        if is_str type "assistant" && isArray content then
          match content with
          | VArr blocks => for_each (record_tool_use i entry) blocks
          | _ => ret tt
          end
        else ret tt in
      if is_str type "user" && isArray content then
        match content with
        | VArr blocks => for_each (record_tool_result i) blocks
        | _ => ret tt
        end
      else ret tt
  end.

Fixpoint collect_lines (i : nat) (lines : list string) : SE toolCallMap unit :=
  match lines with
  | [] => ret tt
  | line :: rest =>
      let* _ := try_or (collect_line_body i line) tt in
      collect_lines (S i) rest
  end.

Definition collect_tool_calls (lines : list string) : toolCallMap :=
  snd (collect_lines 0 lines []).

(** Second pass: the decoded lines, [null] for a line that does not decode. *)
Definition decode_lines (lines : list string) : list value :=
  map (fun line => default VNull (JSON_parse line)) lines.

(** *** Storing the artifacts *)

Definition no_counts : extract_counts :=
  {| codeBlocks := 0; toolCalls := 0; toolResults := 0;
     jsonObjects := 0; skipped := 0 |}.

Definition bump_skipped (r : extract_counts) : extract_counts :=
  {| codeBlocks := codeBlocks r; toolCalls := toolCalls r;
     toolResults := toolResults r; jsonObjects := jsonObjects r;
     skipped := S (skipped r) |}.

Definition bump_toolCalls (r : extract_counts) : extract_counts :=
  {| codeBlocks := codeBlocks r; toolCalls := S (toolCalls r);
     toolResults := toolResults r; jsonObjects := jsonObjects r;
     skipped := skipped r |}.

Definition bump_toolResults (r : extract_counts) : extract_counts :=
  {| codeBlocks := codeBlocks r; toolCalls := toolCalls r;
     toolResults := S (toolResults r); jsonObjects := jsonObjects r;
     skipped := skipped r |}.

Definition bump_codeBlocks (r : extract_counts) : extract_counts :=
  {| codeBlocks := S (codeBlocks r); toolCalls := toolCalls r;
     toolResults := toolResults r; jsonObjects := jsonObjects r;
     skipped := skipped r |}.

(** [isError ? classifyError(call.result) : null] *)
Definition error_type_of (is_error : bool) (call : tool_call)
  : res (option string) :=
  if is_error then
    let? category := classifyError (result call) VUndef in Ok (Some category)
  else Ok None.

Definition tool_call_hash (toolId : value) (call : tool_call) : string :=
  hashContent (serialized (VObj [("id", toolId); ("input", input call)])).

Definition tool_result_hash (toolId : value) (call : tool_call) : string :=
  hashContent (serialized (VObj [("id", toolId); ("result", result call)])).

(** The [tool_call] artifact of an invocation. *)
Definition tool_call_artifact (conv : nat) (toolId : value) (call : tool_call)
    (error_type : option string) (context : value) : artifact :=
  let is_error := is_true (isError call) in
  let outputData := processOutput (result call) is_error in
  {| conversationId := conv;
     entryId := None;
     type := "tool_call";
     language := None;
     toolName := name call;
     content := JSON_stringify (input call);
     metadata :=
       Some (VObj [("toolUseId", toolId);
                   ("inputKeys",
                    VArr (map VStr (object_keys (js_or (input call) (VObj [])))))]);
     contentHash := tool_call_hash toolId call;
     outcome :=
       Some (if is_error then "error"
             else if truthy (result call) then "success" else "pending");
     outputSummary := summary outputData;
     outputFull := full outputData;
     outputSizeBytes := size outputData;
     outputTruncated := truncated outputData;
     errorType := error_type;
     promptContext := context |}.

(** The [tool_result] artifact of an invocation that has a result. *)
Definition tool_result_artifact (conv : nat) (toolId : value) (call : tool_call)
    (error_type : option string) : artifact :=
  let is_error := is_true (isError call) in
  let outputData := processOutput (result call) is_error in
  {| conversationId := conv;
     entryId := None;
     type := "tool_result";
     language := None;
     toolName := name call;
     content := summary outputData;
     metadata := Some (VObj [("toolUseId", toolId)]);
     contentHash := tool_result_hash toolId call;
     outcome := Some (if is_error then "error" else "success");
     outputSummary := summary outputData;
     outputFull := full outputData;
     outputSizeBytes := size outputData;
     outputTruncated := truncated outputData;
     errorType := error_type;
     promptContext := VUndef |}.

(** One turn of the loop over [toolCallMap]. *)
Definition process_tool_call (entries : list value) (conv : nat)
    (toolId : value) (call : tool_call) (results : extract_counts)
  : SE store extract_counts :=
  let* present := artifactExists conv (tool_call_hash toolId call) in
  if present : bool then ret (bump_skipped results)
  else
    let is_error := is_true (isError call) in
    let* error_type := lift (error_type_of is_error call) in
    let* context := lift (getPromptContext entries (lineIndex call)) in
    let* _ := storeArtifact
                (tool_call_artifact conv toolId call error_type context) in
    let results := bump_toolCalls results in
    if truthy (result call) then
      let* present := artifactExists conv (tool_result_hash toolId call) in
      if negb present then
        let* error_type := lift (error_type_of is_error call) in
        let* _ := storeArtifact
                    (tool_result_artifact conv toolId call error_type) in
        ret (bump_toolResults results)
      else ret results
    else ret results.

Fixpoint process_tool_calls (entries : list value) (conv : nat)
    (calls : toolCallMap) (results : extract_counts)
  : SE store extract_counts :=
  match calls with
  | [] => ret results
  | (toolId, call) :: rest =>
      let* results' := process_tool_call entries conv toolId call results in
      process_tool_calls entries conv rest results'
  end.

(** The text of the [text] blocks of an assistant message. *)
Fixpoint text_of_blocks (blocks : list value) (textContent : string)
  : res string :=
  match blocks with
  | [] => Ok textContent
  | block :: rest =>
      let? type := prop block "type" in
      if is_str type "text" then
        let? text := prop block "text" in
        text_of_blocks rest (textContent ++ to_string text ++ nl)
      else text_of_blocks rest textContent
  end.

Definition entry_text (content : value) : res string :=
  match content with
  | VStr s => Ok s
  | VArr blocks => text_of_blocks blocks ""
  | _ => Ok ""
  end.

Definition code_block_artifact (conv : nat) (entry_id : option nat)
    (block : code_block) (context : value) : artifact :=
  {| conversationId := conv;
     entryId := entry_id;
     type := "code_block";
     language := Some (cb_language block);
     toolName := VUndef;
     content := Some (cb_content block);
     metadata := None;
     contentHash := hashContent (cb_content block);
     outcome := None;
     outputSummary := None;
     outputFull := None;
     outputSizeBytes := 0;
     outputTruncated := false;
     errorType := None;
     promptContext := context |}.

(** The loop over the code blocks of one message; [context] computes the
    prompt context, and is run only for a block that is stored. *)
Fixpoint store_code_blocks (conv : nat) (entry_id : option nat)
    (context : res value) (blocks : list code_block)
    (results : extract_counts) : SE store extract_counts :=
  match blocks with
  | [] => ret results
  | block :: rest =>
      let* present := artifactExists conv (hashContent (cb_content block)) in
      if present : bool then
        store_code_blocks conv entry_id context rest (bump_skipped results)
      else
        let* ctx := lift context in
        let* _ := storeArtifact (code_block_artifact conv entry_id block ctx) in
        store_code_blocks conv entry_id context rest (bump_codeBlocks results)
  end.

(** One turn of the loop over the decoded lines. *)
Definition process_entry (entries : list value) (conv : nat) (i : nat)
    (entry : value) (results : extract_counts) : SE store extract_counts :=
  if negb (truthy entry) then ret results
  else
    let* type := lift (prop entry "type") in
    if negb (is_str type "assistant") then ret results
    else
      let content := prop_opt (prop_opt entry "message") "content" in
      if negb (truthy content) then ret results
      else
        let* textContent := lift (entry_text content) in
        store_code_blocks conv None (getPromptContext entries i)
                          (extractCodeBlocks textContent) results.

Fixpoint process_entries (entries : list value) (conv : nat) (i : nat)
    (todo : list value) (results : extract_counts)
  : SE store extract_counts :=
  match todo with
  | [] => ret results
  | entry :: rest =>
      let* results' := process_entry entries conv i entry results in
      process_entries entries conv (S i) rest results'
  end.

Definition processJSONLFile (fs : filesystem) (filePath : string) (conv : nat)
  : SE store extract_result :=
  match fs filePath with
  | None => ret (ExtractFailure "File not found")
  | Some file =>
      let lines := nonblank_lines file in
      let calls := collect_tool_calls lines in
      let entries := decode_lines lines in
      let* results := process_tool_calls entries conv calls no_counts in
      let* results := process_entries entries conv 0 entries results in
      ret (ExtractDone results)
  end.

(** *** Extraction from stored entries *)

(** [prevContent ? prevContent.slice(-PROMPT_CONTEXT_LENGTH) : null] with
    [prevContent] the content of the row before index [i]. *)
Definition stored_context (rows : list entry_row) (i : nat) : value :=
  match i with
  | 0 => VNull
  | S j =>
      match nth_error rows j with
      | Some prev =>
          if str_empty (e_content prev) then VNull
          else VStr (slice_last PROMPT_CONTEXT_LENGTH (e_content prev))
      | None => VNull
      end
  end.

Fixpoint process_rows (rows : list entry_row) (conv : nat) (i : nat)
    (todo : list entry_row) (results : extract_counts)
  : SE store extract_counts :=
  match todo with
  | [] => ret results
  | entry :: rest =>
      if negb (is_str (e_role entry) "assistant") then
        process_rows rows conv (S i) rest results
      else
        let* results' :=
          store_code_blocks conv (Some (e_id entry))
                            (Ok (stored_context rows i))
                            (extractCodeBlocks (e_content entry)) results in
        process_rows rows conv (S i) rest results'
  end.

Definition processConversationEntries (fs : filesystem) (conv : nat)
  : SE store extract_result :=
  let* st := get in
  match List.find (fun c => Nat.eqb (c_id c) conv) (conversations st) with
  | None => ret (ExtractFailure "Conversation not found")
  | Some conversation =>
      if String.eqb (c_source_file_type conversation) "jsonl"
         && bool_decide (is_Some (fs (c_source_file_path conversation)))
      then processJSONLFile fs (c_source_file_path conversation) conv
      else
        let rows :=
          order_by_entry_index
            (List.filter (fun e => Nat.eqb (e_conversation_id e) conv)
                         (entries st)) in
        let* results := process_rows rows conv 0 rows no_counts in
        ret (ExtractEntriesDone (codeBlocks results) (jsonObjects results)
                                (skipped results))
  end.

End Platform.

End Extractor.

(** ** The query functions of the two services *)

Module Queries.

(** [getConversation]: [SELECT * FROM conversations WHERE id = ?], [None]
    for the [undefined] of no row. *)
Definition getConversation (id : nat) (st : store) : option conversation_row :=
  List.find (fun c => Nat.eqb (c_id c) id) (conversations st).

(** What [getArtifactStats] returns: the six [COUNT]s. *)
Record artifact_stats := {
  total : nat;
  code_blocks : nat;
  tool_calls : nat;
  tool_results : nat;
  json_objects : nat;
  errors : nat
}.

(** [conversationId ? 'WHERE conversation_id = ?' : '']: without an id, and
    with the id 0, the counts are over all rows. *)
Definition stats_scope (conversationId : option nat) (st : store)
  : list artifact_row :=
  match conversationId with
  | Some (S n) =>
      List.filter (fun a => Nat.eqb (a_conversation_id a) (S n)) (artifacts st)
  | _ => artifacts st
  end.

(** [COUNT(CASE WHEN artifact_type = ty THEN 1 END)] *)
Definition count_of_type (ty : string) (rows : list artifact_row) : nat :=
  length (List.filter (fun a => String.eqb (a_artifact_type a) ty) rows).

(** [outcome = 'error'], false for a null outcome. *)
Definition is_error (a : artifact_row) : bool :=
  match a_outcome a with
  | Some outcome => String.eqb outcome "error"
  | None => false
  end.

Definition getArtifactStats (conversationId : option nat) (st : store)
  : artifact_stats :=
  let rows := stats_scope conversationId st in
  {| total := length rows;
     code_blocks := count_of_type "code_block" rows;
     tool_calls := count_of_type "tool_call" rows;
     tool_results := count_of_type "tool_result" rows;
     json_objects := count_of_type "json_object" rows;
     errors := length (List.filter is_error rows) |}.

(** The [options] of [getConversationArtifacts]; [None] is a field left
    out. *)
Record artifact_options := {
  o_type : option string;
  o_toolName : option string;
  o_outcome : option string;
  o_limit : option nat;
  o_offset : option nat
}.

(** A row of the result: the id, the columns, and the decoded metadata. *)
Record artifact_result := {
  r_id : nat;
  r_row : artifact_row;
  r_metadata : value
}.

(** The rows of the table with their ids. *)
Definition with_ids (rows : list artifact_row) : list (nat * artifact_row) :=
  combine (seq 1 (length rows)) rows.

Section Platform.

Variable JSON_parse : string -> option value.
(** [tool_name = ?]: the comparison of a stored tool name with a text. *)
Variable sql_equal : value -> string -> bool.

(** The [WHERE] clause: the conversation, and each filter that is truthy. *)
Definition selected (conversationId : nat) (o : artifact_options)
    (a : artifact_row) : bool :=
  Nat.eqb (a_conversation_id a) conversationId
  && match Extractor.or_null (o_type o) with
     | Some ty => String.eqb (a_artifact_type a) ty
     | None => true
     end
  && match Extractor.or_null (o_toolName o) with
     | Some name => sql_equal (a_tool_name a) name
     | None => true
     end
  && match Extractor.or_null (o_outcome o) with
     | Some outcome =>
         match a_outcome a with
         | Some x => String.eqb x outcome
         | None => false
         end
     | None => true
     end.

(** [{...row, metadata: row.metadata ? JSON.parse(row.metadata) : null}] *)
Definition decode_metadata (row : nat * artifact_row) : res artifact_result :=
  match Extractor.or_null (a_metadata (snd row)) with
  | Some text =>
      match JSON_parse text with
      | Some v => Ok {| r_id := fst row; r_row := snd row; r_metadata := v |}
      | None => Throw
      end
  | None => Ok {| r_id := fst row; r_row := snd row; r_metadata := VNull |}
  end.

Definition getConversationArtifacts (conversationId : nat)
    (o : artifact_options) (st : store) : res (list artifact_result) :=
  let limit := default 100 (o_limit o) in
  let offset := default 0 (o_offset o) in
  let results :=
    take limit
      (drop offset
         (List.filter (fun row => selected conversationId o (snd row))
                      (with_ids (artifacts st)))) in
  Parser.map_res decode_metadata results.

End Platform.

End Queries.

(** ** configExtractorService.js *)

Module ConfigExtractor.

(** A row of [config_snapshots]; [captured_at] is the time of the insert and
    is left out. *)
Record snapshot_row := {
  s_project_id : value;
  s_file_path : string;
  s_file_type : string;
  s_file_hash : string;
  s_metadata : string
}.

(** The table, rows in insertion order. *)
Definition snapshots := list snapshot_row.

Inductive process_result :=
| ConfigFailure (error : string)
    (** [{ success: false, error }] *)
| ConfigUnchanged
    (** [{ success: true, unchanged: true }] *)
| ConfigStored (fileType : string) (metadata : value)
    (** [{ success: true, fileType, metadata }] *).

(** *** Section headers *)

(** The number of leading characters that satisfy [p]. *)
Fixpoint count_prefix (p : ascii -> bool) (s : string) : nat :=
  match s with
  | String c s' => if p c then S (count_prefix p s') else 0
  | EmptyString => 0
  end.

(** The longest prefix of characters that satisfy [p]. *)
Fixpoint take_while (p : ascii -> bool) (s : string) : string :=
  match s with
  | String c s' => if p c then String c (take_while p s') else ""
  | EmptyString => ""
  end.

(** [.] of a pattern: any character but a line terminator. *)
Definition is_dot (c : ascii) : bool := negb (is_line_end c).

(** The last character of [s] that [.] matches. *)
Fixpoint last_dot (s : string) : option ascii :=
  match s with
  | String c s' =>
      match last_dot s' with
      | Some d => Some d
      | None => if is_dot c then Some c else None
      end
  | EmptyString => None
  end.

(** [line.match(/^(#{1,6})\s+(.+)/)]: the length of the first group and the
    second group.  The line must start with one to six hash signs followed
    by white space.  When text follows the white space, the second group is
    that text up to the first line terminator; when the line ends with the
    white space, the white space gives back its last character that is not a
    line terminator, the first one excepted, and this character is the
    second group. *)
Definition header_match (line : string) : option (nat * string) :=
  let hashes := count_prefix (Ascii.eqb "#"%char) line in
  if ((1 <=? hashes) && (hashes <=? 6))%nat then
    let rest := str_drop hashes line in
    let spaces := count_prefix is_ws rest in
    match spaces with
    | 0 => None
    | S k =>
        match str_drop spaces rest with
        | String c after => Some (hashes, take_while is_dot (String c after))
        | EmptyString =>
            match last_dot (str_take k (str_drop 1 rest)) with
            | Some d => Some (hashes, String d "")
            | None => None
            end
        end
    end
  else None.

(** [{ level: headerMatch[1].length, title: headerMatch[2].trim() }] *)
Record section_header := {
  level : nat;
  title : string
}.

Definition header_of (line : string) : option section_header :=
  match header_match line with
  | Some (hashes, text) => Some {| level := hashes; title := trim text |}
  | None => None
  end.

(** The headers of the lines, in order. *)
Definition headers_of (lines : list string) : list section_header :=
  omap header_of lines.

(** *** Hooks *)

(** The sources of [hookPatterns]. *)
Definition hookPatterns : list string :=
  ["PreToolUse"; "PostToolUse"; "SessionStart"; "SessionEnd"; "UserPrompt"].

(** [line.match(pattern)?.[0]] for a pattern of letters with the [i] flag:
    the first piece of the line that equals the pattern up to case. *)
Fixpoint first_ci (pattern line : string) : option string :=
  if String.prefix (toLowerCase pattern) (toLowerCase line)
  then Some (str_take (String.length pattern) line)
  else match line with
       | String _ rest => first_ci pattern rest
       | EmptyString => None
       end.

(** [hooks.includes(name)] *)
Definition listed (name : string) (hooks : list string) : bool :=
  existsb (String.eqb name) hooks.

(** One turn of the loop over the patterns. *)
Definition hook_step (line : string) (hooks : list string) (pattern : string)
  : list string :=
  match first_ci pattern line with
  | Some hookName =>
      if negb (listed pattern hooks)
         && negb (str_empty hookName) && negb (listed hookName hooks)
      then hooks ++ [hookName] else hooks
  | None => hooks
  end.

Definition hooks_of (lines : list string) : list string :=
  fold_left (fun hooks line => fold_left (hook_step line) hookPatterns hooks)
            lines [].

Definition number (n : nat) : value := VNum (Z.of_nat n).

(** The metadata of a hooks file. *)
Definition hooks_metadata (content : string) : value :=
  let lines := split_nl content in
  let hooks := hooks_of lines in
  VObj [("hookCount", number (length hooks));
        ("hooks", VArr (map VStr hooks));
        ("sectionHeaders", VArr (map (fun h => VStr (title h)) (headers_of lines)));
        ("lineCount", number (length lines))].

(** *** Instruction files *)

(** [line.trim().startsWith('```')] *)
Definition is_fence (line : string) : bool := String.prefix "```" (trim line).

Definition fence_count (lines : list string) : nat :=
  length (List.filter is_fence lines).

Definition header_object (h : section_header) : value :=
  VObj [("level", number (level h)); ("title", VStr (title h))].

(** The metadata of [CLAUDE.md]. *)
Definition claude_md_metadata (content : string) : value :=
  let lines := split_nl content in
  let headers := headers_of lines in
  let fences := fence_count lines in
  VObj [("lineCount", number (length lines));
        ("sectionHeaders", VArr (map (fun h => VStr (title h)) headers));
        ("sectionStructure", VArr (map header_object headers));
        ("hasCodeBlocks", VBool (0 <? fences)%nat);
        ("codeBlockCount", number (fences / 2));
        ("charCount", number (String.length content))].

(** [filePath.split(/[/\\]/).pop().toLowerCase()] and the tests on it. *)
Definition getFileType (filePath : string) : string :=
  let filename := toLowerCase (Parser.last_segment filePath) in
  if String.eqb filename "settings.local.json" || String.eqb filename "settings.json"
  then "settings"
  else if String.eqb filename "plugin.json" || String.eqb filename "plugins.json"
  then "plugin"
  else if String.eqb filename "hooks.md" || includes filename "hook"
  then "hooks"
  else if String.eqb filename "claude.md" then "claude_md"
  else "unknown".

(** The properties read from decoded values here ([model], [permissions],
    [features], [apiKey], [autoApprove], [denyPatterns], [plugins], [name],
    [version], [enabled]) are no built-in properties of a string, a number,
    a boolean or an array either, so [prop] and [prop_opt] read them. *)

Section Platform.

Variable JSON_parse : string -> option value.
Variable sha256 : string -> string.
(** [err.message] of the [SyntaxError] that [JSON.parse] raises on a text,
    of the [TypeError] of reading a property of [null] or [undefined], and
    of the [TypeError] of calling [map] on a value that has none. *)
Variable syntax_error : string -> string.
Variable read_error : value -> string -> string.
Variable map_error : string.
(** Whether the foreign key of [project_id] accepts a value.  A connection
    that does not enforce foreign keys accepts every value; one that does
    accepts [NULL] and the ids of [projects], a table that this service does
    not write. *)
Variable project_known : value -> bool.

(** [{ error: err.message }] *)
Definition error_metadata (message : string) : value :=
  VObj [("error", VStr message)].

Definition extractSettings (content : string) : value :=
  match JSON_parse content with
  | None => error_metadata (syntax_error content)
  | Some settings =>
      match prop settings "model" with
      | Throw => error_metadata (read_error settings "model")
      | Ok model =>
          VObj [("model", js_or model VNull);
                ("permissions", js_or (prop_opt settings "permissions") (VArr []));
                ("features", js_or (prop_opt settings "features") (VObj []));
                ("hasApiKey", VBool (truthy (prop_opt settings "apiKey")));
                ("autoApprove", js_or (prop_opt settings "autoApprove") (VArr []));
                ("denyPatterns", js_or (prop_opt settings "denyPatterns") (VArr []))]
      end
  end.

(** [plugin.enabled !== false] *)
Definition not_false (v : value) : bool :=
  match v with VBool false => false | _ => true end.

(** The callback of [map] over the plugins, up to the first plugin whose
    [name] cannot be read: the entries, or the message of the error. *)
Fixpoint plugin_entries (plugins : list value) : string + list value :=
  match plugins with
  | [] => inr []
  | plugin :: rest =>
      match prop plugin "name" with
      | Throw => inl (read_error plugin "name")
      | Ok name =>
          match plugin_entries rest with
          | inl message => inl message
          | inr entries =>
              inr (VObj [("name", js_or name plugin);
                         ("version", js_or (prop_opt plugin "version") VNull);
                         ("enabled", VBool (not_false (prop_opt plugin "enabled")))]
                     :: entries)
          end
      end
  end.

Definition extractPlugins (content : string) : value :=
  match JSON_parse content with
  | None => error_metadata (syntax_error content)
  | Some config =>
      match prop config "plugins" with
      | Throw => error_metadata (read_error config "plugins")
      | Ok plugins =>
          match js_or plugins (VArr []) with
          | VArr items =>
              match plugin_entries items with
              | inl message => error_metadata message
              | inr entries =>
                  VObj [("pluginCount", number (length entries));
                        ("plugins", VArr entries)]
              end
          | _ => error_metadata map_error
          end
      end
  end.

Definition extractHooks (content : string) : value := hooks_metadata content.

Definition extractClaudeMd (content : string) : value :=
  claude_md_metadata content.

(** [SELECT id FROM config_snapshots WHERE file_path = ? AND file_hash = ?] *)
Definition snapshot_exists (filePath fileHash : string) (st : snapshots) : bool :=
  existsb (fun s => String.eqb (s_file_path s) filePath
                    && String.eqb (s_file_hash s) fileHash) st.

Definition snapshotExists (filePath fileHash : string) : SE snapshots bool :=
  fun st => (Ok (snapshot_exists filePath fileHash st), st).

(** The insert.  The foreign key refuses a project that is not known, and
    [UNIQUE(file_path, file_hash)] a second row for the pair. *)
Definition storeSnapshot (projectId : value) (filePath fileType fileHash : string)
    (metadata : value) : SE snapshots unit :=
  fun st =>
    if negb (project_known projectId) || snapshot_exists filePath fileHash st
    then (Throw, st)
    else
      (Ok tt,
       (st ++ [{| s_project_id := projectId;
                  s_file_path := filePath;
                  s_file_type := fileType;
                  s_file_hash := fileHash;
                  s_metadata := Extractor.serialized metadata |}])%list).

(** The [switch] over the file type; [None] is the [default] branch. *)
Definition extract_metadata (fileType content : string) : option value :=
  if String.eqb fileType "settings" then Some (extractSettings content)
  else if String.eqb fileType "plugin" then Some (extractPlugins content)
  else if String.eqb fileType "hooks" then Some (extractHooks content)
  else if String.eqb fileType "claude_md" then Some (extractClaudeMd content)
  else None.

Definition processFile (fs : filesystem) (filePath : string) (projectId : value)
  : SE snapshots process_result :=
  match fs filePath with
  | None => ret (ConfigFailure "File not found")
  | Some content =>
      let fileHash := sha256 content in
      let* present := snapshotExists filePath fileHash in
      if present : bool then ret ConfigUnchanged
      else
        let fileType := getFileType filePath in
        match extract_metadata fileType content with
        | None => ret (ConfigFailure "Unknown file type")
        | Some metadata =>
            let* _ := storeSnapshot projectId filePath fileType fileHash metadata in
            ret (ConfigStored fileType metadata)
        end
  end.

End Platform.

End ConfigExtractor.

(** ** Concrete event logs

    The inputs the examples below run on.  A line is written as the value it
    decodes to and put in the file as its serialization; the decoder of the
    examples is the inverse of the serializer on the lines of the example
    files, and fails on every other text, as [JSON.parse] does on the one
    malformed line used here.  The hash of the examples is the identity, which
    is free of collisions as SHA-256 is taken to be. *)

Module Scenarios.

Definition decode_table (table : list value) (text : string) : option value :=
  List.find (fun v => match JSON_stringify v with
                      | Some t => String.eqb t text
                      | None => false
                      end) table.

Definition plain_hash (content : string) : string := content.
Definition no_timestamp (timestamps : list value) : value := VNull.
Definition no_duration (started ended : value) : value := VNull.
Definition rows_in_order (rows : list entry_row) : list entry_row := rows.

Definition line_of (v : value) : string := Extractor.serialized v.

(** The file at [path] holding the given lines, each ended by a line feed. *)
Definition file_with (path : string) (lines : list string) : filesystem :=
  fun p => if String.eqb p path
           then Some (fold_right (fun l rest => l ++ nl ++ rest) "" lines)
           else None.

Definition no_files : filesystem := fun _ => None.

Definition assistant_line (blocks : list value) : value :=
  VObj [("type", VStr "assistant");
        ("message", VObj [("role", VStr "assistant"); ("content", VArr blocks)])].

Definition user_line (blocks : list value) : value :=
  VObj [("type", VStr "user");
        ("message", VObj [("role", VStr "user"); ("content", VArr blocks)])].

Definition tool_use (id name : string) (input : value) : value :=
  VObj [("type", VStr "tool_use"); ("id", VStr id); ("name", VStr name);
        ("input", input)].

(** Invocation [t1] of [Read]. *)
Definition read_t1 : value :=
  assistant_line [tool_use "t1" "Read" (VObj [("file_path", VStr "a.txt")])].

(** Its successful result. *)
Definition result_t1 : value :=
  user_line [VObj [("type", VStr "tool_result"); ("tool_use_id", VStr "t1");
                   ("content", VStr "hello")]].

(** A result of [t1] with an empty payload and no error flag. *)
Definition empty_result_t1 : value :=
  user_line [VObj [("type", VStr "tool_result"); ("tool_use_id", VStr "t1");
                   ("content", VStr "")]].

(** A failed result of [t1] with an empty payload. *)
Definition empty_error_t1 : value :=
  user_line [VObj [("type", VStr "tool_result"); ("tool_use_id", VStr "t1");
                   ("content", VStr ""); ("is_error", VBool true)]].

(** A user message with a plain text. *)
Definition ask_to_read : value :=
  VObj [("type", VStr "user");
        ("message", VObj [("role", VStr "user");
                          ("content", VStr "please read the file a.txt")])].

(** A user line whose message names a role outside the four. *)
Definition function_role_line : value :=
  VObj [("type", VStr "user");
        ("message", VObj [("role", VStr "function"); ("content", VStr "hi")])].

(** An assistant message with a fenced block tagged [python]. *)
Definition code_message : value :=
  assistant_line
    [VObj [("type", VStr "text");
           ("text", VStr ("Here:" ++ nl ++ "```python" ++ nl ++ "print(1)"
                            ++ nl ++ "```"))]].

Definition all_lines : list value :=
  [read_t1; result_t1; empty_result_t1; empty_error_t1; ask_to_read;
   function_role_line; code_message].

Definition decode : string -> option value := decode_table all_lines.

(** Scenario A: an invocation followed by its successful result. *)
Definition scenario_a : filesystem :=
  file_with "a.jsonl" [line_of read_t1; line_of result_t1].

Definition empty_payload : filesystem :=
  file_with "e.jsonl" [line_of read_t1; line_of empty_result_t1].


Definition asked_then_read : filesystem :=
  file_with "p.jsonl" [line_of ask_to_read; line_of read_t1].


(** Scenario B: assistant text with a fenced block. *)
Definition scenario_b : filesystem :=
  file_with "b.jsonl" [line_of code_message].

(** Scenario C: a plain-text transcript of two turns. *)
Definition scenario_c : filesystem :=
  file_with "c.txt" ["Human: hi there"; "Assistant: hello"].

(** Scenario D: a line that does not decode, between two that do. *)
Definition scenario_d : filesystem :=
  file_with "d.jsonl" [line_of ask_to_read; "{not json"; line_of read_t1].

(** The same line twice. *)
Definition repeated_line : filesystem :=
  file_with "twice.jsonl" [line_of ask_to_read; line_of ask_to_read].

Definition extract (fs : filesystem) (path : string) (conv : nat)
  : SE store Extractor.extract_result :=
  Extractor.processJSONLFile decode plain_hash fs path conv.

Definition parse (fs : filesystem) (path : string) : SE store Parser.parse_result :=
  Parser.processFile decode plain_hash no_timestamp no_timestamp no_duration
                     fs path VNull.

End Scenarios.

(** * Properties *)

(** ** The embedding on the scenarios of the specification *)

Example scenario_b_code_block :
  let run := Scenarios.extract Scenarios.scenario_b "b.jsonl" 1 empty_store in
  fst run = Ok (Extractor.ExtractDone
                  {| Extractor.codeBlocks := 1; Extractor.toolCalls := 0;
                     Extractor.toolResults := 0; Extractor.jsonObjects := 0;
                     Extractor.skipped := 0 |})
  /\ map (fun row => (a_artifact_type row, a_language row, a_content row))
         (artifacts (snd run))
     = [("code_block", Some "python", Some "print(1)")].
Proof. cbn zeta. split; vm_compute; reflexivity. Qed.

Example scenario_c_two_turns :
  let run := Scenarios.parse Scenarios.scenario_c "c.txt" empty_store in
  fst run = Ok (Parser.ParseDone 1 (VStr "txt-c") 2 0 None)
  /\ map (fun row => (e_entry_index row, e_role row, e_content row))
         (entries (snd run))
     = [(0, VStr "user", "hi there"); (1, VStr "assistant", "hello")]
  /\ fst (Scenarios.parse Scenarios.scenario_c "c.txt" (snd run))
     = Ok Parser.ParseUnchanged.
Proof. cbn zeta. repeat split; vm_compute; reflexivity. Qed.

Example reparse_unchanged_event_log :
  let run := Scenarios.parse Scenarios.scenario_d "d.jsonl" empty_store in
  fst (Scenarios.parse Scenarios.scenario_d "d.jsonl" (snd run))
  = Ok Parser.ParseUnchanged.
Proof. vm_compute. reflexivity. Qed.

(** ** Reasoning about the state-and-exception monad *)

Lemma bind_ok {S A B} (m : SE S A) (f : A -> SE S B) s a s' :
  m s = (Ok a, s') -> bind m f s = f a s'.
Proof. intros H. unfold bind. now rewrite H. Qed.

Lemma bind_throw {S A B} (m : SE S A) (f : A -> SE S B) s s' :
  m s = (Throw, s') -> bind m f s = (Throw, s').
Proof. intros H. unfold bind. now rewrite H. Qed.

(** ** Strings *)

Lemma append_cons c s t : (String c s ++ t) = String c (s ++ t).
Proof. reflexivity. Qed.

Lemma append_nil_l s : ("" ++ s) = s.
Proof. reflexivity. Qed.

Lemma append_nil_r s : (s ++ "") = s.
Proof. induction s as [|c s IH]; [reflexivity|]. now rewrite append_cons, IH. Qed.

Lemma append_assoc s t u : ((s ++ t) ++ u) = (s ++ (t ++ u)).
Proof.
  induction s as [|c s IH]; [reflexivity|]. now rewrite !append_cons, IH.
Qed.

Lemma length_append s t :
  String.length (s ++ t) = String.length s + String.length t.
Proof.
  induction s as [|c s IH]; [reflexivity|].
  rewrite append_cons. cbn. now rewrite IH.
Qed.

Lemma str_empty_true s : str_empty s = true <-> s = "".
Proof. destruct s; cbn; split; congruence. Qed.

Lemma str_empty_length s : str_empty s = Nat.eqb (String.length s) 0.
Proof. now destruct s. Qed.

Lemma str_rev_onto_app s acc : str_rev_onto s acc = (str_rev s ++ acc).
Proof.
  unfold str_rev. revert acc.
  induction s as [|c s IH]; intros acc; cbn; [reflexivity|].
  rewrite IH, (IH (String c "")), append_assoc. reflexivity.
Qed.

Lemma str_rev_cons c s : str_rev (String c s) = (str_rev s ++ String c "").
Proof. unfold str_rev at 1. cbn. apply str_rev_onto_app. Qed.


Lemma str_take_all n s : String.length s <= n -> str_take n s = s.
Proof.
  revert s. induction n as [|n IH]; intros [|c s]; cbn; intros H;
    try reflexivity; try lia.
  f_equal. apply IH. lia.
Qed.

(** ** Rows that extraction appends *)

Section Grows.

(** [grows P Q m]: running [m] only appends artifact rows, each of which
    satisfies [P], touches no other table, and a value it returns satisfies
    [Q]. *)
Definition grows_at {A} (P : artifact_row -> Prop) (Q : A -> Prop)
    (m : SE store A) (st : store) : Prop :=
  (exists rows, artifacts (snd (m st)) = (artifacts st ++ rows)%list /\ Forall P rows)
  /\ parse_states (snd (m st)) = parse_states st
  /\ conversations (snd (m st)) = conversations st
  /\ entries (snd (m st)) = entries st
  /\ match fst (m st) with Ok a => Q a | Throw => True end.

Definition grows {A} (P : artifact_row -> Prop) (Q : A -> Prop)
    (m : SE store A) : Prop :=
  forall st, grows_at P Q m st.

Lemma grows_at_bind_get {A} P (Q : A -> Prop) (f : store -> SE store A) st :
  grows_at P Q (f st) st -> grows_at P Q (bind get f) st.
Proof. exact (fun H => H). Qed.

Lemma grows_ret {A} P (Q : A -> Prop) a : Q a -> grows P Q (ret a).
Proof.
  intros HQ st. unfold grows_at. cbn. repeat split; auto.
  exists []. rewrite app_nil_r. auto.
Qed.

Lemma grows_lift {A} P (Q : A -> Prop) (r : res A) :
  (forall a, r = Ok a -> Q a) -> grows P Q (lift r).
Proof.
  intros HQ st. unfold grows_at. cbn. repeat split; auto.
  - exists []. rewrite app_nil_r. auto.
  - destruct r; auto.
Qed.

Lemma grows_bind {A B} P (Q : A -> Prop) (R : B -> Prop) m (f : A -> SE store B) :
  grows P Q m -> (forall a, Q a -> grows P R (f a)) -> grows P R (bind m f).
Proof.
  intros Hm Hf st. specialize (Hm st). unfold grows_at, bind in *.
  destruct (m st) as [[a|] st1]; cbn in Hm |- *.
  - destruct Hm as ((rows1 & E1 & F1) & Hp & Hc & He & HQ).
    specialize (Hf a HQ st1). unfold grows_at in Hf.
    destruct Hf as ((rows2 & E2 & F2) & Hp2 & Hc2 & He2 & HR).
    repeat split; try congruence.
    exists (rows1 ++ rows2)%list. split.
    + rewrite E2, E1. now rewrite app_assoc.
    + apply Forall_app; auto.
  - destruct Hm as (Hrows & Hp & Hc & He & _). repeat split; auto.
Qed.

Lemma grows_weaken {A} P (Q Q' : A -> Prop) m :
  grows P Q m -> (forall a, Q a -> Q' a) -> grows P Q' m.
Proof.
  intros Hm HQ st. destruct (Hm st) as (Hr & Hp & Hc & He & Hq).
  repeat split; auto. destruct (fst (m st)); auto.
Qed.

Lemma grows_impl {A} (P P' : artifact_row -> Prop) (Q : A -> Prop) m :
  grows P Q m -> (forall row, P row -> P' row) -> grows P' Q m.
Proof.
  intros Hm HP st. destruct (Hm st) as ((rows & E & F) & Hrest).
  split; [|exact Hrest]. exists rows. split; [exact E|].
  eapply Forall_impl; eauto.
Qed.

Lemma grows_if {A} P (Q : A -> Prop) (b : bool) m1 m2 :
  grows P Q m1 -> grows P Q m2 -> grows P Q (if b then m1 else m2).
Proof. destruct b; auto. Qed.

Lemma grows_artifactExists P conv h :
  grows P (fun _ => True) (Extractor.artifactExists conv h).
Proof.
  intros st. unfold grows_at. cbn. repeat split; auto.
  exists []. rewrite app_nil_r. auto.
Qed.

Lemma grows_storeArtifact P a :
  P (Extractor.artifact_to_row a) ->
  grows P (fun _ => True) (Extractor.storeArtifact a).
Proof.
  intros HP st. unfold grows_at. cbn. repeat split; auto.
  exists [Extractor.artifact_to_row a]. auto.
Qed.

End Grows.


(** ** C10: no [json_object] artifact is ever created *)

Section NoJsonObjects.

Variable JSON_parse : string -> option value.
Variable sha256 : string -> string.
Variable order_by_entry_index : list entry_row -> list entry_row.

(** The types of the artifacts the two extraction paths store. *)
Definition stored_type (row : artifact_row) : Prop :=
  a_artifact_type row = "tool_call" \/ a_artifact_type row = "tool_result"
  \/ a_artifact_type row = "code_block".

Definition same_jsonObjects (r r' : Extractor.extract_counts) : Prop :=
  Extractor.jsonObjects r' = Extractor.jsonObjects r.

Lemma process_tool_call_types entries conv toolId call r :
  grows stored_type (same_jsonObjects r)
        (Extractor.process_tool_call sha256 entries conv toolId call r).
Proof.
  unfold Extractor.process_tool_call.
  eapply grows_bind; [apply grows_artifactExists|]. intros present _.
  destruct present; [apply grows_ret; reflexivity|].
  eapply grows_bind; [apply (grows_lift _ (fun _ => True)); auto|]. intros et _.
  eapply grows_bind; [apply (grows_lift _ (fun _ => True)); auto|]. intros ctx _.
  eapply grows_bind;
    [apply grows_storeArtifact; left; reflexivity|]. intros _ _.
  destruct (truthy (Extractor.result call)); [|apply grows_ret; reflexivity].
  eapply grows_bind; [apply grows_artifactExists|]. intros present _.
  destruct present; cbn [negb]; [apply grows_ret; reflexivity|].
  eapply grows_bind; [apply (grows_lift _ (fun _ => True)); auto|]. intros et2 _.
  eapply grows_bind;
    [apply grows_storeArtifact; right; left; reflexivity|]. intros _ _.
  apply grows_ret; reflexivity.
Qed.

Lemma process_tool_calls_types entries conv calls r :
  grows stored_type (same_jsonObjects r)
        (Extractor.process_tool_calls sha256 entries conv calls r).
Proof.
  revert r. induction calls as [|[toolId call] rest IH]; intros r; cbn.
  - apply grows_ret; reflexivity.
  - eapply grows_bind; [apply process_tool_call_types|].
    intros r' Hr'. eapply grows_weaken; [apply IH|].
    intros r'' Hr''. unfold same_jsonObjects in *. congruence.
Qed.

(** The rows of the code-block loops. *)
Definition code_row (row : artifact_row) : Prop :=
  a_artifact_type row = "code_block".

Lemma store_code_blocks_types conv entry_id ctx blocks r :
  grows code_row (same_jsonObjects r)
        (Extractor.store_code_blocks sha256 conv entry_id ctx blocks r).
Proof.
  revert r. induction blocks as [|block rest IH]; intros r; cbn.
  - apply grows_ret; reflexivity.
  - eapply grows_bind; [apply grows_artifactExists|]. intros present _.
    destruct present.
    + eapply grows_weaken; [apply IH|]. intros r'. unfold same_jsonObjects. cbn. auto.
    + eapply grows_bind; [apply (grows_lift _ (fun _ => True)); auto|]. intros c _.
      eapply grows_bind;
        [apply grows_storeArtifact; reflexivity|]. intros _ _.
      eapply grows_weaken; [apply IH|]. intros r'. unfold same_jsonObjects. cbn. auto.
Qed.

Lemma process_entry_types entries conv i entry r :
  grows code_row (same_jsonObjects r)
        (Extractor.process_entry sha256 entries conv i entry r).
Proof.
  unfold Extractor.process_entry.
  destruct (negb (truthy entry)); [apply grows_ret; reflexivity|].
  eapply grows_bind; [apply (grows_lift _ (fun _ => True)); auto|]. intros ty _.
  destruct (negb (is_str ty "assistant")); [apply grows_ret; reflexivity|].
  destruct (negb (truthy _)); [apply grows_ret; reflexivity|].
  eapply grows_bind; [apply (grows_lift _ (fun _ => True)); auto|]. intros text _.
  apply store_code_blocks_types.
Qed.

Lemma process_entries_types entries conv i todo r :
  grows code_row (same_jsonObjects r)
        (Extractor.process_entries sha256 entries conv i todo r).
Proof.
  revert i r. induction todo as [|entry rest IH]; intros i r; cbn.
  - apply grows_ret; reflexivity.
  - eapply grows_bind; [apply process_entry_types|].
    intros r' Hr'. eapply grows_weaken; [apply IH|].
    intros r''. unfold same_jsonObjects in *. congruence.
Qed.

Lemma process_rows_types rows conv i todo r :
  grows code_row (same_jsonObjects r)
        (Extractor.process_rows sha256 rows conv i todo r).
Proof.
  revert i r. induction todo as [|entry rest IH]; intros i r; cbn.
  - apply grows_ret; reflexivity.
  - destruct (negb (is_str (e_role entry) "assistant")); [apply IH|].
    eapply grows_bind; [apply store_code_blocks_types|].
    intros r' Hr'. eapply grows_weaken; [apply IH|].
    intros r''. unfold same_jsonObjects in *. congruence.
Qed.

(** What a result reports under [jsonObjects]; a failure reports nothing. *)
Definition reported_jsonObjects (r : Extractor.extract_result) : option nat :=
  match r with
  | Extractor.ExtractFailure _ => None
  | Extractor.ExtractDone c => Some (Extractor.jsonObjects c)
  | Extractor.ExtractEntriesDone _ n _ => Some n
  end.

Definition zero_jsonObjects (r : Extractor.extract_result) : Prop :=
  forall n, reported_jsonObjects r = Some n -> n = 0.

Lemma processJSONLFile_types fs filePath conv :
  grows stored_type zero_jsonObjects
        (Extractor.processJSONLFile JSON_parse sha256 fs filePath conv).
Proof.
  unfold Extractor.processJSONLFile.
  destruct (fs filePath) as [file|].
  - eapply grows_bind; [apply process_tool_calls_types|]. intros r Hr.
    eapply grows_bind;
      [eapply grows_impl; [apply process_entries_types|]; intros row H; right; right; exact H|].
    intros r' Hr'.
    apply grows_ret. intros n. cbn. intros [= <-].
    unfold same_jsonObjects in *. rewrite Hr', Hr. reflexivity.
  - apply grows_ret. intros n. discriminate.
Qed.

Lemma processConversationEntries_types fs conv :
  grows stored_type zero_jsonObjects
        (Extractor.processConversationEntries JSON_parse sha256
           order_by_entry_index fs conv).
Proof.
  intros st. unfold Extractor.processConversationEntries.
  apply grows_at_bind_get.
  destruct (List.find _ (conversations st)) as [conversation|].
  - destruct (_ && _).
    + apply processJSONLFile_types.
    + apply (grows_bind stored_type (same_jsonObjects Extractor.no_counts)).
      * eapply grows_impl; [apply process_rows_types|].
        intros row H; right; right; exact H.
      * intros r Hr. apply grows_ret. intros n. cbn. intros [= <-].
        exact Hr.
  - apply grows_ret. intros n. discriminate.
Qed.

(** A text that opens with a brace and closes with one. *)
Definition brace_delimited (text : string) : Prop :=
  exists body, text = String "{"%char (body ++ "}").

Lemma json_scan_items s idx open item :
  match open with
  | Some (_, acc) => exists body, str_rev acc = String "{"%char body
  | None => True
  end ->
  In item (Extractor.json_scan JSON_parse s idx open) ->
  brace_delimited (Extractor.jo_content item)
  /\ JSON_parse (Extractor.jo_content item) = Some (Extractor.jo_parsed item)
  /\ Extractor.meaningful (Extractor.jo_parsed item) = true.
Proof.
  revert idx open. induction s as [|c s IH]; intros idx open Hopen Hin;
    [destruct open as [[? ?]|]; contradiction|].
  destruct open as [[start acc]|]; cbn [Extractor.json_scan] in Hin.
  - destruct Hopen as [body Hbody].
    destruct (Ascii.eqb_spec c "}"%char) as [->|Hc].
    + assert (Htext : str_rev (String "}"%char acc) = String "{"%char (body ++ "}"))
        by (now rewrite str_rev_cons, Hbody).
      destruct (JSON_parse (str_rev (String "}"%char acc))) as [parsed|] eqn:Hp;
        [destruct (Extractor.meaningful parsed) eqn:Hm|].
      * destruct Hin as [<-|Hin]; [|exact (IH _ None I Hin)].
        cbn [Extractor.jo_content Extractor.jo_parsed].
        repeat split; auto. now exists body.
      * exact (IH _ None I Hin).
      * exact (IH _ None I Hin).
    + refine (IH _ (Some (_, _)) _ Hin).
      exists (body ++ String c ""). now rewrite str_rev_cons, Hbody.
  - destruct (Ascii.eqb c "{"%char) eqn:Hc.
    + refine (IH _ (Some (_, _)) _ Hin).
      apply Ascii.eqb_eq in Hc. subst c. now exists "".
    + exact (IH _ None I Hin).
Qed.

(** C10. Neither extraction path creates an artifact of type [json_object]:
    every row either of them appends is a [tool_call], a [tool_result] or a
    [code_block]; the [jsonObjects] count of a successful run is zero; and
    the scanner [extractJsonObjects], which no path calls, returns only
    brace-delimited substrings that decode to a non-empty object or array. *)
Theorem no_json_object_artifacts (fs : filesystem) (filePath : string)
    (conv : nat) (st : store) :
  let from_file := Extractor.processJSONLFile JSON_parse sha256 fs filePath conv st in
  let from_rows :=
    Extractor.processConversationEntries JSON_parse sha256
      order_by_entry_index fs conv st in
  (exists rows,
      artifacts (snd from_file) = (artifacts st ++ rows)%list
      /\ Forall (fun row => a_artifact_type row <> "json_object") rows)
  /\ (forall r, fst from_file = Ok r -> reported_jsonObjects r <> None ->
                reported_jsonObjects r = Some 0)
  /\ (exists rows,
         artifacts (snd from_rows) = (artifacts st ++ rows)%list
         /\ Forall (fun row => a_artifact_type row <> "json_object") rows)
  /\ (forall r, fst from_rows = Ok r -> reported_jsonObjects r <> None ->
                reported_jsonObjects r = Some 0)
  /\ (forall text item,
         In item (Extractor.extractJsonObjects JSON_parse text) ->
         brace_delimited (Extractor.jo_content item)
         /\ JSON_parse (Extractor.jo_content item) = Some (Extractor.jo_parsed item)
         /\ Extractor.meaningful (Extractor.jo_parsed item) = true).
Proof.
  intros from_file from_rows.
  assert (Hty : forall rows, Forall stored_type rows ->
                  Forall (fun row => a_artifact_type row <> "json_object") rows).
  { intros rows Hrows. eapply Forall_impl; [exact Hrows|].
    intros row [H|[H|H]]; rewrite H; discriminate. }
  assert (Hzero : forall r, zero_jsonObjects r -> reported_jsonObjects r <> None ->
                    reported_jsonObjects r = Some 0).
  { intros r Hr Hn. destruct (reported_jsonObjects r) as [n|] eqn:E; [|congruence].
    now rewrite (Hr n E). }
  destruct (processJSONLFile_types fs filePath conv st)
    as ((rows1 & E1 & F1) & _ & _ & _ & Q1).
  destruct (processConversationEntries_types fs conv st)
    as ((rows2 & E2 & F2) & _ & _ & _ & Q2).
  fold from_file in E1, Q1. fold from_rows in E2, Q2.
  split; [exists rows1; auto|].
  split; [intros r Hr; rewrite Hr in Q1; auto|].
  split; [exists rows2; auto|].
  split; [intros r Hr; rewrite Hr in Q2; auto|].
  intros text item. apply json_scan_items. exact I.
Qed.

End NoJsonObjects.

(** ** C6: the error classifier follows its rule table in order *)

Module ClassifierSpec.

(** The ordered rule table as the specification words it: the phrases of a
    category, and the category. *)
Definition error_rules : list (list string * string) :=
  [ (["permission denied"; "access denied"], "permission");
    (["not found"; "no such file"], "not_found");
    (["timeout"; "timed out"], "timeout");
    (["connection"; "network"], "network");
    (["syntax error"; "parse error"], "syntax");
    (["validation"; "invalid"], "validation") ].

Definition rule_matches (text : string) (rule : list string * string) : bool :=
  existsb (includes text) (fst rule).

Fixpoint first_match (text : string) (rules : list (list string * string))
  : string :=
  match rules with
  | [] => "unknown"
  | rule :: rest =>
      if rule_matches text rule then snd rule else first_match text rest
  end.

End ClassifierSpec.

Lemma first_match_earliest text pre rule post :
  forallb (fun r => negb (ClassifierSpec.rule_matches text r)) pre = true ->
  ClassifierSpec.rule_matches text rule = true ->
  ClassifierSpec.first_match text (pre ++ rule :: post) = snd rule.
Proof.
  induction pre as [|r pre IH]; cbn; intros Hpre Hrule.
  - now rewrite Hrule.
  - apply andb_true_iff in Hpre as [Hr Hpre].
    apply negb_true_iff in Hr. rewrite Hr. auto.
Qed.

Lemma first_match_none text rules :
  forallb (fun r => negb (ClassifierSpec.rule_matches text r)) rules = true ->
  ClassifierSpec.first_match text rules = "unknown".
Proof.
  induction rules as [|r rules IH]; cbn; intros H; [reflexivity|].
  apply andb_true_iff in H as [Hr H]. apply negb_true_iff in Hr.
  rewrite Hr. auto.
Qed.

Example classify_permission_first :
  Extractor.classifyError (VStr "Error: File Not Found; ")
                          (VStr "Access Denied, connection timed out")
  = Ok "permission".
Proof. vm_compute. reflexivity. Qed.

Example classify_unknown :
  Extractor.classifyError (VStr "exit status 1") VUndef = Ok "unknown".
Proof. vm_compute. reflexivity. Qed.

(** C6. On an output text and an error-message text, [classifyError] returns
    the category of the first rule of the table, in the order permission,
    not_found, timeout, network, syntax, validation, one of whose phrases
    occurs in the lower-cased concatenation, and [unknown] when no rule
    matches: a rule wins over every later one, whatever else the text
    contains. *)
Theorem classifyError_first_match (output errorMessage : string) :
  let text := toLowerCase (output ++ errorMessage) in
  Extractor.classifyError (VStr output) (VStr errorMessage)
    = Ok (ClassifierSpec.first_match text ClassifierSpec.error_rules)
  /\ map snd ClassifierSpec.error_rules
       = ["permission"; "not_found"; "timeout"; "network"; "syntax"; "validation"]
  /\ (forall pre rule post,
        ClassifierSpec.error_rules = (pre ++ rule :: post)%list ->
        forallb (fun r => negb (ClassifierSpec.rule_matches text r)) pre = true ->
        ClassifierSpec.rule_matches text rule = true ->
        Extractor.classifyError (VStr output) (VStr errorMessage) = Ok (snd rule))
  /\ (forallb (fun r => negb (ClassifierSpec.rule_matches text r))
              ClassifierSpec.error_rules = true ->
      Extractor.classifyError (VStr output) (VStr errorMessage) = Ok "unknown").
Proof.
  intros text.
  assert (E : Extractor.classifyError (VStr output) (VStr errorMessage)
              = Ok (ClassifierSpec.first_match text ClassifierSpec.error_rules)).
  { unfold Extractor.classifyError, Extractor.concat_text, js_or.
    assert (Hcat : (to_string (if truthy (VStr output) then VStr output else VStr "")
                    ++ to_string (if truthy (VStr errorMessage)
                                  then VStr errorMessage else VStr ""))
                   = (output ++ errorMessage)).
    { destruct output, errorMessage; reflexivity. }
    replace (match (if truthy (VStr output) then VStr output else VStr "") with
             | VStr _ | VArr _ | VObj _ => true | _ => false end) with true
      by (now destruct (truthy (VStr output))).
    cbn [orb res_bind]. rewrite Hcat. fold text.
    unfold ClassifierSpec.error_rules, ClassifierSpec.first_match,
      ClassifierSpec.rule_matches.
    cbn [fst snd existsb]. rewrite !orb_false_r.
    repeat match goal with |- context [if ?b then _ else _] => destruct b end;
      reflexivity. }
  split; [exact E|]. split; [reflexivity|]. split.
  - intros pre rule post Hrules Hpre Hrule. rewrite E, Hrules.
    f_equal. now apply first_match_earliest.
  - intros Hnone. rewrite E. f_equal. now apply first_match_none.
Qed.

(** ** Two-state invariants of store computations *)

Section Hoare.

Variable R : store -> store -> Prop.
Hypothesis R_refl : forall st, R st st.
Hypothesis R_trans : forall a b c, R a b -> R b c -> R a c.

(** [hoare Q m]: running [m] takes a store to an [R]-related one, whether it
    returns or raises, and a value it returns satisfies [Q]. *)
Definition hoare {A} (Q : A -> Prop) (m : SE store A) : Prop :=
  forall st,
    R st (snd (m st)) /\ match fst (m st) with Ok a => Q a | Throw => True end.

Lemma hoare_ret {A} (Q : A -> Prop) a : Q a -> hoare Q (ret a).
Proof. intros HQ st. cbn. auto. Qed.

Lemma hoare_lift {A} (Q : A -> Prop) (r : res A) :
  (forall a, r = Ok a -> Q a) -> hoare Q (lift r).
Proof. intros HQ st. cbn. split; auto. destruct r; auto. Qed.

Lemma hoare_bind {A B} (Q : A -> Prop) (Q' : B -> Prop) m (f : A -> SE store B) :
  hoare Q m -> (forall a, Q a -> hoare Q' (f a)) -> hoare Q' (bind m f).
Proof.
  intros Hm Hf st. specialize (Hm st). unfold bind.
  destruct (m st) as [[a|] st1]; cbn in Hm |- *.
  - destruct Hm as [HR HQ]. destruct (Hf a HQ st1) as [HR' HQ'].
    split; [eapply R_trans; eauto|exact HQ'].
  - destruct Hm as [HR _]. auto.
Qed.

Lemma hoare_weaken {A} (Q Q' : A -> Prop) m :
  hoare Q m -> (forall a, Q a -> Q' a) -> hoare Q' m.
Proof.
  intros Hm HQ st. destruct (Hm st) as [HR Hq]. split; auto.
  destruct (fst (m st)); auto.
Qed.

Lemma hoare_try_or {A} (Q : A -> Prop) m dflt :
  hoare Q m -> Q dflt -> hoare Q (try_or m dflt).
Proof.
  intros Hm Hd st. specialize (Hm st). unfold try_or.
  destruct (m st) as [[a|] st1]; cbn in Hm |- *; tauto.
Qed.

End Hoare.

(** [returns m]: [m] never raises. *)
Definition returns {S A} (m : SE S A) : Prop :=
  forall s, exists a, fst (m s) = Ok a.

Lemma returns_ret {S A} (a : A) : returns (ret (S:=S) a).
Proof. intros s. now exists a. Qed.

Lemma returns_bind {S A B} (m : SE S A) (f : A -> SE S B) :
  returns m -> (forall a, returns (f a)) -> returns (bind m f).
Proof.
  intros Hm Hf s. unfold bind. destruct (Hm s) as [a Ha].
  destruct (m s) as [r s1]. cbn in Ha. subst r. apply Hf.
Qed.

Lemma returns_try_or {S A} (m : SE S A) dflt : returns (try_or m dflt).
Proof.
  intros s. unfold try_or. destruct (m s) as [[a|] s1]; cbn; eauto.
Qed.

Lemma returns_if {S A} (b : bool) (m1 m2 : SE S A) :
  returns m1 -> returns m2 -> returns (if b then m1 else m2).
Proof. now destruct b. Qed.

(** ** The parser's effect on the tables *)

Section ParserFacts.

Variable JSON_parse : string -> option value.
Variable sha256 : string -> string.
Variable sql_min sql_max : list value -> value.
Variable date_diff_seconds : value -> value -> value.

#[local] Abbreviation parseJSONL :=
  (Parser.parseJSONL JSON_parse sha256 sql_min sql_max date_diff_seconds).
#[local] Abbreviation parseTXT :=
  (Parser.parseTXT sha256 sql_min sql_max date_diff_seconds).
#[local] Abbreviation processFile :=
  (Parser.processFile JSON_parse sha256 sql_min sql_max date_diff_seconds).
#[local] Abbreviation parse_line := (Parser.parse_line JSON_parse sha256).
#[local] Abbreviation parse_lines := (Parser.parse_lines JSON_parse sha256).

(** The store relations the parser's operations respect. *)
Definition same_parse_states (st st' : store) : Prop :=
  parse_states st' = parse_states st.

Definition same_entries (st st' : store) : Prop :=
  entries st' = entries st.

Lemma findOrCreateConversation_returns sessionId filePath fileType metadata :
  returns (Parser.findOrCreateConversation sessionId filePath fileType metadata).
Proof.
  intros st. unfold Parser.findOrCreateConversation.
  destruct (Parser.find_conversation sessionId st); cbn; eauto.
Qed.

Lemma findOrCreateConversation_tables sessionId filePath fileType metadata st :
  let st' := snd (Parser.findOrCreateConversation sessionId filePath fileType
                    metadata st) in
  parse_states st' = parse_states st /\ entries st' = entries st
  /\ artifacts st' = artifacts st.
Proof.
  unfold Parser.findOrCreateConversation.
  destruct (Parser.find_conversation sessionId st); cbn; auto.
Qed.

Lemma insertEntry_tables conv h idx role text ts st :
  let st' := snd (Parser.insertEntry conv h idx role text ts st) in
  parse_states st' = parse_states st /\ conversations st' = conversations st
  /\ artifacts st' = artifacts st.
Proof.
  unfold Parser.insertEntry.
  destruct (is_nullish role); [cbn; auto|].
  destruct (Parser.entry_exists conv h st); cbn; auto.
Qed.

Lemma parse_line_returns conv line acc : returns (parse_line conv line acc).
Proof. apply returns_try_or. Qed.

Lemma parse_lines_returns conv lines acc : returns (parse_lines conv lines acc).
Proof.
  revert acc. induction lines as [|line rest IH]; intros acc; cbn.
  - apply returns_ret.
  - apply returns_bind; [apply parse_line_returns|]. intros acc'. apply IH.
Qed.

Lemma txt_block_returns conv raw acc :
  returns (Parser.txt_block sha256 conv raw acc).
Proof.
  unfold Parser.txt_block.
  repeat (apply returns_if; [apply returns_ret|]).
  apply returns_bind; [|intros; apply returns_ret].
  intros st. unfold Parser.insertEntry. cbn [is_nullish].
  destruct (Parser.entry_exists _ _ st); cbn; eauto.
Qed.

Lemma txt_blocks_returns conv blocks acc :
  returns (Parser.txt_blocks sha256 conv blocks acc).
Proof.
  revert acc. induction blocks as [|raw rest IH]; intros acc; cbn.
  - apply returns_ret.
  - apply returns_bind; [apply txt_block_returns|]. intros acc'. apply IH.
Qed.

(** *** Generic preservation *)

Section Preserved.

Variable R : store -> store -> Prop.
Hypothesis R_refl : forall st, R st st.
Hypothesis R_trans : forall a b c, R a b -> R b c -> R a c.
(** [R] does not look at the conversations. *)
Hypothesis R_conversations :
  forall st st',
    parse_states st' = parse_states st -> entries st' = entries st ->
    artifacts st' = artifacts st -> R st st'.

Lemma hoare_findOrCreateConversation sessionId filePath fileType metadata :
  hoare R (fun _ => True)
        (Parser.findOrCreateConversation sessionId filePath fileType metadata).
Proof.
  intros st. split.
  - apply R_conversations; apply findOrCreateConversation_tables.
  - now destruct (fst _).
Qed.

Lemma hoare_set_project projectId conv :
  hoare R (fun _ => True) (Parser.set_project projectId conv).
Proof. intros st. split; [now apply R_conversations|exact I]. Qed.

Lemma hoare_updateParseState filePath n h :
  (forall st, R st (snd (Parser.updateParseState filePath n h st))) ->
  hoare R (fun _ => True) (Parser.updateParseState filePath n h).
Proof. intros H st. split; [apply H|exact I]. Qed.

Lemma hoare_updateConversationStats conv :
  hoare R (fun _ => True)
        (Parser.updateConversationStats sql_min sql_max date_diff_seconds conv).
Proof. intros st. split; [now apply R_conversations|exact I]. Qed.

Lemma hoare_getParseState filePath :
  hoare R (fun _ => True) (Parser.getParseState filePath).
Proof. intros st. split; [apply R_refl|exact I]. Qed.

Section Lines.

Variable conv : nat.
(** The lines the loop may meet. *)
Variable good : string -> Prop.
Hypothesis R_insert :
  forall line entry type role text idx ts,
    good line ->
    JSON_parse line = Some entry ->
    prop entry "type" = Ok type ->
    Parser.is_message_type type = true ->
    Parser.extractRole entry = Ok role ->
    hoare R (fun _ => True)
          (Parser.insertEntry conv (Parser.hashContent sha256 line) idx role
                              text ts).

Lemma hoare_parse_line line acc :
  good line -> hoare R (fun _ => True) (parse_line conv line acc).
Proof.
  intros Hgood. apply hoare_try_or; [|exact I].
  unfold Parser.parse_line_body.
  destruct (JSON_parse line) as [entry|] eqn:Hparse;
    [|apply hoare_lift; auto].
  eapply hoare_bind with (Q := fun type => prop entry "type" = Ok type);
    auto; [apply hoare_lift; auto|]. intros type Htype.
  destruct (Parser.is_message_type type) eqn:Hmsg; cbn [negb];
    [|apply hoare_ret; auto].
  eapply hoare_bind with (Q := fun role => Parser.extractRole entry = Ok role);
    auto; [apply hoare_lift; auto|]. intros role Hrole.
  eapply hoare_bind with (Q := fun _ => True);
    auto; [apply hoare_lift; auto|]. intros [text|] _; [|apply hoare_ret; auto].
  destruct (str_empty text); [apply hoare_ret; auto|].
  eapply hoare_bind with (Q := fun _ => True);
    auto; [apply hoare_lift; auto|]. intros ts _.
  eapply hoare_bind with (Q := fun _ => True); auto.
  - eapply R_insert; eauto.
  - intros inserted _. apply hoare_ret; auto.
Qed.

Lemma hoare_parse_lines lines acc :
  Forall good lines -> hoare R (fun _ => True) (parse_lines conv lines acc).
Proof.
  revert acc. induction lines as [|line rest IH]; intros acc Hgood; cbn.
  - apply hoare_ret; auto.
  - inversion Hgood; subst.
    eapply hoare_bind with (Q := fun _ => True); auto.
    apply hoare_parse_line; auto.
Qed.

End Lines.

Lemma In_drop {A} (x : A) n l : In x (drop n l) -> In x l.
Proof.
  revert l. induction n as [|n IH]; intros [|y l]; cbn; auto.
Qed.

Lemma hoare_parseJSONL fs filePath projectId :
  (forall n h st, R st (snd (Parser.updateParseState filePath n h st))) ->
  (forall content conv line entry type role text idx ts,
      fs filePath = Some content ->
      In line (nonblank_lines content) ->
      JSON_parse line = Some entry ->
      prop entry "type" = Ok type ->
      Parser.is_message_type type = true ->
      Parser.extractRole entry = Ok role ->
      hoare R (fun _ => True)
            (Parser.insertEntry conv (Parser.hashContent sha256 line) idx role
                                text ts)) ->
  hoare R (fun _ => True) (parseJSONL fs filePath projectId).
Proof.
  intros Hupd Hins. unfold Parser.parseJSONL.
  destruct (fs filePath) as [content|] eqn:Hfs; [|apply hoare_ret; auto].
  eapply hoare_bind; auto; [apply hoare_getParseState|]. intros parseState _.
  destruct (_ <=? _)%nat; [apply hoare_ret; auto|].
  eapply hoare_bind; auto; [apply hoare_findOrCreateConversation|].
  intros conversation _.
  eapply hoare_bind with (Q := fun _ => True); auto.
  { destruct (_ && _); [apply hoare_set_project|apply hoare_ret; auto]. }
  intros _ _.
  eapply hoare_bind with (Q := fun _ => True); auto.
  { apply hoare_parse_lines
      with (good := fun line => In line (nonblank_lines content)).
    - intros. eapply Hins; eauto.
    - apply Forall_forall. intros line Hin.
      apply list_elem_of_In in Hin. eapply In_drop; eauto. }
  intros acc _.
  eapply hoare_bind with (Q := fun _ => True); auto.
  { destruct (_ || _); [|apply hoare_ret; auto].
    eapply hoare_bind; auto; [apply hoare_updateParseState; auto|].
    intros. apply hoare_updateConversationStats. }
  intros. apply hoare_ret; auto.
Qed.

Section Blocks.

Hypothesis R_insert :
  forall conv h idx role text ts,
    hoare R (fun _ => True) (Parser.insertEntry conv h idx role text ts).

Lemma hoare_txt_blocks conv blocks acc :
  hoare R (fun _ => True) (Parser.txt_blocks sha256 conv blocks acc).
Proof.
  revert acc. induction blocks as [|raw rest IH]; intros acc; cbn.
  - apply hoare_ret; auto.
  - eapply hoare_bind with (Q := fun _ => True); auto.
    unfold Parser.txt_block.
    repeat match goal with
           | |- hoare _ _ (if ?b then _ else _) =>
               destruct b; [apply hoare_ret; auto|]
           end.
    eapply hoare_bind with (Q := fun _ => True); auto.
    intros. apply hoare_ret; auto.
Qed.

Lemma hoare_parseTXT fs filePath projectId :
  (forall n h st, R st (snd (Parser.updateParseState filePath n h st))) ->
  hoare R (fun _ => True) (parseTXT fs filePath projectId).
Proof.
  intros Hupd. unfold Parser.parseTXT.
  destruct (fs filePath) as [content|] eqn:Hfs; [|apply hoare_ret; auto].
  eapply hoare_bind; auto; [apply hoare_getParseState|]. intros parseState _.
  match goal with
  | |- hoare _ _ (if ?b then _ else _) => destruct b; [apply hoare_ret; auto|]
  end.
  eapply hoare_bind; auto; [apply hoare_findOrCreateConversation|].
  intros conversation _.
  eapply hoare_bind with (Q := fun _ => True); auto.
  { destruct (_ && _); [apply hoare_set_project|apply hoare_ret; auto]. }
  intros _ _.
  eapply hoare_bind with (Q := fun _ => True); auto;
    [apply hoare_txt_blocks|]. intros acc _.
  eapply hoare_bind; auto; [apply hoare_updateParseState; auto|]. intros _ _.
  eapply hoare_bind; auto; [apply hoare_updateConversationStats|]. intros _ _.
  apply hoare_ret; auto.
Qed.

Lemma hoare_processFile fs filePath projectId :
  (forall n h st, R st (snd (Parser.updateParseState filePath n h st))) ->
  hoare R (fun _ => True) (processFile fs filePath projectId).
Proof.
  intros Hupd. unfold Parser.processFile.
  destruct (String.eqb _ "jsonl");
    [apply hoare_parseJSONL; auto; intros; apply R_insert|].
  destruct (String.eqb _ "txt"); [apply hoare_parseTXT; auto|].
  apply hoare_ret; auto.
Qed.

End Blocks.

End Preserved.

End ParserFacts.

(** ** C3: one entry per conversation and content hash *)

Definition entry_key (e : entry_row) : nat * string :=
  (e_conversation_id e, e_entry_hash e).

Definition entries_unique (st : store) : Prop :=
  NoDup (map entry_key (entries st)).

Lemma entry_exists_spec conv h st :
  Parser.entry_exists conv h st = true <-> In (conv, h) (map entry_key (entries st)).
Proof.
  unfold Parser.entry_exists. rewrite existsb_exists, in_map_iff. split.
  - intros (e & Hin & He). exists e. split; [|exact Hin].
    apply andb_true_iff in He as [Hc Hh].
    apply Nat.eqb_eq in Hc. apply String.eqb_eq in Hh.
    unfold entry_key. congruence.
  - intros (e & He & Hin). exists e. split; [exact Hin|].
    unfold entry_key in He. injection He as <- <-.
    now rewrite Nat.eqb_refl, String.eqb_refl.
Qed.

Lemma insertEntry_unique conv h idx role text ts st :
  entries_unique st ->
  entries_unique (snd (Parser.insertEntry conv h idx role text ts st)).
Proof.
  unfold Parser.insertEntry, entries_unique. intros Huniq.
  destruct (is_nullish role); [exact Huniq|].
  destruct (Parser.entry_exists conv h st) eqn:Hex; [exact Huniq|].
  cbn [snd entries]. rewrite map_app. cbn [map entry_key e_conversation_id e_entry_hash].
  apply NoDup_app. split; [exact Huniq|]. split; [|apply NoDup_singleton].
  intros key Hkey Hnew. apply list_elem_of_In in Hkey.
  apply list_elem_of_singleton in Hnew. subst key.
  apply entry_exists_spec in Hkey. cbn in Hkey. congruence.
Qed.

Lemma insertEntry_duplicate conv h idx role text ts st :
  Parser.entry_exists conv h st = true ->
  Parser.insertEntry conv h idx role text ts st
    = (if is_nullish role then Throw else Ok false, st).
Proof.
  intros Hex. unfold Parser.insertEntry. rewrite Hex. now destruct (is_nullish role).
Qed.

Lemma extractRole_not_nullish entry role :
  Parser.extractRole entry = Ok role -> is_nullish role = false.
Proof.
  unfold Parser.extractRole.
  destruct (prop entry "message") as [message|]; cbn [res_bind]; [|discriminate].
  destruct (truthy (prop_opt message "role")) eqn:Hrole.
  - intros [= <-]. now destruct (prop_opt message "role").
  - destruct (prop entry "type") as [type|]; cbn [res_bind]; [|discriminate].
    repeat match goal with
           | |- context [if ?b then _ else _] => destruct b
           end; now intros [= <-].
Qed.

Lemma prop_defined entry k v k' :
  prop entry k = Ok v -> prop entry k' = Ok (prop_opt entry k').
Proof. destruct entry; cbn; congruence. Qed.

Section Uniqueness.

Variable JSON_parse : string -> option value.
Variable sha256 : string -> string.
Variable sql_min sql_max : list value -> value.
Variable date_diff_seconds : value -> value -> value.
Variable order_by_entry_index : list entry_row -> list entry_row.

(** The stores that parsing and extraction, in any order and on any files,
    lead to from the empty store. *)
Inductive reachable : store -> Prop :=
| reach_empty : reachable empty_store
| reach_parse st fs filePath projectId :
    reachable st ->
    reachable (snd (Parser.processFile JSON_parse sha256 sql_min sql_max
                      date_diff_seconds fs filePath projectId st))
| reach_extract st fs conv :
    reachable st ->
    reachable (snd (Extractor.processConversationEntries JSON_parse sha256
                      order_by_entry_index fs conv st)).

Definition keeps_unique (st st' : store) : Prop :=
  entries_unique st -> entries_unique st'.

Lemma processFile_unique fs filePath projectId st :
  entries_unique st ->
  entries_unique (snd (Parser.processFile JSON_parse sha256 sql_min sql_max
                         date_diff_seconds fs filePath projectId st)).
Proof.
  refine (proj1 (hoare_processFile JSON_parse sha256 sql_min sql_max
                   date_diff_seconds keeps_unique _ _ _ _ fs filePath
                   projectId _ st)).
  - intros s H. exact H.
  - intros a b c Hab Hbc H. auto.
  - intros s s' _ E _. unfold keeps_unique, entries_unique. now rewrite E.
  - intros conv h idx role text ts s. split; [|now destruct (fst _)].
    intros H. now apply insertEntry_unique.
  - intros n h s H. exact H.
Qed.

(** The counters after a line or a block was rejected as a duplicate. *)
Definition skipped_line (lineHash : string) (acc : Parser.parse_acc)
  : Parser.parse_acc :=
  {| Parser.newEntries := Parser.newEntries acc;
     Parser.skipped := S (Parser.skipped acc);
     Parser.entryIndex := S (Parser.entryIndex acc);
     Parser.lastHash := Some lineHash |}.

Definition skipped_block (acc : Parser.txt_acc) : Parser.txt_acc :=
  {| Parser.t_newEntries := Parser.t_newEntries acc;
     Parser.t_skipped := S (Parser.t_skipped acc);
     Parser.t_currentRole := Parser.t_currentRole acc;
     Parser.t_entryIndex := S (Parser.t_entryIndex acc) |}.

Lemma parse_line_duplicate conv line acc entry type role text st :
  JSON_parse line = Some entry ->
  prop entry "type" = Ok type ->
  Parser.is_message_type type = true ->
  Parser.extractRole entry = Ok role ->
  Parser.extractContent entry = Ok (Some text) ->
  str_empty text = false ->
  Parser.entry_exists conv (Parser.hashContent sha256 line) st = true ->
  Parser.parse_line JSON_parse sha256 conv line acc st
    = (Ok (skipped_line (Parser.hashContent sha256 line) acc), st).
Proof.
  intros Hparse Htype Hmsg Hrole Htext Hne Hex.
  unfold Parser.parse_line, try_or, Parser.parse_line_body.
  rewrite Hparse. unfold bind, lift.
  rewrite Htype, Hmsg. cbn [negb]. rewrite Hrole, Htext, Hne.
  rewrite (prop_defined _ _ _ "timestamp" Htype).
  rewrite (insertEntry_duplicate _ _ _ _ _ _ _ Hex).
  rewrite (extractRole_not_nullish _ _ Hrole). reflexivity.
Qed.

Lemma txt_block_duplicate conv raw acc st :
  trim raw <> "Human:" -> trim raw <> ">" -> trim raw <> "Assistant:" ->
  trim raw <> "" ->
  Parser.entry_exists conv (Parser.hashContent sha256 (trim raw)) st = true ->
  Parser.txt_block sha256 conv raw acc st = (Ok (skipped_block acc), st).
Proof.
  intros H1 H2 H3 H4 Hex. unfold Parser.txt_block.
  apply String.eqb_neq in H1, H2, H3. rewrite H1, H2, H3. cbn [orb].
  destruct (str_empty (trim raw)) eqn:He;
    [apply str_empty_true in He; contradiction|].
  unfold bind. rewrite (insertEntry_duplicate _ _ _ _ _ _ _ Hex). reflexivity.
Qed.

(** C3. In every store that parsing and extraction lead to, no two entries
    share conversation and content hash.  An insert whose pair is already
    stored is rejected and leaves the store as it is; the event-log loop and
    the plain-text loop count it as a skip and go on. *)
Theorem stored_entries_unique (st : store) :
  reachable st ->
  NoDup (map entry_key (entries st))
  /\ (forall conv h idx role text ts,
        Parser.entry_exists conv h st = true ->
        is_nullish role = false ->
        Parser.insertEntry conv h idx role text ts st = (Ok false, st))
  /\ (forall conv line acc entry type role text,
        JSON_parse line = Some entry ->
        prop entry "type" = Ok type ->
        Parser.is_message_type type = true ->
        Parser.extractRole entry = Ok role ->
        Parser.extractContent entry = Ok (Some text) ->
        str_empty text = false ->
        Parser.entry_exists conv (Parser.hashContent sha256 line) st = true ->
        Parser.parse_line JSON_parse sha256 conv line acc st
          = (Ok (skipped_line (Parser.hashContent sha256 line) acc), st))
  /\ (forall conv raw acc,
        trim raw <> "Human:" -> trim raw <> ">" -> trim raw <> "Assistant:" ->
        trim raw <> "" ->
        Parser.entry_exists conv (Parser.hashContent sha256 (trim raw)) st = true ->
        Parser.txt_block sha256 conv raw acc st = (Ok (skipped_block acc), st)).
Proof.
  intros Hreach. split; [|split; [|split]].
  - induction Hreach as [|st fs filePath projectId _ IH|st fs conv _ IH].
    + apply NoDup_nil_2.
    + now apply processFile_unique.
    + destruct (processConversationEntries_types JSON_parse sha256
                  order_by_entry_index fs conv st) as (_ & _ & _ & He & _).
      fold (entries_unique (snd (Extractor.processConversationEntries
              JSON_parse sha256 order_by_entry_index fs conv st))).
      unfold entries_unique. now rewrite He.
  - intros conv h idx role text ts Hex Hrole.
    rewrite (insertEntry_duplicate _ _ _ _ _ _ _ Hex). now rewrite Hrole.
  - intros. eapply parse_line_duplicate; eauto.
  - intros. now apply txt_block_duplicate.
Qed.

End Uniqueness.

(** A store reached by parsing a file that holds the same line twice: the
    second copy is skipped. *)
Definition twice_parsed : store :=
  snd (Scenarios.parse Scenarios.repeated_line "twice.jsonl" empty_store).

Lemma stored_entries_unique_witness :
  fst (Scenarios.parse Scenarios.repeated_line "twice.jsonl" empty_store)
    = Ok (Parser.ParseDone 1 (VStr "twice") 1 1 (Some 2))
  /\ NoDup (map entry_key (entries twice_parsed)).
Proof.
  split; [vm_compute; reflexivity|].
  apply (stored_entries_unique Scenarios.decode Scenarios.plain_hash
           Scenarios.no_timestamp Scenarios.no_timestamp Scenarios.no_duration
           Scenarios.rows_in_order twice_parsed).
  apply reach_parse. apply reach_empty.
Defined.

(** ** C5: the checkpoint of an event log *)

(** [parseState?.last_line_number || 0] *)
Definition checkpoint (st : store) (path : string) : nat :=
  match parse_states st !! path with
  | Some row => last_line_number row
  | None => 0
  end.

Lemma run_ok {A} (R : store -> store -> Prop) (Q : A -> Prop) (m : SE store A) st :
  returns m -> hoare R Q m ->
  exists a st', m st = (Ok a, st') /\ R st st' /\ Q a.
Proof.
  intros Hret Hm. destruct (Hret st) as [a Ha]. destruct (Hm st) as [HR HQ].
  destruct (m st) as [r st']. cbn in *. subst r. eauto.
Qed.

Section Checkpoints.

Variable JSON_parse : string -> option value.
Variable sha256 : string -> string.
Variable sql_min sql_max : list value -> value.
Variable date_diff_seconds : value -> value -> value.

#[local] Abbreviation parseJSONL :=
  (Parser.parseJSONL JSON_parse sha256 sql_min sql_max date_diff_seconds).
#[local] Abbreviation parseTXT :=
  (Parser.parseTXT sha256 sql_min sql_max date_diff_seconds).
#[local] Abbreviation processFile :=
  (Parser.processFile JSON_parse sha256 sql_min sql_max date_diff_seconds).

Lemma same_parse_states_refl st : same_parse_states st st.
Proof. reflexivity. Qed.

Lemma same_parse_states_trans a b c :
  same_parse_states a b -> same_parse_states b c -> same_parse_states a c.
Proof. unfold same_parse_states. congruence. Qed.

Lemma insertEntry_same_parse_states conv h idx role text ts :
  hoare same_parse_states (fun _ => True)
        (Parser.insertEntry conv h idx role text ts).
Proof.
  intros st. split; [apply insertEntry_tables|now destruct (fst _)].
Qed.

Lemma bind_getParseState {B} filePath (f : option parse_state_row -> SE store B) st :
  bind (Parser.getParseState filePath) f st = f (parse_states st !! filePath) st.
Proof. reflexivity. Qed.

(** What [parseJSONL] leaves in the checkpoint table. *)
Lemma parseJSONL_parse_states fs filePath projectId st :
  let st' := snd (parseJSONL fs filePath projectId st) in
  match fs filePath with
  | None => parse_states st' = parse_states st
  | Some content =>
      let n := length (nonblank_lines content) in
      if (n <=? checkpoint st filePath)%nat then parse_states st' = parse_states st
      else exists h,
          parse_states st'
          = <[filePath := {| last_line_number := n; last_entry_hash := h |}]>
              (parse_states st)
  end.
Proof.
  unfold Parser.parseJSONL.
  destruct (fs filePath) as [content|]; [|reflexivity].
  rewrite bind_getParseState. cbn beta zeta.
  fold (checkpoint st filePath).
  destruct (length (nonblank_lines content) <=? checkpoint st filePath)%nat eqn:Hle;
    [reflexivity|].
  apply Nat.leb_gt in Hle.
  match goal with
  | |- context [bind (Parser.findOrCreateConversation ?a ?b ?c ?d) ?f st] =>
      destruct (run_ok same_parse_states (fun _ => True)
                  (Parser.findOrCreateConversation a b c d) st)
        as (conversation & st1 & E1 & R1 & _);
      [apply findOrCreateConversation_returns
      |intros s; split; [apply findOrCreateConversation_tables|now destruct (fst _)]
      |rewrite (bind_ok _ f _ _ _ E1)]
  end.
  match goal with
  | |- context [bind ?m ?f st1] =>
      destruct (run_ok same_parse_states (fun _ => True) m st1)
        as ([] & st2 & E2 & R2 & _);
      [destruct (_ && _); intros s; now eexists
      |destruct (_ && _); intros s; split; (reflexivity || exact I)
      |rewrite (bind_ok _ f _ _ _ E2)]
  end.
  match goal with
  | |- context [bind ?m ?f st2] =>
      destruct (run_ok same_parse_states (fun _ => True) m st2)
        as (acc & st3 & E3 & R3 & _);
      [apply parse_lines_returns
      |apply hoare_parse_lines with (good := fun _ => True);
       [apply same_parse_states_refl|apply same_parse_states_trans
       |intros; apply insertEntry_same_parse_states
       |apply Forall_forall; auto]
      |rewrite (bind_ok _ f _ _ _ E3)]
  end.
  apply Nat.ltb_lt in Hle. rewrite Hle, orb_true_r.
  cbn. exists (Parser.lastHash acc).
  unfold same_parse_states in *. congruence.
Qed.

Lemma parseJSONL_checkpoint fs filePath projectId st path :
  checkpoint (snd (parseJSONL fs filePath projectId st)) path
  = if String.eqb path filePath then
      match fs filePath with
      | Some content =>
          Nat.max (checkpoint st filePath) (length (nonblank_lines content))
      | None => checkpoint st filePath
      end
    else checkpoint st path.
Proof.
  pose proof (parseJSONL_parse_states fs filePath projectId st) as H.
  cbn zeta in H. unfold checkpoint at 1.
  destruct (String.eqb_spec path filePath) as [->|Hne].
  - destruct (fs filePath) as [content|]; [|now rewrite H].
    destruct (_ <=? _)%nat eqn:Hle.
    + rewrite H. apply Nat.leb_le in Hle. fold (checkpoint st filePath). lia.
    + destruct H as [h ->]. rewrite lookup_insert_eq. cbn.
      apply Nat.leb_gt in Hle. lia.
  - destruct (fs filePath) as [content|]; [|now rewrite H].
    destruct (_ <=? _)%nat; [now rewrite H|].
    destruct H as [h ->]. rewrite lookup_insert_ne by congruence. reflexivity.
Qed.



End Checkpoints.


(** ** C7: the failures of [processFile] *)

Section Failures.

Variable JSON_parse : string -> option value.
Variable sha256 : string -> string.
Variable sql_min sql_max : list value -> value.
Variable date_diff_seconds : value -> value -> value.

#[local] Abbreviation processFile :=
  (Parser.processFile JSON_parse sha256 sql_min sql_max date_diff_seconds).

(** C7, as the code has it.  A path whose extension is neither [jsonl] nor
    [txt] fails with [Unknown format], whether the file exists or not; a path
    with one of the two extensions that names no file fails with
    [File not found]; in both cases the store is left as it was. *)
Theorem processFile_failures (fs : filesystem) (filePath : string)
    (projectId : value) (st : store) :
  (Parser.extension filePath <> "jsonl" ->
   Parser.extension filePath <> "txt" ->
   processFile fs filePath projectId st
     = (Ok (Parser.ParseFailure "Unknown format"), st))
  /\ (Parser.extension filePath = "jsonl" \/ Parser.extension filePath = "txt" ->
      fs filePath = None ->
      processFile fs filePath projectId st
        = (Ok (Parser.ParseFailure "File not found"), st)).
Proof.
  unfold Parser.processFile. split.
  - intros H1 H2. apply String.eqb_neq in H1, H2. now rewrite H1, H2.
  - intros Hext Hfs.
    destruct (String.eqb_spec (Parser.extension filePath) "jsonl") as [_|Hj].
    + unfold Parser.parseJSONL. now rewrite Hfs.
    + destruct Hext as [Hext|Hext]; [contradiction|].
      rewrite Hext. cbn [String.eqb Ascii.eqb Bool.eqb andb].
      unfold Parser.parseTXT. now rewrite Hfs.
Qed.

End Failures.

(** A missing file with another extension is reported as an unknown format,
    not as a missing file. *)
Lemma missing_file_unknown_format :
  Scenarios.no_files "notes.md" = None
  /\ Scenarios.parse Scenarios.no_files "notes.md" empty_store
     = (Ok (Parser.ParseFailure "Unknown format"), empty_store).
Proof. split; reflexivity. Qed.

Lemma processFile_failures_witness :
  Scenarios.parse Scenarios.no_files "notes.md" empty_store
    = (Ok (Parser.ParseFailure "Unknown format"), empty_store)
  /\ Scenarios.parse Scenarios.no_files "gone.jsonl" empty_store
     = (Ok (Parser.ParseFailure "File not found"), empty_store).
Proof.
  split.
  - apply (processFile_failures Scenarios.decode Scenarios.plain_hash
             Scenarios.no_timestamp Scenarios.no_timestamp
             Scenarios.no_duration Scenarios.no_files "notes.md" VNull
             empty_store); vm_compute; discriminate.
  - apply (processFile_failures Scenarios.decode Scenarios.plain_hash
             Scenarios.no_timestamp Scenarios.no_timestamp
             Scenarios.no_duration Scenarios.no_files "gone.jsonl" VNull
             empty_store); [left; vm_compute|]; reflexivity.
Defined.

(** ** C8: the role of a stored entry *)



Section Roles.

Variable JSON_parse : string -> option value.
Variable sha256 : string -> string.
Variable sql_min sql_max : list value -> value.
Variable date_diff_seconds : value -> value -> value.

#[local] Abbreviation parseJSONL :=
  (Parser.parseJSONL JSON_parse sha256 sql_min sql_max date_diff_seconds).






End Roles.


(** ** C2: tiered retention of outputs *)














Section Tiering.

Variable JSON_parse : string -> option value.
Variable sha256 : string -> string.







End Tiering.



(** ** C4: rerunning extraction *)

(** [artifactExists] as a function of the store. *)
Definition has_artifact (st : store) (conv : nat) (h : string) : bool :=
  existsb (fun a => Nat.eqb (a_conversation_id a) conv
                    && String.eqb (a_content_hash a) h)
          (artifacts st).

(** [st'] holds the artifacts of [st] and possibly more. *)
Definition extends (st st' : store) : Prop :=
  exists rows, artifacts st' = (artifacts st ++ rows)%list.

Lemma extends_refl st : extends st st.
Proof. exists []. now rewrite app_nil_r. Qed.

Lemma extends_trans a b c : extends a b -> extends b c -> extends a c.
Proof.
  intros [r1 E1] [r2 E2]. exists (r1 ++ r2)%list.
  now rewrite E2, E1, app_assoc.
Qed.

Lemma has_artifact_extends st st' conv h :
  extends st st' -> has_artifact st conv h = true ->
  has_artifact st' conv h = true.
Proof.
  intros [rows E] H. unfold has_artifact in *.
  rewrite E, existsb_app, H. reflexivity.
Qed.

(** The counters after [k] more skips. *)
Definition skips (k : nat) (r : Extractor.extract_counts)
  : Extractor.extract_counts :=
  {| Extractor.codeBlocks := Extractor.codeBlocks r;
     Extractor.toolCalls := Extractor.toolCalls r;
     Extractor.toolResults := Extractor.toolResults r;
     Extractor.jsonObjects := Extractor.jsonObjects r;
     Extractor.skipped := Extractor.skipped r + k |}.

Lemma skips_0 r : skips 0 r = r.
Proof. destruct r. unfold skips. cbn. f_equal. lia. Qed.

Lemma skips_bump r : Extractor.bump_skipped r = skips 1 r.
Proof. unfold Extractor.bump_skipped, skips. f_equal. lia. Qed.

Lemma skips_skips a b r : skips b (skips a r) = skips (a + b) r.
Proof. unfold skips. cbn. f_equal. lia. Qed.

Section Replay.

(** A step of extraction is a function of the counters. *)
#[local] Abbreviation step :=
  (Extractor.extract_counts -> SE store Extractor.extract_counts).

(** In [st] and in every store that extends it, [m] stores nothing and counts
    [k] skips. *)
Definition saturated (k : nat) (m : step) (st : store) : Prop :=
  forall t r, extends st t -> m r t = (Ok (skips k r), t).

(** [m] only appends artifacts; once it has returned, a rerun stores nothing
    and counts [k] skips; once it has raised, a rerun from the store it left
    raises again and stores nothing. *)
Definition replayable (k : nat) (m : step) : Prop :=
  forall r st,
    extends st (snd (m r st))
    /\ match fst (m r st) with
       | Ok _ => saturated k m (snd (m r st))
       | Throw => forall r2, m r2 (snd (m r st)) = (Throw, snd (m r st))
       end.

Lemma replayable_ret : replayable 0 (fun r => ret r).
Proof.
  intros r st. cbn. split; [apply extends_refl|].
  intros t r2 _. now rewrite skips_0.
Qed.

Lemma replayable_seq k1 k2 (m1 m2 : step) :
  replayable k1 m1 -> replayable k2 m2 ->
  replayable (k1 + k2) (fun r => bind (m1 r) m2).
Proof.
  intros H1 H2 r st. unfold bind.
  destruct (H1 r st) as [E1 P1].
  destruct (m1 r st) as [[r1|] s1] eqn:R1; cbn [fst snd] in *.
  - destruct (H2 r1 s1) as [E2 P2].
    destruct (m2 r1 s1) as [[r2|] s2] eqn:R2; cbn [fst snd] in *.
    + split; [eapply extends_trans; eauto|].
      intros t r3 Ht.
      rewrite (P1 t r3 (extends_trans _ _ _ E2 Ht)).
      rewrite (P2 t _ Ht). now rewrite skips_skips.
    + split; [eapply extends_trans; eauto|].
      intros r3. rewrite (P1 s2 r3 E2). apply P2.
  - split; [exact E1|]. intros r3. now rewrite P1.
Qed.

(** A step after a computation that does not touch the store. *)
Lemma replayable_after {X} k (pre : res X) (f : X -> step) :
  (forall x, pre = Ok x -> replayable k (f x)) ->
  replayable k (fun r => bind (lift pre) (fun x => f x r)).
Proof.
  intros Hf r st. unfold bind, lift. destruct pre as [x|].
  - apply (Hf x eq_refl).
  - cbn. split; [apply extends_refl|reflexivity].
Qed.

Lemma replayable_ext k (m m' : step) :
  (forall r st, m r st = m' r st) -> replayable k m -> replayable k m'.
Proof.
  intros E H r st. rewrite <- E. destruct (H r st) as [Hx Hp].
  split; [exact Hx|]. destruct (fst (m r st)).
  - intros t r2 Ht. rewrite <- E. now apply Hp.
  - intros r2. rewrite <- E. apply Hp.
Qed.

(** A step guarded by [artifactExists] on [key]: it skips when the key is
    stored; otherwise it either raises before it stores anything, whatever
    the counters, or stores the key. *)
Lemma replayable_step conv key (m : step) :
  (forall r st, has_artifact st conv key = true ->
                m r st = (Ok (Extractor.bump_skipped r), st)) ->
  (forall r st, has_artifact st conv key = false ->
                (forall r2, m r2 st = (Throw, st))
                \/ (exists r' st', m r st = (Ok r', st') /\ extends st st'
                                   /\ has_artifact st' conv key = true)) ->
  replayable 1 m.
Proof.
  intros Hskip Hwork r st.
  assert (Hsat : forall s, has_artifact s conv key = true -> saturated 1 m s).
  { intros s Hs t r2 Ht. rewrite Hskip by (eapply has_artifact_extends; eauto).
    now rewrite skips_bump. }
  destruct (has_artifact st conv key) eqn:Hhas.
  - rewrite (Hskip r st Hhas). cbn. split; [apply extends_refl|auto].
  - destruct (Hwork r st Hhas) as [Hthrow|(r' & st' & E & Hext & Hkey)].
    + rewrite (Hthrow r). cbn. split; [apply extends_refl|exact Hthrow].
    + rewrite E. cbn. split; [exact Hext|auto].
Qed.

End Replay.

Section Idempotence.

Variable JSON_parse : string -> option value.
Variable sha256 : string -> string.

Lemma bind_artifactExists {B} conv h (f : bool -> SE store B) st :
  bind (Extractor.artifactExists conv h) f st = f (has_artifact st conv h) st.
Proof. reflexivity. Qed.

Lemma has_artifact_stored a st :
  has_artifact (snd (Extractor.storeArtifact a st))
               (Extractor.conversationId a) (Extractor.contentHash a) = true.
Proof.
  unfold has_artifact. cbn. rewrite existsb_app. cbn.
  now rewrite Nat.eqb_refl, String.eqb_refl, orb_true_r.
Qed.

Lemma extends_stored a st : extends st (snd (Extractor.storeArtifact a st)).
Proof. now eexists. Qed.

Lemma process_tool_call_replayable entries conv toolId call :
  replayable 1 (Extractor.process_tool_call sha256 entries conv toolId call).
Proof.
  apply replayable_step with (conv := conv)
    (key := Extractor.tool_call_hash sha256 toolId call).
  - intros r st Hhas. unfold Extractor.process_tool_call.
    now rewrite bind_artifactExists, Hhas.
  - intros r st Hhas. unfold Extractor.process_tool_call.
    destruct (Extractor.error_type_of (is_true (Extractor.isError call)) call)
      as [et|] eqn:Het.
    2:{ left. intros r2. now rewrite bind_artifactExists, Hhas. }
    destruct (Extractor.getPromptContext entries (Extractor.lineIndex call))
      as [ctx|] eqn:Hctx.
    2:{ left. intros r2. now rewrite bind_artifactExists, Hhas. }
    right. rewrite bind_artifactExists, Hhas.
    unfold bind at 1. unfold lift at 1. unfold bind at 1. unfold lift at 1.
    set (a := Extractor.tool_call_artifact sha256 conv toolId call et ctx).
    pose proof (has_artifact_stored a st) as Hkey.
    pose proof (extends_stored a st) as Hext.
    unfold bind at 1.
    destruct (Extractor.storeArtifact a st) as [[[]|] st1] eqn:Hstore;
      [|discriminate]. cbn [snd] in Hkey, Hext.
    destruct (truthy (Extractor.result call)); [|eexists _, st1; auto].
    rewrite bind_artifactExists.
    destruct (has_artifact st1 conv _); cbn [negb]; [eexists _, st1; auto|].
    unfold bind at 1. unfold lift at 1.
    set (b := Extractor.tool_result_artifact sha256 conv toolId call et).
    unfold bind. pose proof (extends_stored b st1) as Hext2.
    destruct (Extractor.storeArtifact b st1) as [[[]|] st2] eqn:Hstore2;
      [|discriminate]. cbn [snd] in Hext2.
    eexists _, st2. split; [reflexivity|]. split.
    + eapply extends_trans; eauto.
    + eapply has_artifact_extends; eauto.
Qed.

Lemma process_tool_calls_replayable entries conv calls :
  replayable (length calls)
             (Extractor.process_tool_calls sha256 entries conv calls).
Proof.
  induction calls as [|[toolId call] rest IH].
  - apply replayable_ret.
  - apply (replayable_seq 1 (length rest)).
    + apply process_tool_call_replayable.
    + exact IH.
Qed.

(** One turn of [store_code_blocks]. *)
Definition code_step (conv : nat) (entry_id : option nat) (context : res value)
    (block : Extractor.code_block) (r : Extractor.extract_counts)
  : SE store Extractor.extract_counts :=
  let* present :=
    Extractor.artifactExists conv
      (Extractor.hashContent sha256 (Extractor.cb_content block)) in
  if present : bool then ret (Extractor.bump_skipped r)
  else
    let* ctx := lift context in
    let* _ := Extractor.storeArtifact
                (Extractor.code_block_artifact sha256 conv entry_id block ctx) in
    ret (Extractor.bump_codeBlocks r).

Lemma store_code_blocks_cons conv entry_id context block rest r st :
  Extractor.store_code_blocks sha256 conv entry_id context (block :: rest) r st
  = bind (code_step conv entry_id context block r)
         (Extractor.store_code_blocks sha256 conv entry_id context rest) st.
Proof.
  cbn [Extractor.store_code_blocks]. unfold code_step.
  rewrite bind_artifactExists. unfold bind at 3. rewrite bind_artifactExists.
  destruct (has_artifact st conv _); [reflexivity|].
  unfold bind, lift. destruct context; reflexivity.
Qed.

Lemma code_step_replayable conv entry_id context block :
  replayable 1 (code_step conv entry_id context block).
Proof.
  apply replayable_step with (conv := conv)
    (key := Extractor.hashContent sha256 (Extractor.cb_content block)).
  - intros r st Hhas. unfold code_step. now rewrite bind_artifactExists, Hhas.
  - intros r st Hhas. unfold code_step. destruct context as [ctx|].
    + right. rewrite bind_artifactExists, Hhas. unfold bind, lift.
      set (a := Extractor.code_block_artifact sha256 conv entry_id block ctx).
      pose proof (has_artifact_stored a st) as Hkey.
      pose proof (extends_stored a st) as Hext.
      destruct (Extractor.storeArtifact a st) as [[[]|] st1] eqn:Hstore;
        [|discriminate]. eexists _, st1. auto.
    + left. intros r2. now rewrite bind_artifactExists, Hhas.
Qed.

Lemma store_code_blocks_replayable conv entry_id context blocks :
  replayable (length blocks)
             (Extractor.store_code_blocks sha256 conv entry_id context blocks).
Proof.
  induction blocks as [|block rest IH].
  - apply replayable_ret.
  - eapply replayable_ext;
      [intros r st; symmetry; apply store_code_blocks_cons|].
    apply (replayable_seq 1 (length rest)); [apply code_step_replayable|exact IH].
Qed.

(** The code blocks of a decoded line, as [process_entry] finds them. *)
Definition entry_blocks (entry : value) : res (list Extractor.code_block) :=
  if negb (truthy entry) then Ok []
  else
    let? type := prop entry "type" in
    if negb (is_str type "assistant") then Ok []
    else
      let content := prop_opt (prop_opt entry "message") "content" in
      if negb (truthy content) then Ok []
      else
        let? textContent := Extractor.entry_text content in
        Ok (Extractor.extractCodeBlocks textContent).

Definition count_blocks (entry : value) : nat :=
  match entry_blocks entry with
  | Ok blocks => length blocks
  | Throw => 0
  end.

Lemma process_entry_blocks entries conv i entry r st :
  Extractor.process_entry sha256 entries conv i entry r st
  = bind (lift (entry_blocks entry))
         (fun blocks =>
            Extractor.store_code_blocks sha256 conv None
              (Extractor.getPromptContext entries i) blocks r) st.
Proof.
  unfold Extractor.process_entry, entry_blocks.
  destruct (negb (truthy entry)); [reflexivity|].
  unfold bind at 1. unfold lift at 1.
  destruct (prop entry "type") as [type|]; cbn [res_bind]; [|reflexivity].
  destruct (negb (is_str type "assistant")); [reflexivity|].
  destruct (negb (truthy _)); [reflexivity|].
  unfold bind, lift. destruct (Extractor.entry_text _); reflexivity.
Qed.

Lemma process_entry_replayable entries conv i entry :
  replayable (count_blocks entry)
             (Extractor.process_entry sha256 entries conv i entry).
Proof.
  eapply replayable_ext;
    [intros r st; symmetry; apply process_entry_blocks|].
  apply (replayable_after (count_blocks entry) (entry_blocks entry)
           (fun blocks r =>
              Extractor.store_code_blocks sha256 conv None
                (Extractor.getPromptContext entries i) blocks r)).
  intros blocks Hblocks. unfold count_blocks. rewrite Hblocks.
  apply store_code_blocks_replayable.
Qed.

Definition count_all_blocks (todo : list value) : nat :=
  fold_right (fun entry n => count_blocks entry + n) 0 todo.

Lemma process_entries_replayable entries conv i todo :
  replayable (count_all_blocks todo)
             (Extractor.process_entries sha256 entries conv i todo).
Proof.
  revert i. induction todo as [|entry rest IH]; intros i.
  - apply replayable_ret.
  - apply (replayable_seq (count_blocks entry) (count_all_blocks rest)).
    + apply process_entry_replayable.
    + apply IH.
Qed.

(** The skips a rerun over the file reports: one for each invocation of the
    map and one for each code block of an assistant message. *)
Definition rerun_skips (file : string) : nat :=
  length (Extractor.collect_tool_calls JSON_parse (nonblank_lines file))
  + count_all_blocks (Extractor.decode_lines JSON_parse (nonblank_lines file)).

Lemma processJSONLFile_rerun fs filePath conv st :
  let first := Extractor.processJSONLFile JSON_parse sha256 fs filePath conv st in
  let second :=
    Extractor.processJSONLFile JSON_parse sha256 fs filePath conv (snd first) in
  snd second = snd first
  /\ (fst first = Throw <-> fst second = Throw)
  /\ (forall file r,
        fs filePath = Some file -> fst second = Ok r ->
        r = Extractor.ExtractDone (skips (rerun_skips file) Extractor.no_counts)).
Proof.
  unfold Extractor.processJSONLFile.
  destruct (fs filePath) as [file|];
    [|cbn; repeat split; try discriminate; intros; discriminate].
  set (calls := Extractor.collect_tool_calls JSON_parse (nonblank_lines file)).
  set (entries := Extractor.decode_lines JSON_parse (nonblank_lines file)).
  pose proof (replayable_seq _ _ _ _
                (process_tool_calls_replayable entries conv calls)
                (process_entries_replayable entries conv 0 entries)) as H.
  set (m := fun r => bind (Extractor.process_tool_calls sha256 entries conv calls r)
                          (Extractor.process_entries sha256 entries conv 0 entries))
    in H.
  assert (E : forall s,
             bind (Extractor.process_tool_calls sha256 entries conv calls
                     Extractor.no_counts)
                  (fun results =>
                     bind (Extractor.process_entries sha256 entries conv 0
                             entries results)
                          (fun results0 => ret (Extractor.ExtractDone results0))) s
             = match m Extractor.no_counts s with
               | (Ok r, s') => (Ok (Extractor.ExtractDone r), s')
               | (Throw, s') => (Throw, s')
               end).
  { intros s. unfold m, bind.
    destruct (Extractor.process_tool_calls _ _ _ _ _ s) as [[r1|] s1];
      [|reflexivity].
    destruct (Extractor.process_entries _ _ _ _ _ r1 s1) as [[r2|] s2];
      reflexivity. }
  cbn zeta. rewrite !E.
  destruct (H Extractor.no_counts st) as [_ Hp].
  destruct (m Extractor.no_counts st) as [[r1|] s1]; cbn [fst snd] in *.
  - rewrite (Hp s1 Extractor.no_counts (extends_refl s1)). cbn.
    split; [reflexivity|]. split; [split; discriminate|].
    intros file' r [= <-] [= <-]. reflexivity.
  - rewrite (Hp Extractor.no_counts). cbn.
    split; [reflexivity|]. split; [split; reflexivity|].
    intros file' r _ Hr. discriminate.
Qed.

(** The code blocks of the assistant rows, as [process_rows] meets them. *)
Definition count_row_blocks (todo : list entry_row) : nat :=
  fold_right
    (fun entry n =>
       (if is_str (e_role entry) "assistant"
        then length (Extractor.extractCodeBlocks (e_content entry)) else 0) + n)
    0 todo.

Lemma process_rows_replayable rows conv i todo :
  replayable (count_row_blocks todo)
             (Extractor.process_rows sha256 rows conv i todo).
Proof.
  revert i. induction todo as [|entry rest IH]; intros i.
  - apply replayable_ret.
  - cbn [count_row_blocks fold_right]. fold (count_row_blocks rest).
    destruct (is_str (e_role entry) "assistant") eqn:Hrole.
    + eapply replayable_ext with
        (m := fun r =>
                bind (Extractor.store_code_blocks sha256 conv
                        (Some (e_id entry))
                        (Ok (Extractor.stored_context rows i))
                        (Extractor.extractCodeBlocks (e_content entry)) r)
                     (Extractor.process_rows sha256 rows conv (S i) rest)).
      * intros r st. cbn [Extractor.process_rows]. now rewrite Hrole.
      * apply replayable_seq; [apply store_code_blocks_replayable|apply IH].
    + eapply replayable_ext with
        (m := Extractor.process_rows sha256 rows conv (S i) rest).
      * intros r st. cbn [Extractor.process_rows]. now rewrite Hrole.
      * apply IH.
Qed.

Variable order_by_entry_index : list entry_row -> list entry_row.

Lemma processConversationEntries_rerun fs conv st :
  let first :=
    Extractor.processConversationEntries JSON_parse sha256
      order_by_entry_index fs conv st in
  let second :=
    Extractor.processConversationEntries JSON_parse sha256
      order_by_entry_index fs conv (snd first) in
  snd second = snd first /\ (fst first = Throw <-> fst second = Throw).
Proof.
  cbn zeta.
  destruct (processConversationEntries_types JSON_parse sha256
              order_by_entry_index fs conv st) as (_ & _ & Hc & He & _).
  set (st1 := snd (Extractor.processConversationEntries JSON_parse sha256
                     order_by_entry_index fs conv st)) in *.
  assert (Hshape : forall s,
             Extractor.processConversationEntries JSON_parse sha256
               order_by_entry_index fs conv s
             = match List.find (fun c => Nat.eqb (c_id c) conv) (conversations s) with
               | None => (Ok (Extractor.ExtractFailure "Conversation not found"), s)
               | Some conversation =>
                   if String.eqb (c_source_file_type conversation) "jsonl"
                      && bool_decide (is_Some (fs (c_source_file_path conversation)))
                   then Extractor.processJSONLFile JSON_parse sha256 fs
                          (c_source_file_path conversation) conv s
                   else
                     let rows :=
                       order_by_entry_index
                         (List.filter (fun e => Nat.eqb (e_conversation_id e) conv)
                                      (entries s)) in
                     match Extractor.process_rows sha256 rows conv 0 rows
                             Extractor.no_counts s with
                     | (Ok r, s') =>
                         (Ok (Extractor.ExtractEntriesDone
                                (Extractor.codeBlocks r) (Extractor.jsonObjects r)
                                (Extractor.skipped r)), s')
                     | (Throw, s') => (Throw, s')
                     end
               end).
  { intros s. unfold Extractor.processConversationEntries.
    unfold bind at 1. cbn [get].
    destruct (List.find _ (conversations s)) as [conversation|]; [|reflexivity].
    destruct (_ && _); [reflexivity|]. cbn zeta. unfold bind.
    destruct (Extractor.process_rows _ _ _ _ _ _ s) as [[r|] s']; reflexivity. }
  rewrite (Hshape st1). unfold st1 at 2 4. rewrite (Hshape st). rewrite Hc, He.
  unfold st1. rewrite (Hshape st).
  destruct (List.find _ (conversations st)) as [conversation|];
    [|cbn; split; [reflexivity|split; discriminate]].
  destruct (_ && _).
  - destruct (processJSONLFile_rerun fs (c_source_file_path conversation) conv st)
      as (Hs & Ht & _). split; [exact Hs|exact Ht].
  - cbn zeta.
    set (rows := order_by_entry_index
                   (List.filter (fun e => Nat.eqb (e_conversation_id e) conv)
                                (entries st))).
    destruct (process_rows_replayable rows conv 0 rows Extractor.no_counts st)
      as [_ Hp].
    destruct (Extractor.process_rows sha256 rows conv 0 rows Extractor.no_counts st)
      as [[r1|] s1]; cbn [fst snd] in *.
    + rewrite (Hp s1 Extractor.no_counts (extends_refl s1)). cbn.
      split; [reflexivity|split; discriminate].
    + rewrite (Hp Extractor.no_counts). cbn. split; [reflexivity|tauto].
Qed.

End Idempotence.

(** C4, as the code has it.  A rerun of extraction over an unchanged event
    log, from the store the first run left, stores nothing; it raises exactly
    when the first run did, and when it returns it reports no tool call, no
    tool result and no code block but one skip for each invocation and each
    code block of the file: a tool result is stored with its invocation and
    is not looked at again once the invocation is skipped.  A rerun of
    [processConversationEntries], on either of its paths, stores nothing
    either.  In Scenario A the
    first run stores one [tool_call] with outcome [success] and one
    [tool_result] and reports no skip; the rerun stores nothing and reports
    one skip. *)
Theorem extraction_rerun :
  (forall (JSON_parse : string -> option value) (sha256 : string -> string)
          (fs : filesystem) (filePath : string) (conv : nat) (st : store),
      let first :=
        Extractor.processJSONLFile JSON_parse sha256 fs filePath conv st in
      let second :=
        Extractor.processJSONLFile JSON_parse sha256 fs filePath conv
                                   (snd first) in
      snd second = snd first
      /\ (fst first = Throw <-> fst second = Throw)
      /\ (forall file r,
            fs filePath = Some file -> fst second = Ok r ->
            r = Extractor.ExtractDone
                  (skips (rerun_skips JSON_parse file) Extractor.no_counts)))
  /\ (forall (JSON_parse : string -> option value) (sha256 : string -> string)
             (order_by_entry_index : list entry_row -> list entry_row)
             (fs : filesystem) (conv : nat) (st : store),
        let first :=
          Extractor.processConversationEntries JSON_parse sha256
            order_by_entry_index fs conv st in
        let second :=
          Extractor.processConversationEntries JSON_parse sha256
            order_by_entry_index fs conv (snd first) in
        snd second = snd first /\ (fst first = Throw <-> fst second = Throw))
  /\ (let first :=
        Scenarios.extract Scenarios.scenario_a "a.jsonl" 1 empty_store in
      let second :=
        Scenarios.extract Scenarios.scenario_a "a.jsonl" 1 (snd first) in
      fst first
        = Ok (Extractor.ExtractDone
                {| Extractor.codeBlocks := 0; Extractor.toolCalls := 1;
                   Extractor.toolResults := 1; Extractor.jsonObjects := 0;
                   Extractor.skipped := 0 |})
      /\ map (fun row => (a_artifact_type row, a_outcome row))
             (artifacts (snd first))
         = [("tool_call", Some "success"); ("tool_result", Some "success")]
      /\ fst second
         = Ok (Extractor.ExtractDone
                 {| Extractor.codeBlocks := 0; Extractor.toolCalls := 0;
                    Extractor.toolResults := 0; Extractor.jsonObjects := 0;
                    Extractor.skipped := 1 |})
      /\ snd second = snd first).
Proof.
  split; [|split].
  - intros. apply processJSONLFile_rerun.
  - intros. apply processConversationEntries_rerun.
  - cbn zeta. repeat split; vm_compute; reflexivity.
Qed.

(** Scenario A: the first run stores two artifacts, and the rerun reports one
    skip, not two. *)
Lemma rerun_reports_one_skip :
  let first := Scenarios.extract Scenarios.scenario_a "a.jsonl" 1 empty_store in
  length (artifacts (snd first)) = 2
  /\ fst (Scenarios.extract Scenarios.scenario_a "a.jsonl" 1 (snd first))
     = Ok (Extractor.ExtractDone
             {| Extractor.codeBlocks := 0; Extractor.toolCalls := 0;
                Extractor.toolResults := 0; Extractor.jsonObjects := 0;
                Extractor.skipped := 1 |}).
Proof. cbn zeta. split; vm_compute; reflexivity. Qed.

(** ** C1 and C9: what a stored tool call holds *)

Section ToolCallRows.

Variable JSON_parse : string -> option value.
Variable sha256 : string -> string.

(** A [tool_call] row is the artifact of an invocation of the map, with the
    prompt context [getPromptContext] computes at the invocation's line. *)
Definition tool_call_row (calls : Extractor.toolCallMap) (entries : list value)
    (conv : nat) (row : artifact_row) : Prop :=
  a_artifact_type row = "tool_call" ->
  exists toolId call error_type context,
    In (toolId, call) calls
    /\ Extractor.getPromptContext entries (Extractor.lineIndex call) = Ok context
    /\ row = Extractor.artifact_to_row
               (Extractor.tool_call_artifact sha256 conv toolId call error_type
                                             context).

Lemma process_tool_call_rows calls entries conv toolId call r :
  In (toolId, call) calls ->
  grows (tool_call_row calls entries conv) (fun _ => True)
        (Extractor.process_tool_call sha256 entries conv toolId call r).
Proof.
  intros Hin. unfold Extractor.process_tool_call.
  eapply grows_bind; [apply grows_artifactExists|]. intros present _.
  destruct present; [apply grows_ret; exact I|].
  eapply grows_bind; [apply (grows_lift _ (fun _ => True)); auto|]. intros et _.
  eapply grows_bind
    with (Q := fun ctx => Extractor.getPromptContext entries
                            (Extractor.lineIndex call) = Ok ctx);
    [apply grows_lift; auto|]. intros ctx Hctx.
  eapply grows_bind with (Q := fun _ => True).
  { apply grows_storeArtifact. intros _. exists toolId, call, et, ctx. auto. }
  intros _ _.
  destruct (truthy (Extractor.result call)); [|apply grows_ret; exact I].
  eapply grows_bind; [apply grows_artifactExists|]. intros present _.
  destruct present; cbn [negb]; [apply grows_ret; exact I|].
  eapply grows_bind; [apply (grows_lift _ (fun _ => True)); auto|]. intros et2 _.
  eapply grows_bind with (Q := fun _ => True).
  { apply grows_storeArtifact. intros Hty. discriminate Hty. }
  intros _ _. apply grows_ret; exact I.
Qed.

Lemma process_tool_calls_rows calls entries conv todo r :
  (forall x, In x todo -> In x calls) ->
  grows (tool_call_row calls entries conv) (fun _ => True)
        (Extractor.process_tool_calls sha256 entries conv todo r).
Proof.
  revert r. induction todo as [|[toolId call] rest IH]; intros r Hsub; cbn.
  - apply grows_ret; exact I.
  - eapply grows_bind with (Q := fun _ => True).
    + apply process_tool_call_rows. apply Hsub. now left.
    + intros r' _. apply IH. intros x Hx. apply Hsub. now right.
Qed.

Lemma processJSONLFile_tool_call_rows fs filePath conv st file :
  fs filePath = Some file ->
  exists rows,
    artifacts (snd (Extractor.processJSONLFile JSON_parse sha256 fs filePath
                      conv st))
      = (artifacts st ++ rows)%list
    /\ Forall (tool_call_row
                 (Extractor.collect_tool_calls JSON_parse (nonblank_lines file))
                 (Extractor.decode_lines JSON_parse (nonblank_lines file))
                 conv) rows.
Proof.
  intros Hfs.
  assert (H : grows (tool_call_row
                       (Extractor.collect_tool_calls JSON_parse (nonblank_lines file))
                       (Extractor.decode_lines JSON_parse (nonblank_lines file))
                       conv)
                    (fun _ => True)
                    (Extractor.processJSONLFile JSON_parse sha256 fs filePath conv)).
  { unfold Extractor.processJSONLFile. rewrite Hfs.
    eapply grows_bind with (Q := fun _ => True).
    - apply process_tool_calls_rows. auto.
    - intros r _. eapply grows_bind with (Q := fun _ => True).
      + eapply grows_weaken; [|intros; exact I].
        eapply grows_impl; [apply process_entries_types|].
        intros row Hrow Hty. unfold code_row in Hrow.
        rewrite Hrow in Hty. discriminate.
      + intros r' _. apply grows_ret. exact I. }
  destruct (H st) as (Hrows & _). exact Hrows.
Qed.

End ToolCallRows.

(** The outcome the code computes for an invocation. *)
Definition outcome_of (call : Extractor.tool_call) : string :=
  if is_true (Extractor.isError call) then "error"
  else if truthy (Extractor.result call) then "success" else "pending".

(** C1, with the input where the code departs from it.  The outcome of every
    stored [tool_call] is computed from the invocation's entry in the map:
    [error] when the attached error flag is [true], else [success] when the
    attached payload is truthy, else [pending].  So an invocation whose
    matching result has an empty payload and no error flag is stored as
    [pending]: in the log below the first pass attaches the result of [t1]
    (its line index is recorded), yet the [tool_call] has outcome [pending]
    and no [tool_result] is stored. *)
Theorem tool_call_outcome_by_payload :
  (forall (JSON_parse : string -> option value) (sha256 : string -> string)
          (fs : filesystem) (filePath : string) (conv : nat) (st : store)
          (file : string),
      fs filePath = Some file ->
      exists rows,
        artifacts (snd (Extractor.processJSONLFile JSON_parse sha256 fs
                          filePath conv st))
          = (artifacts st ++ rows)%list
        /\ Forall (fun row =>
                     a_artifact_type row = "tool_call" ->
                     exists toolId call,
                       In (toolId, call)
                          (Extractor.collect_tool_calls JSON_parse
                             (nonblank_lines file))
                       /\ a_outcome row = Some (outcome_of call)) rows)
  /\ (let lines :=
        nonblank_lines (default "" (Scenarios.empty_payload "e.jsonl")) in
      let calls := Extractor.collect_tool_calls Scenarios.decode lines in
      option_map Extractor.resultLineIndex (Extractor.map_get calls (VStr "t1"))
        = Some (Some 1)
      /\ option_map Extractor.isError (Extractor.map_get calls (VStr "t1"))
         = Some VUndef
      /\ map (fun row => (a_artifact_type row, a_outcome row))
             (artifacts (snd (Scenarios.extract Scenarios.empty_payload
                                "e.jsonl" 1 empty_store)))
         = [("tool_call", Some "pending")]).
Proof.
  split.
  - intros JSON_parse sha256 fs filePath conv st file Hfs.
    destruct (processJSONLFile_tool_call_rows JSON_parse sha256 fs filePath
                conv st file Hfs) as (rows & E & F).
    exists rows. split; [exact E|].
    eapply Forall_impl; [exact F|]. intros row Hrow Hty.
    destruct (Hrow Hty) as (toolId & call & et & ctx & Hin & _ & ->).
    exists toolId, call. split; [exact Hin|].
    unfold outcome_of. cbn.
    destruct (is_true (Extractor.isError call)); [reflexivity|].
    destruct (truthy (Extractor.result call)); reflexivity.
  - cbn zeta. repeat split; vm_compute; reflexivity.
Qed.

Lemma getPromptContext_reads_content entries i :
  0 < i -> i <= length entries ->
  let content := prop_opt (nth (i - 1) entries VUndef) "content" in
  (truthy content = false -> Extractor.getPromptContext entries i = Ok VNull)
  /\ (forall s, content = VStr s -> s <> "" ->
                Extractor.getPromptContext entries i
                  = Ok (VStr (slice_last Extractor.PROMPT_CONTEXT_LENGTH s))).
Proof.
  intros Hi Hlen. cbn zeta. unfold Extractor.getPromptContext.
  replace (i <=? 0)%nat with false by (symmetry; apply Nat.leb_gt; lia).
  replace (length entries =? 0)%nat with false
    by (symmetry; apply Nat.eqb_neq; lia).
  cbn [orb]. split.
  - intros ->. reflexivity.
  - intros s -> Hs. destruct s; [congruence|reflexivity].
Qed.

(** C9, with the input where the code departs from it.  The prompt context
    stored with a [tool_call] is what [getPromptContext] returns at the
    invocation's line index [i]: for [i > 0] the last 200 characters of the
    [content] property of the decoded line [i - 1] itself when that is a
    non-empty string, and [null] when the line has no such property.  The
    text of an event-log line is under [message], so in the log below, where
    line 0 is a user message with a text and line 1 the invocation [t1], the
    parser's text of line 0 is the message while the stored prompt context is
    [null]. *)
Theorem prompt_context_reads_line_content :
  (forall (JSON_parse : string -> option value) (sha256 : string -> string)
          (fs : filesystem) (filePath : string) (conv : nat) (st : store)
          (file : string),
      fs filePath = Some file ->
      exists rows,
        artifacts (snd (Extractor.processJSONLFile JSON_parse sha256 fs
                          filePath conv st))
          = (artifacts st ++ rows)%list
        /\ Forall (fun row =>
                     a_artifact_type row = "tool_call" ->
                     exists toolId call context,
                       In (toolId, call)
                          (Extractor.collect_tool_calls JSON_parse
                             (nonblank_lines file))
                       /\ Extractor.getPromptContext
                            (Extractor.decode_lines JSON_parse
                               (nonblank_lines file))
                            (Extractor.lineIndex call) = Ok context
                       /\ a_prompt_context row = js_or context VNull) rows)
  /\ (forall entries i,
        0 < i -> i <= length entries ->
        let content := prop_opt (nth (i - 1) entries VUndef) "content" in
        (truthy content = false ->
         Extractor.getPromptContext entries i = Ok VNull)
        /\ (forall s, content = VStr s -> s <> "" ->
                      Extractor.getPromptContext entries i
                        = Ok (VStr (slice_last Extractor.PROMPT_CONTEXT_LENGTH s))))
  /\ (let lines :=
        nonblank_lines (default "" (Scenarios.asked_then_read "p.jsonl")) in
      let entries := Extractor.decode_lines Scenarios.decode lines in
      let calls := Extractor.collect_tool_calls Scenarios.decode lines in
      option_map Extractor.lineIndex (Extractor.map_get calls (VStr "t1"))
        = Some 1
      /\ Parser.extractContent (nth 0 entries VUndef)
         = Ok (Some "please read the file a.txt")
      /\ Extractor.getPromptContext entries 1 = Ok VNull
      /\ map (fun row => (a_artifact_type row, a_prompt_context row))
             (artifacts (snd (Scenarios.extract Scenarios.asked_then_read
                                "p.jsonl" 1 empty_store)))
         = [("tool_call", VNull)]).
Proof.
  split; [|split].
  - intros JSON_parse sha256 fs filePath conv st file Hfs.
    destruct (processJSONLFile_tool_call_rows JSON_parse sha256 fs filePath
                conv st file Hfs) as (rows & E & F).
    exists rows. split; [exact E|].
    eapply Forall_impl; [exact F|]. intros row Hrow Hty.
    destruct (Hrow Hty) as (toolId & call & et & ctx & Hin & Hctx & ->).
    exists toolId, call, ctx. auto.
  - apply getPromptContext_reads_content.
  - cbn zeta. repeat split; vm_compute; reflexivity.
Qed.

(** ** The general statements at the scenarios *)

Lemma classifyError_first_match_witness :
  ClassifierSpec.rule_matches (toLowerCase ("File Not Found" ++ ""))
    (["not found"; "no such file"], "not_found") = true
  /\ Extractor.classifyError (VStr "File Not Found") (VStr "") = Ok "not_found".
Proof.
  split; [vm_compute; reflexivity|].
  destruct (classifyError_first_match "File Not Found" "") as (_ & _ & H & _).
  apply (H [(["permission denied"; "access denied"], "permission")]
           (["not found"; "no such file"], "not_found")
           _ eq_refl); vm_compute; reflexivity.
Defined.

Lemma no_json_object_artifacts_witness :
  exists r,
    fst (Scenarios.extract Scenarios.scenario_b "b.jsonl" 1 empty_store) = Ok r
    /\ reported_jsonObjects r = Some 0.
Proof.
  destruct (no_json_object_artifacts Scenarios.decode Scenarios.plain_hash
              Scenarios.rows_in_order Scenarios.scenario_b "b.jsonl" 1
              empty_store) as (_ & H & _).
  eexists. split; [vm_compute; reflexivity|].
  apply H; [vm_compute; reflexivity|cbn; discriminate].
Defined.


Lemma extraction_rerun_witness :
  let first := Scenarios.extract Scenarios.scenario_a "a.jsonl" 1 empty_store in
  let second := Scenarios.extract Scenarios.scenario_a "a.jsonl" 1 (snd first) in
  snd second = snd first
  /\ fst second
     = Ok (Extractor.ExtractDone
             (skips (rerun_skips Scenarios.decode
                       (default "" (Scenarios.scenario_a "a.jsonl")))
                    Extractor.no_counts)).
Proof.
  cbn zeta.
  destruct (proj1 extraction_rerun Scenarios.decode Scenarios.plain_hash
              Scenarios.scenario_a "a.jsonl" 1 empty_store) as (Hs & _ & Hr).
  split; [exact Hs|].
  match goal with
  | |- fst ?second = _ =>
      assert (E : fst second
                  = Ok (Extractor.ExtractDone
                          {| Extractor.codeBlocks := 0; Extractor.toolCalls := 0;
                             Extractor.toolResults := 0;
                             Extractor.jsonObjects := 0;
                             Extractor.skipped := 1 |}))
        by (vm_compute; reflexivity)
  end.
  rewrite E. exact (f_equal Ok (Hr _ _ eq_refl E)).
Defined.

Lemma tool_call_outcome_by_payload_witness :
  exists rows,
    artifacts (snd (Scenarios.extract Scenarios.scenario_a "a.jsonl" 1
                      empty_store)) = rows
    /\ Forall (fun row =>
                 a_artifact_type row = "tool_call" ->
                 exists toolId call,
                   In (toolId, call)
                      (Extractor.collect_tool_calls Scenarios.decode
                         (nonblank_lines
                            (default "" (Scenarios.scenario_a "a.jsonl"))))
                   /\ a_outcome row = Some (outcome_of call)) rows.
Proof.
  destruct (proj1 tool_call_outcome_by_payload Scenarios.decode
              Scenarios.plain_hash Scenarios.scenario_a "a.jsonl" 1
              empty_store _ eq_refl) as (rows & E & F).
  exists rows. split; [exact E|exact F].
Defined.

Lemma prompt_context_reads_line_content_witness :
  exists rows,
    artifacts (snd (Scenarios.extract Scenarios.asked_then_read "p.jsonl" 1
                      empty_store)) = rows
    /\ Forall (fun row =>
                 a_artifact_type row = "tool_call" ->
                 exists toolId call context,
                   In (toolId, call)
                      (Extractor.collect_tool_calls Scenarios.decode
                         (nonblank_lines
                            (default "" (Scenarios.asked_then_read "p.jsonl"))))
                   /\ Extractor.getPromptContext
                        (Extractor.decode_lines Scenarios.decode
                           (nonblank_lines
                              (default "" (Scenarios.asked_then_read "p.jsonl"))))
                        (Extractor.lineIndex call) = Ok context
                   /\ a_prompt_context row = js_or context VNull) rows.
Proof.
  destruct (proj1 prompt_context_reads_line_content Scenarios.decode
              Scenarios.plain_hash Scenarios.asked_then_read "p.jsonl" 1
              empty_store _ eq_refl) as (rows & E & F).
  exists rows. split; [exact E|exact F].
Defined.

(** * Further properties *)

(** ** Lists and key comparison *)

Lemma same_value_zero_sym a b : same_value_zero a b = same_value_zero b a.
Proof.
  destruct a, b; cbn; try reflexivity.
  - now destruct b, b0.
  - apply Z.eqb_sym.
  - apply String.eqb_sym.
Qed.

Lemma lookup_map {A B} (f : A -> B) (l : list A) (i : nat) :
  map f l !! i = option_map f (l !! i).
Proof. exact (list_lookup_fmap f l i). Qed.

(** No two of the values are the same for the key comparison. *)
Definition distinct_values (l : list value) : Prop :=
  forall i j a b,
    l !! i = Some a -> l !! j = Some b -> same_value_zero a b = true -> i = j.

Lemma distinct_values_snoc l v :
  distinct_values l ->
  (forall a, In a l -> same_value_zero a v = false) ->
  distinct_values (l ++ [v]).
Proof.
  intros Hl Hnew i j a b Hi Hj Hsame.
  apply lookup_app_Some in Hi as [Hi|[Hil Hi]];
    apply lookup_app_Some in Hj as [Hj|[Hjl Hj]].
  - eapply Hl; eauto.
  - apply list_lookup_singleton_Some in Hj as [_ <-].
    apply list_elem_of_lookup_2, list_elem_of_In in Hi.
    rewrite (Hnew _ Hi) in Hsame. discriminate.
  - apply list_lookup_singleton_Some in Hi as [_ <-].
    apply list_elem_of_lookup_2, list_elem_of_In in Hj.
    rewrite same_value_zero_sym, (Hnew _ Hj) in Hsame. discriminate.
  - apply list_lookup_singleton_Some in Hi as [Hi _].
    apply list_lookup_singleton_Some in Hj as [Hj _]. lia.
Qed.

(** * Further properties of the parser *)

(** ** What a parse adds to the entries *)

(** The store with [rows] appended to the entries. *)
Definition with_entries (st : store) (rows : list entry_row) : store :=
  {| parse_states := parse_states st;
     conversations := conversations st;
     entries := entries st ++ rows;
     artifacts := artifacts st |}.

Lemma with_entries_nil st : with_entries st [] = st.
Proof. destruct st. unfold with_entries. cbn. now rewrite app_nil_r. Qed.

Lemma with_entries_app st r1 r2 :
  with_entries (with_entries st r1) r2 = with_entries st (r1 ++ r2).
Proof. unfold with_entries. cbn. now rewrite app_assoc. Qed.

(** The counters after a line was stored. *)
Definition stored_line (lineHash : string) (acc : Parser.parse_acc)
  : Parser.parse_acc :=
  {| Parser.newEntries := S (Parser.newEntries acc);
     Parser.skipped := Parser.skipped acc;
     Parser.entryIndex := S (Parser.entryIndex acc);
     Parser.lastHash := Some lineHash |}.

Definition stored_block (acc : Parser.txt_acc) : Parser.txt_acc :=
  {| Parser.t_newEntries := S (Parser.t_newEntries acc);
     Parser.t_skipped := Parser.t_skipped acc;
     Parser.t_currentRole := Parser.t_currentRole acc;
     Parser.t_entryIndex := S (Parser.t_entryIndex acc) |}.

Lemma insertEntry_fresh conv h idx role text ts st :
  is_nullish role = false ->
  Parser.entry_exists conv h st = false ->
  Parser.insertEntry conv h idx role text ts st
  = (Ok true,
     with_entries st
       [{| e_id := S (length (entries st)); e_conversation_id := conv;
           e_entry_hash := h; e_entry_index := idx; e_role := role;
           e_content := text; e_timestamp := ts |}]).
Proof.
  intros Hrole Hex. unfold Parser.insertEntry. now rewrite Hrole, Hex.
Qed.

Section ParseEffects.

Variable JSON_parse : string -> option value.
Variable sha256 : string -> string.
Variable sql_min sql_max : list value -> value.
Variable date_diff_seconds : value -> value -> value.

#[local] Abbreviation parseJSONL :=
  (Parser.parseJSONL JSON_parse sha256 sql_min sql_max date_diff_seconds).
#[local] Abbreviation parseTXT :=
  (Parser.parseTXT sha256 sql_min sql_max date_diff_seconds).
#[local] Abbreviation processFile :=
  (Parser.processFile JSON_parse sha256 sql_min sql_max date_diff_seconds).
#[local] Abbreviation parse_line := (Parser.parse_line JSON_parse sha256).
#[local] Abbreviation parse_lines := (Parser.parse_lines JSON_parse sha256).
#[local] Abbreviation updateConversationStats :=
  (Parser.updateConversationStats sql_min sql_max date_diff_seconds).

(** The line decodes to a message with a role and a non-empty text: the
    lines the loop stores or counts as duplicates. *)
Definition accepted_line (line : string) (role : value) (text : string)
    (ts : value) : Prop :=
  exists entry type,
    JSON_parse line = Some entry
    /\ prop entry "type" = Ok type
    /\ Parser.is_message_type type = true
    /\ Parser.extractRole entry = Ok role
    /\ Parser.extractContent entry = Ok (Some text)
    /\ text <> ""
    /\ ts = js_or (prop_opt entry "timestamp") VNull.

(** The three ways a turn of the loop over new lines ends. *)
Lemma parse_line_effect conv line acc st :
  parse_line conv line acc st = (Ok acc, st)
  \/ exists role text ts,
      accepted_line line role text ts
      /\ let h := Parser.hashContent sha256 line in
         (parse_line conv line acc st = (Ok (skipped_line h acc), st)
          \/ parse_line conv line acc st
             = (Ok (stored_line h acc),
                with_entries st
                  [{| e_id := S (length (entries st));
                      e_conversation_id := conv; e_entry_hash := h;
                      e_entry_index := Parser.entryIndex acc; e_role := role;
                      e_content := text; e_timestamp := ts |}])).
Proof.
  unfold Parser.parse_line, try_or, Parser.parse_line_body.
  destruct (JSON_parse line) as [entry|] eqn:Hparse; [|now left].
  unfold bind, lift.
  destruct (prop entry "type") as [type|] eqn:Htype; [|now left].
  destruct (Parser.is_message_type type) eqn:Hmsg; cbn [negb]; [|now left].
  destruct (Parser.extractRole entry) as [role|] eqn:Hrole; [|now left].
  destruct (Parser.extractContent entry) as [[text|]|] eqn:Htext;
    [|now left|now left].
  destruct (str_empty text) eqn:Hne; [now left|].
  rewrite (prop_defined _ _ _ "timestamp" Htype).
  right. exists role, text, (js_or (prop_opt entry "timestamp") VNull).
  split.
  { exists entry, type. repeat split; auto.
    intros ->. discriminate. }
  cbn zeta.
  destruct (Parser.entry_exists conv (Parser.hashContent sha256 line) st) eqn:Hex.
  - left. rewrite (insertEntry_duplicate _ _ _ _ _ _ _ Hex).
    now rewrite (extractRole_not_nullish _ _ Hrole).
  - right. rewrite insertEntry_fresh; auto.
    eapply extractRole_not_nullish; eauto.
Qed.

(** A row stored for one of [lines], with an index between [lo] and [hi]. *)
Definition stored_for (conv : nat) (lines : list string) (lo hi : nat)
    (row : entry_row) : Prop :=
  e_conversation_id row = conv
  /\ lo <= e_entry_index row < hi
  /\ exists line,
      In line lines
      /\ e_entry_hash row = Parser.hashContent sha256 line
      /\ accepted_line line (e_role row) (e_content row) (e_timestamp row).

Lemma stored_for_weaken conv lines lines' lo hi lo' hi' row :
  stored_for conv lines lo hi row ->
  (forall line, In line lines -> In line lines') ->
  lo' <= lo -> hi <= hi' ->
  stored_for conv lines' lo' hi' row.
Proof.
  intros (Hc & Hi & line & Hin & Hh & Hacc) Hsub Hlo Hhi.
  split; [exact Hc|]. split; [lia|]. exists line. auto.
Qed.

(** The loop over new lines: the rows it appends and the counters it
    returns. *)
Definition lines_batch (conv : nat) (lines : list string)
    (acc : Parser.parse_acc) (st : store) (acc' : Parser.parse_acc)
    (rows : list entry_row) : Prop :=
    parse_lines conv lines acc st = (Ok acc', with_entries st rows)
    /\ Parser.newEntries acc' = Parser.newEntries acc + length rows
    /\ Parser.skipped acc <= Parser.skipped acc'
    /\ Parser.entryIndex acc' + Parser.skipped acc
       = Parser.entryIndex acc + length rows + Parser.skipped acc'
    /\ Parser.entryIndex acc' <= Parser.entryIndex acc + length lines
    /\ Forall (stored_for conv lines (Parser.entryIndex acc)
                 (Parser.entryIndex acc')) rows
    /\ StronglySorted lt (map e_entry_index rows)
    /\ map e_id rows = seq (S (length (entries st))) (length rows).

Lemma parse_lines_effect conv lines acc st :
  exists acc' rows, lines_batch conv lines acc st acc' rows.
Proof.
  unfold lines_batch.
  revert acc st. induction lines as [|line rest IH]; intros acc st.
  - exists acc, []. cbn. rewrite with_entries_nil.
    repeat split; auto; try lia. constructor.
  - cbn [Parser.parse_lines].
    destruct (parse_line_effect conv line acc st)
      as [E|(role & text & ts & Hacc & [E|E])]; cbn zeta in E;
      rewrite (bind_ok _ _ _ _ _ E);
      match goal with
      | |- context [Parser.parse_lines _ _ _ _ ?a ?s] =>
          destruct (IH a s) as (acc' & rows & Erun & Hn & Hs & Hi & Hb & Hf & Hsort & Hid)
      end.
    + exists acc', rows. cbn [length]. repeat split; auto; try lia.
      eapply Forall_impl; [exact Hf|]. intros row Hrow.
      eapply stored_for_weaken; eauto. intros l Hl. now right.
    + cbn in Hn, Hs, Hi, Hb. exists acc', rows. cbn [length].
      repeat split; auto; try lia.
      eapply Forall_impl; [exact Hf|]. intros row Hrow.
      eapply stored_for_weaken; eauto; [intros l Hl; now right|cbn; lia].
    + cbn in Hn, Hs, Hi, Hb. rewrite with_entries_app in Erun.
      eexists acc', (_ :: rows). split; [exact Erun|].
      cbn [length map e_entry_index e_id].
      repeat split; auto; try lia.
      * constructor.
        -- split; [reflexivity|]. cbn [e_entry_index]. split; [lia|].
           exists line. cbn. auto.
        -- eapply Forall_impl; [exact Hf|]. intros row Hrow.
           eapply stored_for_weaken; eauto; [intros l Hl; now right|cbn; lia].
      * constructor; [exact Hsort|].
        apply Forall_forall. intros i Hin. apply list_elem_of_In in Hin.
        apply in_map_iff in Hin as (row & <- & Hin).
        rewrite Forall_forall in Hf.
        apply list_elem_of_In in Hin.
        destruct (Hf row Hin) as (_ & Hrange & _). cbn in Hrange. lia.
      * cbn [seq]. f_equal. rewrite Hid. cbn [with_entries entries].
        rewrite length_app. cbn. f_equal. lia.
Qed.

(** The session identifier [parseJSONL] settles on: the first one a line
    carries, else the file name without its extension. *)
Definition session_of (filePath : string) (lines : list string) : value :=
  let found := Parser.find_session JSON_parse lines in
  if truthy (fst found) then fst found
  else VStr (Parser.remove_first ".jsonl" (Parser.last_segment filePath)).

(** The store after the project was attached to a conversation that had
    none. *)
Definition attach_project (projectId : value) (conversation : conversation_row)
    (st : store) : store :=
  if truthy projectId && negb (truthy (c_project_id conversation))
  then snd (Parser.set_project projectId (c_id conversation) st) else st.

(** The store after the checkpoint and the statistics were written. *)
Definition close_parse (filePath : string) (n : nat) (h : option string)
    (conv : nat) (st : store) : store :=
  snd (updateConversationStats conv
         (snd (Parser.updateParseState filePath n h st))).

(** A parse of an event log with lines beyond its checkpoint, step by step. *)
Lemma parseJSONL_run fs filePath projectId st content :
  fs filePath = Some content ->
  checkpoint st filePath < length (nonblank_lines content) ->
  let lines := nonblank_lines content in
  let start := checkpoint st filePath in
  exists conversation st1 acc rows,
    Parser.findOrCreateConversation (session_of filePath lines) filePath "jsonl"
      (snd (Parser.find_session JSON_parse lines)) st = (Ok conversation, st1)
    /\ lines_batch (c_id conversation) (drop start lines)
         {| Parser.newEntries := 0; Parser.skipped := 0;
            Parser.entryIndex := start; Parser.lastHash := None |}
         (attach_project projectId conversation st1) acc rows
    /\ parseJSONL fs filePath projectId st
       = (Ok (Parser.ParseDone (c_id conversation) (session_of filePath lines)
                (Parser.newEntries acc) (Parser.skipped acc)
                (Some (length lines))),
          close_parse filePath (length lines) (Parser.lastHash acc)
            (c_id conversation)
            (with_entries (attach_project projectId conversation st1) rows)).
Proof.
  intros Hfs Hlt lines start. unfold Parser.parseJSONL. rewrite Hfs.
  rewrite bind_getParseState. cbn beta zeta. fold (checkpoint st filePath).
  fold lines. fold start. fold (session_of filePath lines).
  destruct (length lines <=? start)%nat eqn:Hle;
    [apply Nat.leb_le in Hle; unfold lines, start in Hle; lia|].
  destruct (findOrCreateConversation_returns (session_of filePath lines)
              filePath "jsonl" (snd (Parser.find_session JSON_parse lines)) st)
    as [conversation Hc].
  destruct (Parser.findOrCreateConversation _ _ _ _ st) as [r st1] eqn:E1.
  cbn in Hc. subst r. exists conversation, st1.
  rewrite (bind_ok _ _ _ _ _ E1).
  destruct (parse_lines_effect (c_id conversation) (drop start lines)
              {| Parser.newEntries := 0; Parser.skipped := 0;
                 Parser.entryIndex := start; Parser.lastHash := None |}
              (attach_project projectId conversation st1))
    as (acc & rows & Hbatch).
  exists acc, rows. split; [reflexivity|]. split; [exact Hbatch|].
  destruct Hbatch as (Erun & _).
  assert (E2 : (if truthy projectId && negb (truthy (c_project_id conversation))
                then Parser.set_project projectId (c_id conversation)
                else ret tt) st1
               = (Ok tt, attach_project projectId conversation st1)).
  { unfold attach_project. now destruct (_ && _). }
  rewrite (bind_ok _ _ _ _ _ E2). rewrite (bind_ok _ _ _ _ _ Erun).
  assert (Hstart : (start <? length lines)%nat = true)
    by (apply Nat.ltb_lt; exact Hlt).
  rewrite Hstart, orb_true_r. reflexivity.
Qed.


(** *** Plain-text transcripts *)

Definition with_role (role : string) (acc : Parser.txt_acc) : Parser.txt_acc :=
  {| Parser.t_newEntries := Parser.t_newEntries acc;
     Parser.t_skipped := Parser.t_skipped acc;
     Parser.t_currentRole := role;
     Parser.t_entryIndex := Parser.t_entryIndex acc |}.

(** A block that is a speaker turn's text: not a marker and not empty. *)
Definition plain_block (block : string) : Prop :=
  block <> "Human:" /\ block <> ">" /\ block <> "Assistant:" /\ block <> "".

Lemma txt_block_effect conv raw acc st :
  let block := trim raw in
  let run := Parser.txt_block sha256 conv raw acc st in
  ((block = "Human:" \/ block = ">") /\ run = (Ok (with_role "user" acc), st))
  \/ (block = "Assistant:" /\ run = (Ok (with_role "assistant" acc), st))
  \/ (block = "" /\ run = (Ok acc, st))
  \/ (plain_block block
      /\ (run = (Ok (skipped_block acc), st)
          \/ run = (Ok (stored_block acc),
                    with_entries st
                      [{| e_id := S (length (entries st));
                          e_conversation_id := conv;
                          e_entry_hash := Parser.hashContent sha256 block;
                          e_entry_index := Parser.t_entryIndex acc;
                          e_role := VStr (Parser.t_currentRole acc);
                          e_content := block; e_timestamp := VNull |}]))).
Proof.
  cbn zeta. unfold Parser.txt_block.
  destruct (String.eqb_spec (trim raw) "Human:") as [H1|H1];
    [left; split; [now left|reflexivity]|].
  destruct (String.eqb_spec (trim raw) ">") as [H2|H2];
    [left; split; [now right|reflexivity]|].
  cbn [orb].
  destruct (String.eqb_spec (trim raw) "Assistant:") as [H3|H3];
    [right; left; split; [assumption|reflexivity]|].
  destruct (str_empty (trim raw)) eqn:H4;
    [apply str_empty_true in H4; right; right; left;
     split; [assumption|reflexivity]|].
  right; right; right. split.
  { repeat split; auto. intros E. rewrite E in H4. discriminate. }
  unfold bind.
  destruct (Parser.entry_exists conv (Parser.hashContent sha256 (trim raw)) st)
    eqn:Hex.
  - left. now rewrite (insertEntry_duplicate _ _ _ _ _ _ _ Hex).
  - right. now rewrite insertEntry_fresh.
Qed.

(** A row stored for one of [blocks]: its content is the trimmed block, its
    hash the hash of that content, its role the speaker at the start of the
    run or one a marker names, and it has no timestamp. *)
Definition block_row (conv : nat) (blocks : list string) (speaker : string)
    (lo hi : nat) (row : entry_row) : Prop :=
  e_conversation_id row = conv
  /\ lo <= e_entry_index row < hi
  /\ (e_role row = VStr speaker \/ e_role row = VStr "user"
      \/ e_role row = VStr "assistant")
  /\ e_timestamp row = VNull
  /\ e_entry_hash row = Parser.hashContent sha256 (e_content row)
  /\ plain_block (e_content row)
  /\ exists raw, In raw blocks /\ e_content row = trim raw.

Lemma block_row_weaken conv blocks blocks' speaker speaker' lo hi lo' hi' row :
  block_row conv blocks speaker lo hi row ->
  (forall raw, In raw blocks -> In raw blocks') ->
  (speaker = speaker' \/ speaker = "user" \/ speaker = "assistant") ->
  lo' <= lo -> hi <= hi' ->
  block_row conv blocks' speaker' lo' hi' row.
Proof.
  intros (Hc & Hi & Hr & Ht & Hh & Hp & raw & Hin & Hraw) Hsub Hs Hlo Hhi.
  split; [exact Hc|]. split; [lia|]. split.
  { destruct Hr as [->|Hr]; [|now right].
    destruct Hs as [->|[->| ->]]; auto. }
  repeat split; try apply Hp; auto. exists raw. auto.
Qed.

Definition blocks_batch (conv : nat) (blocks : list string)
    (acc : Parser.txt_acc) (st : store) (acc' : Parser.txt_acc)
    (rows : list entry_row) : Prop :=
    Parser.txt_blocks sha256 conv blocks acc st = (Ok acc', with_entries st rows)
    /\ Parser.t_newEntries acc' = Parser.t_newEntries acc + length rows
    /\ Parser.t_skipped acc <= Parser.t_skipped acc'
    /\ Parser.t_entryIndex acc' + Parser.t_skipped acc
       = Parser.t_entryIndex acc + length rows + Parser.t_skipped acc'
    /\ Parser.t_entryIndex acc' <= Parser.t_entryIndex acc + length blocks
    /\ Forall (block_row conv blocks (Parser.t_currentRole acc)
                 (Parser.t_entryIndex acc) (Parser.t_entryIndex acc')) rows
    /\ StronglySorted lt (map e_entry_index rows)
    /\ map e_id rows = seq (S (length (entries st))) (length rows).

Lemma txt_blocks_effect conv blocks acc st :
  exists acc' rows, blocks_batch conv blocks acc st acc' rows.
Proof.
  unfold blocks_batch.
  revert acc st. induction blocks as [|raw rest IH]; intros acc st.
  - exists acc, []. cbn. rewrite with_entries_nil.
    repeat split; auto; try lia. constructor.
  - cbn [Parser.txt_blocks].
    destruct (txt_block_effect conv raw acc st)
      as [[_ E]|[[_ E]|[[_ E]|[Hplain [E|E]]]]]; cbn zeta in E;
      rewrite (bind_ok _ _ _ _ _ E);
      match goal with
      | |- context [Parser.txt_blocks _ _ _ ?a ?s] =>
          destruct (IH a s)
            as (acc' & rows & Erun & Hn & Hs & Hi & Hb & Hf & Hsort & Hid)
      end;
      cbn in Hn, Hs, Hi, Hb;
      try (exists acc', rows; cbn [length]; repeat split; auto; try lia;
           eapply Forall_impl; [exact Hf|]; intros row Hrow;
           eapply block_row_weaken;
           [exact Hrow|intros l Hl; now right|cbn; auto|cbn; lia|lia]).
    rewrite with_entries_app in Erun.
    eexists acc', (_ :: rows). split; [exact Erun|].
    cbn [length map e_entry_index e_id].
    repeat split; auto; try lia.
    + constructor.
      * split; [reflexivity|]. cbn [e_entry_index]. split; [lia|].
        cbn [e_role e_timestamp e_entry_hash e_content].
        repeat split; auto; try apply Hplain.
        exists raw. split; [now left|reflexivity].
      * eapply Forall_impl; [exact Hf|]. intros row Hrow.
        eapply block_row_weaken;
          [exact Hrow|intros l Hl; now right|cbn; auto|cbn; lia|lia].
    + constructor; [exact Hsort|].
      apply Forall_forall. intros i Hin. apply list_elem_of_In in Hin.
      apply in_map_iff in Hin as (row & <- & Hin).
      rewrite Forall_forall in Hf. apply list_elem_of_In in Hin.
      destruct (Hf row Hin) as (_ & Hrange & _). cbn in Hrange. lia.
    + cbn [seq]. f_equal. rewrite Hid. cbn [with_entries entries].
      rewrite length_app. cbn. f_equal. lia.
Qed.

(** The whole-file hash in the checkpoint of a plain-text file equals the
    hash of [content]. *)
Definition txt_unchanged (st : store) (filePath content : string) : bool :=
  match parse_states st !! filePath with
  | Some row =>
      match last_entry_hash row with
      | Some h => String.eqb h (Parser.hashContent sha256 content)
      | None => false
      end
  | None => false
  end.

(** The blocks of a plain-text file the loop runs over. *)
Definition txt_blocks_of (content : string) : list string :=
  List.filter (fun s => negb (str_empty (trim s))) (Parser.split_roles content).

Definition txt_session (filePath : string) : value :=
  VStr ("txt-" ++ Parser.remove_first ".txt" (Parser.last_segment filePath)).

Lemma parseTXT_run fs filePath projectId st content :
  fs filePath = Some content ->
  txt_unchanged st filePath content = false ->
  exists conversation st1 acc rows,
    Parser.findOrCreateConversation (txt_session filePath) filePath "txt"
      Parser.no_metadata st = (Ok conversation, st1)
    /\ blocks_batch (c_id conversation) (txt_blocks_of content)
         {| Parser.t_newEntries := 0; Parser.t_skipped := 0;
            Parser.t_currentRole := "user"; Parser.t_entryIndex := 0 |}
         (attach_project projectId conversation st1) acc rows
    /\ parseTXT fs filePath projectId st
       = (Ok (Parser.ParseDone (c_id conversation) (txt_session filePath)
                (Parser.t_newEntries acc) (Parser.t_skipped acc) None),
          close_parse filePath 0 (Some (Parser.hashContent sha256 content))
            (c_id conversation)
            (with_entries (attach_project projectId conversation st1) rows)).
Proof.
  intros Hfs Hne. unfold Parser.parseTXT. rewrite Hfs.
  rewrite bind_getParseState. cbn beta zeta.
  unfold txt_unchanged in Hne. rewrite Hne.
  fold (txt_session filePath). fold (txt_blocks_of content).
  destruct (findOrCreateConversation_returns (txt_session filePath)
              filePath "txt" Parser.no_metadata st) as [conversation Hc].
  destruct (Parser.findOrCreateConversation _ _ _ _ st) as [r st1] eqn:E1.
  cbn in Hc. subst r. exists conversation, st1.
  rewrite (bind_ok _ _ _ _ _ E1).
  destruct (txt_blocks_effect (c_id conversation) (txt_blocks_of content)
              {| Parser.t_newEntries := 0; Parser.t_skipped := 0;
                 Parser.t_currentRole := "user"; Parser.t_entryIndex := 0 |}
              (attach_project projectId conversation st1))
    as (acc & rows & Hbatch).
  exists acc, rows. split; [reflexivity|]. split; [exact Hbatch|].
  destruct Hbatch as (Erun & _).
  assert (E2 : (if truthy projectId && negb (truthy (c_project_id conversation))
                then Parser.set_project projectId (c_id conversation)
                else ret tt) st1
               = (Ok tt, attach_project projectId conversation st1)).
  { unfold attach_project. now destruct (_ && _). }
  rewrite (bind_ok _ _ _ _ _ E2). rewrite (bind_ok _ _ _ _ _ Erun).
  reflexivity.
Qed.

Lemma parseTXT_same fs filePath projectId st content :
  fs filePath = Some content ->
  txt_unchanged st filePath content = true ->
  parseTXT fs filePath projectId st = (Ok Parser.ParseUnchanged, st).
Proof.
  intros Hfs He. unfold Parser.parseTXT. rewrite Hfs.
  rewrite bind_getParseState. cbn beta zeta.
  unfold txt_unchanged in He. now rewrite He.
Qed.

Lemma parseJSONL_same fs filePath projectId st content :
  fs filePath = Some content ->
  length (nonblank_lines content) <= checkpoint st filePath ->
  parseJSONL fs filePath projectId st = (Ok Parser.ParseUnchanged, st).
Proof.
  intros Hfs Hle. unfold Parser.parseJSONL. rewrite Hfs.
  rewrite bind_getParseState. cbn beta zeta. fold (checkpoint st filePath).
  apply Nat.leb_le in Hle. now rewrite Hle.
Qed.

Lemma attach_project_entries projectId conversation st :
  entries (attach_project projectId conversation st) = entries st.
Proof. unfold attach_project. now destruct (_ && _). Qed.

Lemma attach_project_parse_states projectId conversation st :
  parse_states (attach_project projectId conversation st) = parse_states st.
Proof. unfold attach_project. now destruct (_ && _). Qed.


(** ** A parse of an unchanged file *)



Lemma findOrCreateConversation_run sessionId filePath fileType metadata st
    conversation st1 :
  Parser.findOrCreateConversation sessionId filePath fileType metadata st
  = (Ok conversation, st1) ->
  parse_states st1 = parse_states st /\ entries st1 = entries st
  /\ artifacts st1 = artifacts st.
Proof.
  intros E.
  pose proof (findOrCreateConversation_tables sessionId filePath fileType
                metadata st) as H.
  cbn zeta in H. now rewrite E in H.
Qed.





(** The rows a parse of a plain-text transcript stores.  Each belongs to the
    reported conversation, holds a trimmed block of the file that is neither
    empty nor a bare marker, the hash of that text, the role user or
    assistant and no timestamp.  The sequence indices start at zero and
    increase strictly; as many rows are appended as the parse reports new,
    and the new and the skipped together are at most the blocks of the
    file. *)
Theorem parseTXT_rows (fs : filesystem) (filePath : string)
    (projectId : value) (st st' : store) (cid : nat) (sid : value)
    (new skipped : nat) (total : option nat) :
  parseTXT fs filePath projectId st
  = (Ok (Parser.ParseDone cid sid new skipped total), st') ->
  exists content rows,
    fs filePath = Some content
    /\ sid = txt_session filePath /\ total = None
    /\ entries st' = (entries st ++ rows)%list
    /\ length rows = new
    /\ new + skipped <= length (txt_blocks_of content)
    /\ Forall (block_row cid (txt_blocks_of content) "user" 0 (new + skipped))
              rows
    /\ StronglySorted lt (map e_entry_index rows)
    /\ map e_id rows = seq (S (length (entries st))) (length rows).
Proof.
  intros Hrun. destruct (fs filePath) as [content|] eqn:Hfs.
  - destruct (txt_unchanged st filePath content) eqn:Hu.
    + rewrite (parseTXT_same _ _ _ _ _ Hfs Hu) in Hrun. discriminate.
    + destruct (parseTXT_run fs filePath projectId st content Hfs Hu)
        as (conversation & st1 & acc & rows & E1 & Hbatch & E).
      rewrite E in Hrun. injection Hrun as <- <- <- <- <- <-.
      destruct Hbatch as (_ & Hn & _ & Hi & Hb & Hf & Hsort & Hid).
      cbn in Hn, Hi, Hb, Hf.
      destruct (findOrCreateConversation_run _ _ _ _ _ _ _ E1)
        as (_ & He & _).
      exists content, rows. split; [reflexivity|].
      rewrite attach_project_entries, He in Hid.
      repeat split; auto; try lia.
      * unfold close_parse. cbn. now rewrite attach_project_entries, He.
      * eapply Forall_impl; [exact Hf|]. intros row Hrow.
        eapply block_row_weaken; [exact Hrow|auto|auto|lia|lia].
  - unfold Parser.parseTXT in Hrun. rewrite Hfs in Hrun. discriminate.
Qed.


(** *** The conversation of a parse *)

Definition conv_key (c : conversation_row) : nat * value :=
  (c_id c, c_conversation_id c).

Lemma set_stats_key conv count started ended duration c :
  conv_key (Parser.set_stats conv count started ended duration c) = conv_key c.
Proof. unfold Parser.set_stats. now destruct (Nat.eqb _ _). Qed.

Lemma attach_project_keys projectId conversation st :
  map conv_key (conversations (attach_project projectId conversation st))
  = map conv_key (conversations st).
Proof.
  unfold attach_project. destruct (_ && _); [|reflexivity].
  cbn. rewrite map_map. apply map_ext. intros c. now destruct (Nat.eqb _ _).
Qed.

Lemma close_parse_keys filePath n h conv st :
  map conv_key (conversations (close_parse filePath n h conv st))
  = map conv_key (conversations st).
Proof.
  unfold close_parse. cbn. rewrite map_map. apply map_ext. intros c.
  apply set_stats_key.
Qed.



(** What a parse does to the ids and session identifiers of the
    conversations: nothing, or it appends a conversation whose session
    identifier no stored conversation has. *)
Lemma processFile_keys fs filePath projectId st :
  let st' := snd (processFile fs filePath projectId st) in
  map conv_key (conversations st') = map conv_key (conversations st)
  \/ exists sid,
      Parser.find_conversation sid st = None
      /\ map conv_key (conversations st')
         = (map conv_key (conversations st)
              ++ [(S (length (conversations st)), sid)])%list.
Proof.
  cbn zeta.
  assert (Hfoc : forall sessionId fileType metadata conversation st1,
             Parser.findOrCreateConversation sessionId filePath fileType
               metadata st = (Ok conversation, st1) ->
             map conv_key (conversations st1) = map conv_key (conversations st)
             \/ exists sid,
                 Parser.find_conversation sid st = None
                 /\ map conv_key (conversations st1)
                    = (map conv_key (conversations st)
                         ++ [(S (length (conversations st)), sid)])%list).
  { intros sessionId fileType metadata conversation st1.
    unfold Parser.findOrCreateConversation.
    destruct (Parser.find_conversation sessionId st) as [c|] eqn:Hfind.
    - intros [= <- <-]. now left.
    - intros [= <- <-]. right. exists sessionId. split; [exact Hfind|].
      cbn. now rewrite map_app. }
  unfold Parser.processFile.
  destruct (String.eqb (Parser.extension filePath) "jsonl").
  - destruct (fs filePath) as [content|] eqn:Hfs;
      [|unfold Parser.parseJSONL; rewrite Hfs; now left].
    destruct (le_lt_dec (length (nonblank_lines content))
                (checkpoint st filePath)) as [Hle|Hlt];
      [rewrite (parseJSONL_same _ _ _ _ _ Hfs Hle); now left|].
    destruct (parseJSONL_run fs filePath projectId st content Hfs Hlt)
      as (conversation & st1 & acc & rows & E1 & _ & ->).
    cbn [snd]. rewrite close_parse_keys. cbn [with_entries conversations].
    rewrite attach_project_keys. eapply Hfoc; eauto.
  - destruct (String.eqb (Parser.extension filePath) "txt"); [|now left].
    destruct (fs filePath) as [content|] eqn:Hfs;
      [|unfold Parser.parseTXT; rewrite Hfs; now left].
    destruct (txt_unchanged st filePath content) eqn:Hu;
      [rewrite (parseTXT_same _ _ _ _ _ Hfs Hu); now left|].
    destruct (parseTXT_run fs filePath projectId st content Hfs Hu)
      as (conversation & st1 & acc & rows & E1 & _ & ->).
    cbn [snd]. rewrite close_parse_keys. cbn [with_entries conversations].
    rewrite attach_project_keys. eapply Hfoc; eauto.
Qed.

End ParseEffects.

(** ** Conversations are told apart *)

(** The ids count the rows from 1, and no two rows have session identifiers
    that the lookup by session takes for the same. *)
Definition conversations_distinct (keys : list (nat * value)) : Prop :=
  map fst keys = seq 1 (length keys) /\ distinct_values (map snd keys).

Lemma conversations_distinct_snoc keys sid :
  conversations_distinct keys ->
  (forall k, In k keys -> same_value_zero (snd k) sid = false) ->
  conversations_distinct (keys ++ [(S (length keys), sid)]).
Proof.
  intros [Hids Hsids] Hnew. split.
  - rewrite map_app, length_app, Hids. cbn [length map fst].
    rewrite Nat.add_1_r, seq_S. reflexivity.
  - rewrite map_app. apply distinct_values_snoc; [exact Hsids|].
    intros a Ha. apply in_map_iff in Ha as (k & <- & Hk). auto.
Qed.

Lemma find_unique {A} (p : A -> bool) (l : list A) (c : A) :
  In c l -> p c = true ->
  (forall i j x, l !! i = Some x -> l !! j = Some c -> p x = true -> i = j) ->
  List.find p l = Some c.
Proof.
  intros Hin Hp Huniq. destruct (List.find p l) as [x|] eqn:Hf.
  - apply find_some in Hf as [Hx Hpx].
    apply list_elem_of_In, list_elem_of_lookup_1 in Hx as [i Hi].
    apply list_elem_of_In, list_elem_of_lookup_1 in Hin as [j Hj].
    rewrite (Huniq i j x Hi Hj Hpx) in Hi. congruence.
  - rewrite (find_none _ _ Hf c Hin) in Hp. discriminate.
Qed.

Section ConversationIdentity.

Variable JSON_parse : string -> option value.
Variable sha256 : string -> string.
Variable sql_min sql_max : list value -> value.
Variable date_diff_seconds : value -> value -> value.
Variable order_by_entry_index : list entry_row -> list entry_row.

#[local] Abbreviation reachable_store :=
  (reachable JSON_parse sha256 sql_min sql_max date_diff_seconds
             order_by_entry_index).

Lemma reachable_conversations_distinct st :
  reachable_store st ->
  conversations_distinct (map conv_key (conversations st)).
Proof.
  induction 1 as [|st fs filePath projectId _ IH|st fs conv _ IH].
  - split; [reflexivity|]. intros i j k k' Hi. discriminate.
  - destruct (processFile_keys JSON_parse sha256 sql_min sql_max
                date_diff_seconds fs filePath projectId st)
      as [->|(sid & Hnone & ->)]; [exact IH|].
    replace (length (conversations st))
      with (length (map conv_key (conversations st)))
      by apply length_map.
    apply conversations_distinct_snoc; [exact IH|].
    intros k Hk. apply in_map_iff in Hk as (c & <- & Hc).
    exact (find_none _ _ Hnone c Hc).
  - destruct (processConversationEntries_types JSON_parse sha256
                order_by_entry_index fs conv st) as (_ & _ & Hc & _).
    now rewrite Hc.
Qed.

(** In every store that parsing and extraction lead to, the ids of the
    conversations count the rows from 1, and [getConversation] on the id of
    a stored conversation returns that conversation; so does the lookup by
    session identifier of [findOrCreateConversation] when the identifier is
    a primitive value, and then [findOrCreateConversation] returns the row
    and leaves the store as it is. *)
Theorem conversation_identity (st : store) (c : conversation_row) :
  reachable_store st ->
  In c (conversations st) ->
  map c_id (conversations st) = seq 1 (length (conversations st))
  /\ Queries.getConversation (c_id c) st = Some c
  /\ (same_value_zero (c_conversation_id c) (c_conversation_id c) = true ->
      Parser.find_conversation (c_conversation_id c) st = Some c
      /\ forall filePath fileType metadata,
          Parser.findOrCreateConversation (c_conversation_id c) filePath
            fileType metadata st = (Ok c, st)).
Proof.
  intros Hreach Hin.
  destruct (reachable_conversations_distinct st Hreach) as [Hids Hsids].
  rewrite map_map, length_map in Hids.
  change (map c_id (conversations st) = seq 1 (length (conversations st)))
    in Hids.
  assert (Hfind : same_value_zero (c_conversation_id c) (c_conversation_id c)
                  = true ->
                  Parser.find_conversation (c_conversation_id c) st = Some c).
  { intros Hprim. apply find_unique; auto.
    intros i j x Hi Hj Hx.
    apply (Hsids i j (c_conversation_id x) (c_conversation_id c)); auto.
    - now rewrite !lookup_map, Hi.
    - now rewrite !lookup_map, Hj. }
  split; [exact Hids|]. split.
  - apply find_unique; auto; [apply Nat.eqb_refl|].
    intros i j x Hi Hj Hx. apply Nat.eqb_eq in Hx.
    assert (NoDup (map c_id (conversations st)))
      by (rewrite Hids; apply NoDup_seq).
    apply (NoDup_lookup (map c_id (conversations st)) i j (c_id c));
      [assumption| |].
    + rewrite lookup_map, Hi. cbn. now rewrite Hx.
    + now rewrite lookup_map, Hj.
  - intros Hprim. split; [auto|]. intros filePath fileType metadata.
    unfold Parser.findOrCreateConversation. now rewrite (Hfind Hprim).
Qed.

End ConversationIdentity.

(** ** The session of an event log *)

Section Sessions.

Variable JSON_parse : string -> option value.

(** The session identifier and metadata a line carries, if it carries a
    truthy identifier. *)
Definition carries_session (line : string)
  : option (value * Parser.session_metadata) :=
  match JSON_parse line with
  | Some entry =>
      match prop entry "sessionId" with
      | Ok sid =>
          if truthy sid then
            Some (sid,
                  {| Parser.md_version := prop_opt entry "version";
                     Parser.md_gitBranch := prop_opt entry "gitBranch";
                     Parser.md_cwd := prop_opt entry "cwd";
                     Parser.md_model := prop_opt entry "model" |})
          else None
      | Throw => None
      end
  | None => None
  end.

Lemma session_step_spec acc line :
  Parser.session_step JSON_parse acc line
  = if truthy (fst acc) then acc
    else match carries_session line with Some found => found | None => acc end.
Proof.
  unfold Parser.session_step, carries_session.
  destruct (JSON_parse line) as [entry|]; [|now destruct (truthy (fst acc))].
  destruct (prop entry "sessionId") as [sid|]; [|now destruct (truthy (fst acc))].
  destruct (truthy sid), (truthy (fst acc)); reflexivity.
Qed.

Lemma session_fold_found lines acc :
  truthy (fst acc) = true ->
  fold_left (Parser.session_step JSON_parse) lines acc = acc.
Proof.
  revert acc. induction lines as [|line rest IH]; intros acc Hacc; [reflexivity|].
  cbn [fold_left]. rewrite session_step_spec, Hacc. now apply IH.
Qed.

Lemma carries_session_truthy line found :
  carries_session line = Some found -> truthy (fst found) = true.
Proof.
  unfold carries_session.
  destruct (JSON_parse line) as [entry|]; [|discriminate].
  destruct (prop entry "sessionId") as [sid|]; [|discriminate].
  destruct (truthy sid) eqn:Hsid; [|discriminate]. now intros [= <-].
Qed.

Lemma session_fold_none lines acc :
  Forall (fun line => carries_session line = None) lines ->
  fold_left (Parser.session_step JSON_parse) lines acc = acc.
Proof.
  intros Hnone. revert acc.
  induction Hnone as [|line rest Hline _ IH]; intros acc; [reflexivity|].
  cbn [fold_left]. rewrite session_step_spec, Hline.
  destruct (truthy (fst acc)); apply IH.
Qed.

(** The session of an event log is the identifier of the first line that
    carries a truthy one, with the metadata of that line; identifiers of
    later lines are ignored, lines appended to a file that has a session do
    not change it, and a file none of whose lines carries one has no session
    of its own. *)
Theorem session_of_first_line (lines : list string) :
  (forall before line after found,
      lines = (before ++ line :: after)%list ->
      Forall (fun l => carries_session l = None) before ->
      carries_session line = Some found ->
      Parser.find_session JSON_parse lines = found)
  /\ (Forall (fun l => carries_session l = None) lines ->
      Parser.find_session JSON_parse lines = (VNull, Parser.no_metadata))
  /\ (forall more,
         truthy (fst (Parser.find_session JSON_parse lines)) = true ->
         Parser.find_session JSON_parse (lines ++ more)
         = Parser.find_session JSON_parse lines).
Proof.
  unfold Parser.find_session. split; [|split].
  - intros before line after found -> Hbefore Hline.
    rewrite fold_left_app, (session_fold_none _ _ Hbefore).
    cbn [fold_left]. rewrite session_step_spec, Hline. cbn [fst truthy].
    apply session_fold_found. eapply carries_session_truthy; eauto.
  - intros Hnone. now apply session_fold_none.
  - intros more Hfound. rewrite fold_left_app. now apply session_fold_found.
Qed.

End Sessions.

(** ** Parsing a file as it grows *)

(** Two rows that differ at most in their sequence index. *)
Definition same_but_index (r r' : entry_row) : Prop :=
  e_id r = e_id r' /\ e_conversation_id r = e_conversation_id r'
  /\ e_entry_hash r = e_entry_hash r' /\ e_role r = e_role r'
  /\ e_content r = e_content r' /\ e_timestamp r = e_timestamp r'.

Lemma same_but_index_refl rows : Forall2 same_but_index rows rows.
Proof. induction rows; constructor; auto. repeat split. Qed.

Lemma entry_exists_same conv h st st' :
  Forall2 same_but_index (entries st) (entries st') ->
  Parser.entry_exists conv h st = Parser.entry_exists conv h st'.
Proof.
  unfold Parser.entry_exists.
  induction 1 as [|r r' rows rows' (_ & Hc & Hh & _) _ IH]; [reflexivity|].
  cbn. now rewrite Hc, Hh, IH.
Qed.

Section Incremental.

Variable JSON_parse : string -> option value.
Variable sha256 : string -> string.
Variable sql_min sql_max : list value -> value.
Variable date_diff_seconds : value -> value -> value.

#[local] Abbreviation parseJSONL :=
  (Parser.parseJSONL JSON_parse sha256 sql_min sql_max date_diff_seconds).
#[local] Abbreviation parse_line := (Parser.parse_line JSON_parse sha256).
#[local] Abbreviation parse_lines := (Parser.parse_lines JSON_parse sha256).

(** The role, text and timestamp of a line the loop accepts. *)
Definition accepted (line : string) : option (value * string * value) :=
  match JSON_parse line with
  | None => None
  | Some entry =>
      match prop entry "type" with
      | Throw => None
      | Ok type =>
          if Parser.is_message_type type then
            match Parser.extractRole entry, Parser.extractContent entry with
            | Ok role, Ok (Some text) =>
                if str_empty text then None
                else Some (role, text, js_or (prop_opt entry "timestamp") VNull)
            | _, _ => None
            end
          else None
      end
  end.

Lemma parse_line_spec conv line acc st :
  parse_line conv line acc st
  = match accepted line with
    | None => (Ok acc, st)
    | Some (role, text, ts) =>
        let h := Parser.hashContent sha256 line in
        if Parser.entry_exists conv h st then (Ok (skipped_line h acc), st)
        else (Ok (stored_line h acc),
              with_entries st
                [{| e_id := S (length (entries st));
                    e_conversation_id := conv; e_entry_hash := h;
                    e_entry_index := Parser.entryIndex acc; e_role := role;
                    e_content := text; e_timestamp := ts |}])
    end.
Proof.
  unfold Parser.parse_line, try_or, Parser.parse_line_body, accepted.
  destruct (JSON_parse line) as [entry|] eqn:Hparse; [|reflexivity].
  unfold bind, lift.
  destruct (prop entry "type") as [type|] eqn:Htype; [|reflexivity].
  destruct (Parser.is_message_type type) eqn:Hmsg; cbn [negb]; [|reflexivity].
  destruct (Parser.extractRole entry) as [role|] eqn:Hrole; [|reflexivity].
  destruct (Parser.extractContent entry) as [[text|]|] eqn:Htext;
    [|reflexivity|reflexivity].
  destruct (str_empty text) eqn:Hne; [reflexivity|].
  rewrite (prop_defined _ _ _ "timestamp" Htype). cbn zeta.
  destruct (Parser.entry_exists conv (Parser.hashContent sha256 line) st) eqn:Hex.
  - rewrite (insertEntry_duplicate _ _ _ _ _ _ _ Hex).
    now rewrite (extractRole_not_nullish _ _ Hrole).
  - rewrite insertEntry_fresh; auto.
    eapply extractRole_not_nullish; eauto.
Qed.

Lemma parse_lines_app conv l1 l2 acc st :
  parse_lines conv (l1 ++ l2) acc st
  = bind (parse_lines conv l1 acc) (parse_lines conv l2) st.
Proof.
  revert acc st. induction l1 as [|line rest IH]; intros acc st; [reflexivity|].
  cbn [app Parser.parse_lines]. unfold bind.
  destruct (Parser.parse_line _ _ conv line acc st) as [[acc1|] st1];
    [|reflexivity].
  rewrite IH. reflexivity.
Qed.

(** The loop stores the same rows, up to their indices, whatever the
    counters it starts from, in stores whose entries agree up to indices. *)
Lemma parse_lines_same_rows conv lines acc acc' st st' :
  Forall2 same_but_index (entries st) (entries st') ->
  Forall2 same_but_index
    (entries (snd (parse_lines conv lines acc st)))
    (entries (snd (parse_lines conv lines acc' st'))).
Proof.
  revert acc acc' st st'.
  induction lines as [|line rest IH]; intros acc acc' st st' Hsame;
    [exact Hsame|].
  cbn [Parser.parse_lines]. unfold bind. rewrite !parse_line_spec.
  destruct (accepted line) as [[[role text] ts]|]; [|now apply IH].
  cbn zeta. rewrite (entry_exists_same conv _ st st' Hsame).
  destruct (Parser.entry_exists conv _ st'); apply IH; [exact Hsame|].
  cbn [with_entries entries]. apply Forall2_app; [exact Hsame|].
  constructor; [|constructor]. unfold same_but_index. cbn.
  rewrite (Forall2_length _ _ _ Hsame). repeat split.
Qed.

Lemma find_snoc {A} (p : A -> bool) (l : list A) (x : A) :
  List.find p l = None -> List.find p (l ++ [x]) = if p x then Some x else None.
Proof.
  induction l as [|y l IH]; cbn; [reflexivity|].
  destruct (p y); [discriminate|exact IH].
Qed.

Lemma find_by_key (p : nat * value -> bool) (l l' : list conversation_row) :
  map conv_key l' = map conv_key l ->
  option_map conv_key (List.find (fun c => p (conv_key c)) l')
  = option_map conv_key (List.find (fun c => p (conv_key c)) l).
Proof.
  revert l'. induction l as [|c l IH]; intros [|c' l']; cbn; try discriminate;
    [reflexivity|].
  intros [= Hi Hs Hl].
  assert (Hk : conv_key c' = conv_key c) by (unfold conv_key; congruence).
  rewrite Hk. destruct (p (conv_key c)); [cbn; congruence|].
  now apply IH.
Qed.

(** A conversation that was found or created for a primitive session
    identifier is the one found for it afterwards, in every store that keeps
    the ids and session identifiers of the conversations. *)
Lemma findOrCreateConversation_again sid filePath fileType metadata st
    conversation st1 st2 filePath' fileType' metadata' :
  Parser.findOrCreateConversation sid filePath fileType metadata st
  = (Ok conversation, st1) ->
  same_value_zero sid sid = true ->
  map conv_key (conversations st2) = map conv_key (conversations st1) ->
  exists conversation',
    Parser.findOrCreateConversation sid filePath' fileType' metadata' st2
    = (Ok conversation', st2)
    /\ c_id conversation' = c_id conversation.
Proof.
  intros E Hprim Hkeys.
  assert (Hfind : option_map conv_key (Parser.find_conversation sid st1)
                  = Some (conv_key conversation)).
  { unfold Parser.findOrCreateConversation in E.
    destruct (Parser.find_conversation sid st) as [c|] eqn:Hf.
    - injection E as <- <-. now rewrite Hf.
    - injection E as <- <-. unfold Parser.find_conversation in *.
      cbn [conversations]. rewrite (find_snoc _ _ _ Hf).
      cbn [c_conversation_id]. now rewrite Hprim. }
  pose proof (find_by_key (fun k => same_value_zero (snd k) sid) _ _ Hkeys)
    as Hsame.
  change (option_map conv_key (Parser.find_conversation sid st2)
          = option_map conv_key (Parser.find_conversation sid st1)) in Hsame.
  rewrite Hfind in Hsame.
  unfold Parser.findOrCreateConversation.
  destruct (Parser.find_conversation sid st2) as [c'|]; [|discriminate].
  exists c'. split; [reflexivity|]. cbn in Hsame. now injection Hsame.
Qed.

Lemma close_parse_entries filePath n h conv st :
  entries (close_parse sql_min sql_max date_diff_seconds filePath n h conv st)
  = entries st.
Proof. reflexivity. Qed.

(** Parsing an event log before and after lines were appended to it stores
    the same entries as parsing the grown file at once: the same ids,
    conversation, hashes, roles, texts and timestamps.  Only the sequence
    indices may differ, since a later parse counts on from the number of
    lines of the file as it was.  This holds when both files have the same
    session, and the session identifier is a primitive value. *)
Theorem incremental_parse (fs1 fs2 : filesystem) (filePath : string)
    (projectId : value) (st : store) (content1 content2 : string)
    (more : list string) :
  fs1 filePath = Some content1 ->
  fs2 filePath = Some content2 ->
  nonblank_lines content2 = (nonblank_lines content1 ++ more)%list ->
  Parser.find_session JSON_parse (nonblank_lines content2)
  = Parser.find_session JSON_parse (nonblank_lines content1) ->
  (let sid := session_of JSON_parse filePath (nonblank_lines content1) in
   same_value_zero sid sid = true) ->
  let in_steps :=
    snd (parseJSONL fs2 filePath projectId
           (snd (parseJSONL fs1 filePath projectId st))) in
  let at_once := snd (parseJSONL fs2 filePath projectId st) in
  Forall2 same_but_index (entries in_steps) (entries at_once)
  /\ checkpoint in_steps filePath = checkpoint at_once filePath.
Proof.
  intros Hfs1 Hfs2 Hlines Hsession Hprim. cbn zeta in *.
  set (lines1 := nonblank_lines content1) in *.
  split.
  2:{ rewrite !parseJSONL_checkpoint, String.eqb_refl, Hfs1, Hfs2.
      rewrite Hlines, length_app. fold lines1. lia. }
  destruct (le_lt_dec (length lines1) (checkpoint st filePath)) as [Hle|Hlt].
  { rewrite (parseJSONL_same _ _ _ _ _ fs1 filePath projectId st content1 Hfs1 Hle).
    apply same_but_index_refl. }
  destruct (parseJSONL_run JSON_parse sha256 sql_min sql_max date_diff_seconds
              fs1 filePath projectId st content1 Hfs1 Hlt)
    as (conv1 & st1 & acc1 & rows1 & E1 & Hbatch1 & Run1).
  fold lines1 in E1, Hbatch1, Run1.
  destruct Hbatch1 as (Lines1 & _).
  assert (Hlt2 : checkpoint st filePath < length (nonblank_lines content2))
    by (rewrite Hlines, length_app; lia).
  destruct (parseJSONL_run JSON_parse sha256 sql_min sql_max date_diff_seconds
              fs2 filePath projectId st content2 Hfs2 Hlt2)
    as (convB & stB & accB & rowsB & EB & HbatchB & RunB).
  assert (Hsid : session_of JSON_parse filePath (nonblank_lines content2)
                 = session_of JSON_parse filePath lines1)
    by (unfold session_of; now rewrite Hsession).
  rewrite Hsid, Hsession, E1 in EB. injection EB as <- <-.
  destruct HbatchB as (LinesB & _).
  rewrite Hlines, drop_app_le in LinesB by lia.
  rewrite parse_lines_app in LinesB. rewrite (bind_ok _ _ _ _ _ Lines1) in LinesB.
  rewrite RunB, Run1. cbn [snd].
  set (mid := close_parse sql_min sql_max date_diff_seconds filePath
                (length lines1) (Parser.lastHash acc1) (c_id conv1)
                (with_entries (attach_project projectId conv1 st1) rows1)).
  destruct more as [|line more'].
  { (* nothing was appended *)
    rewrite (parseJSONL_same _ _ _ _ _ fs2 filePath projectId mid content2 Hfs2).
    - cbn [Parser.parse_lines] in LinesB. unfold ret in LinesB.
      assert (HB : with_entries (attach_project projectId conv1 st1) rows1
                   = with_entries (attach_project projectId conv1 st1) rowsB)
        by congruence.
      cbn [snd]. unfold mid. rewrite !close_parse_entries, HB.
      apply same_but_index_refl.
    - unfold mid, checkpoint, close_parse. cbn. rewrite lookup_insert_eq.
      cbn. rewrite Hlines, length_app. cbn. lia. }
  assert (Hcp : checkpoint mid filePath = length lines1).
  { unfold mid, checkpoint, close_parse. cbn. now rewrite lookup_insert_eq. }
  assert (Hlt3 : checkpoint mid filePath < length (nonblank_lines content2))
    by (rewrite Hcp, Hlines, length_app; cbn; lia).
  destruct (parseJSONL_run JSON_parse sha256 sql_min sql_max date_diff_seconds
              fs2 filePath projectId mid content2 Hfs2 Hlt3)
    as (conv2 & st2 & acc2 & rows2 & E2 & Hbatch2 & Run2).
  rewrite Hsid, Hsession in E2.
  destruct (findOrCreateConversation_again _ _ _ _ _ _ _ mid filePath "jsonl"
              (snd (Parser.find_session JSON_parse lines1)) E1 Hprim)
    as (conv2' & E2' & Hid).
  { unfold mid. rewrite close_parse_keys. cbn [with_entries conversations].
    apply attach_project_keys. }
  rewrite E2' in E2. injection E2 as <- <-.
  destruct Hbatch2 as (Lines2 & _).
  rewrite Hcp, Hlines, drop_app_length in Lines2.
  rewrite Run2. cbn [snd]. rewrite !close_parse_entries.
  rewrite Hid in Lines2.
  pose proof (parse_lines_same_rows (c_id conv1) (line :: more')
                {| Parser.newEntries := 0; Parser.skipped := 0;
                   Parser.entryIndex := length lines1;
                   Parser.lastHash := None |} acc1
                (attach_project projectId conv2' mid)
                (with_entries (attach_project projectId conv1 st1) rows1))
    as Hrows.
  rewrite Lines2, LinesB in Hrows. cbn [snd] in Hrows. apply Hrows.
  rewrite attach_project_entries. unfold mid. rewrite close_parse_entries.
  apply same_but_index_refl.
Qed.

End Incremental.

(** * Further properties of the extractor *)

(** ** One artifact per conversation and content hash *)

Definition artifact_key (a : artifact_row) : nat * string :=
  (a_conversation_id a, a_content_hash a).

Definition artifacts_unique (st : store) : Prop :=
  NoDup (map artifact_key (artifacts st)).

Lemma has_artifact_spec st conv h :
  has_artifact st conv h = true <-> In (conv, h) (map artifact_key (artifacts st)).
Proof.
  unfold has_artifact. rewrite existsb_exists, in_map_iff. split.
  - intros (a & Hin & Ha). exists a. split; [|exact Hin].
    apply andb_true_iff in Ha as [Hc Hh].
    apply Nat.eqb_eq in Hc. apply String.eqb_eq in Hh.
    unfold artifact_key. congruence.
  - intros (a & Ha & Hin). exists a. split; [exact Hin|].
    unfold artifact_key in Ha. injection Ha as <- <-.
    now rewrite Nat.eqb_refl, String.eqb_refl.
Qed.

Section ArtifactsUnique.

Variable JSON_parse : string -> option value.
Variable sha256 : string -> string.

Lemma storeArtifact_unique a st :
  artifacts_unique st ->
  has_artifact st (Extractor.conversationId a) (Extractor.contentHash a) = false ->
  artifacts_unique (snd (Extractor.storeArtifact a st)).
Proof.
  unfold artifacts_unique. intros Huniq Hnew. cbn. rewrite map_app.
  apply NoDup_app. split; [exact Huniq|]. split; [|apply NoDup_singleton].
  intros key Hkey Hin. apply list_elem_of_In in Hkey.
  apply list_elem_of_singleton in Hin. subst key.
  apply has_artifact_spec in Hkey. cbn in Hkey. congruence.
Qed.

Lemma process_tool_call_unique entries conv toolId call r st :
  artifacts_unique st ->
  artifacts_unique
    (snd (Extractor.process_tool_call sha256 entries conv toolId call r st)).
Proof.
  intros Huniq. unfold Extractor.process_tool_call.
  rewrite bind_artifactExists.
  destruct (has_artifact st conv _) eqn:Hhas; [exact Huniq|].
  unfold bind at 1. unfold lift at 1.
  destruct (Extractor.error_type_of _ call) as [et|]; [|exact Huniq].
  unfold bind at 1. unfold lift at 1.
  destruct (Extractor.getPromptContext entries _) as [ctx|]; [|exact Huniq].
  set (a := Extractor.tool_call_artifact sha256 conv toolId call et ctx).
  pose proof (storeArtifact_unique a st Huniq Hhas) as Huniq1.
  unfold bind at 1.
  destruct (Extractor.storeArtifact a st) as [[[]|] st1] eqn:Hstore;
    [|discriminate]. cbn [snd] in Huniq1.
  destruct (truthy (Extractor.result call)); [|exact Huniq1].
  rewrite bind_artifactExists.
  destruct (has_artifact st1 conv _) eqn:Hhas1; cbn [negb]; [exact Huniq1|].
  unfold bind at 1. unfold lift at 1.
  set (b := Extractor.tool_result_artifact sha256 conv toolId call et).
  exact (storeArtifact_unique b st1 Huniq1 Hhas1).
Qed.

Lemma process_tool_calls_unique entries conv calls r st :
  artifacts_unique st ->
  artifacts_unique
    (snd (Extractor.process_tool_calls sha256 entries conv calls r st)).
Proof.
  revert r st. induction calls as [|[toolId call] rest IH]; intros r st Huniq;
    [exact Huniq|].
  cbn [Extractor.process_tool_calls]. unfold bind.
  pose proof (process_tool_call_unique entries conv toolId call r st Huniq) as H1.
  destruct (Extractor.process_tool_call _ _ _ _ _ _ _) as [[r1|] st1];
    [apply IH|]; exact H1.
Qed.

Lemma store_code_blocks_unique conv entry_id context blocks r st :
  artifacts_unique st ->
  artifacts_unique
    (snd (Extractor.store_code_blocks sha256 conv entry_id context blocks r st)).
Proof.
  revert r st. induction blocks as [|block rest IH]; intros r st Huniq;
    [exact Huniq|].
  cbn [Extractor.store_code_blocks]. rewrite bind_artifactExists.
  destruct (has_artifact st conv _) eqn:Hhas; [now apply IH|].
  unfold bind at 1. unfold lift at 1.
  destruct context as [ctx|]; [|exact Huniq].
  set (a := Extractor.code_block_artifact sha256 conv entry_id block ctx).
  pose proof (storeArtifact_unique a st Huniq Hhas) as Huniq1.
  unfold bind at 1.
  destruct (Extractor.storeArtifact a st) as [[[]|] st1] eqn:Hstore;
    [|discriminate]. now apply IH.
Qed.

Lemma process_entries_unique entries conv i todo r st :
  artifacts_unique st ->
  artifacts_unique
    (snd (Extractor.process_entries sha256 entries conv i todo r st)).
Proof.
  revert i r st. induction todo as [|entry rest IH]; intros i r st Huniq;
    [exact Huniq|].
  cbn [Extractor.process_entries]. unfold bind.
  assert (H1 : artifacts_unique
                 (snd (Extractor.process_entry sha256 entries conv i entry r st))).
  { rewrite process_entry_blocks. unfold bind, lift.
    destruct (entry_blocks entry) as [blocks|]; [|exact Huniq].
    now apply store_code_blocks_unique. }
  destruct (Extractor.process_entry _ _ _ _ _ _ _) as [[r1|] st1];
    [apply IH|]; exact H1.
Qed.

Lemma process_rows_unique rows conv i todo r st :
  artifacts_unique st ->
  artifacts_unique (snd (Extractor.process_rows sha256 rows conv i todo r st)).
Proof.
  revert i r st. induction todo as [|entry rest IH]; intros i r st Huniq;
    [exact Huniq|].
  cbn [Extractor.process_rows].
  destruct (negb (is_str (e_role entry) "assistant")); [now apply IH|].
  unfold bind.
  pose proof (store_code_blocks_unique conv (Some (e_id entry))
                (Ok (Extractor.stored_context rows i))
                (Extractor.extractCodeBlocks (e_content entry)) r st Huniq) as H1.
  destruct (Extractor.store_code_blocks _ _ _ _ _ _ _) as [[r1|] st1];
    [apply IH|]; exact H1.
Qed.

Lemma processJSONLFile_unique fs filePath conv st :
  artifacts_unique st ->
  artifacts_unique
    (snd (Extractor.processJSONLFile JSON_parse sha256 fs filePath conv st)).
Proof.
  intros Huniq. unfold Extractor.processJSONLFile.
  destruct (fs filePath) as [file|]; [|exact Huniq].
  unfold bind.
  match goal with
  | |- context [Extractor.process_tool_calls ?h ?e ?c ?l ?r ?s] =>
      pose proof (process_tool_calls_unique e c l r s Huniq) as H1;
      destruct (Extractor.process_tool_calls h e c l r s) as [[r1|] st1];
      [|exact H1]
  end.
  match goal with
  | |- context [Extractor.process_entries ?h ?e ?c ?i ?l ?r ?s] =>
      pose proof (process_entries_unique e c i l r s H1) as H2;
      destruct (Extractor.process_entries h e c i l r s) as [[r2|] st2];
      exact H2
  end.
Qed.

Variable order_by_entry_index : list entry_row -> list entry_row.

Lemma processConversationEntries_unique fs conv st :
  artifacts_unique st ->
  artifacts_unique
    (snd (Extractor.processConversationEntries JSON_parse sha256
            order_by_entry_index fs conv st)).
Proof.
  intros Huniq. unfold Extractor.processConversationEntries.
  unfold bind at 1. unfold get.
  destruct (List.find _ (conversations st)) as [conversation|]; [|exact Huniq].
  destruct (_ && _); [now apply processJSONLFile_unique|].
  unfold bind.
  match goal with
  | |- context [Extractor.process_rows ?h ?rows ?c ?i ?l ?r ?s] =>
      pose proof (process_rows_unique rows c i l r s Huniq) as H1;
      destruct (Extractor.process_rows h rows c i l r s) as [[r1|] st1];
      exact H1
  end.
Qed.

Variable sql_min sql_max : list value -> value.
Variable date_diff_seconds : value -> value -> value.

Lemma processFile_artifacts fs filePath projectId st :
  artifacts (snd (Parser.processFile JSON_parse sha256 sql_min sql_max
                    date_diff_seconds fs filePath projectId st))
  = artifacts st.
Proof.
  refine (proj1 (hoare_processFile JSON_parse sha256 sql_min sql_max
                   date_diff_seconds
                   (fun s s' => artifacts s' = artifacts s)
                   _ _ _ _ fs filePath projectId _ st)).
  - reflexivity.
  - intros a b c. congruence.
  - intros s s' _ _ E. exact E.
  - intros conv h idx role text ts s. split; [|now destruct (fst _)].
    apply insertEntry_tables.
  - intros n h s. reflexivity.
Qed.

(** In every store that parsing and extraction lead to, no two artifacts
    share conversation and content hash, although the table declares no such
    constraint: each insert follows a lookup of its pair, and both extraction
    paths keep the invariant from any store that has it. *)
Theorem stored_artifacts_unique (st : store) :
  reachable JSON_parse sha256 sql_min sql_max date_diff_seconds
            order_by_entry_index st ->
  NoDup (map artifact_key (artifacts st))
  /\ (forall fs filePath conv,
        NoDup (map artifact_key
                 (artifacts (snd (Extractor.processJSONLFile JSON_parse sha256
                                    fs filePath conv st))))).
Proof.
  intros Hreach.
  assert (Huniq : artifacts_unique st).
  { induction Hreach as [|st fs filePath projectId _ IH|st fs conv _ IH].
    - apply NoDup_nil_2.
    - unfold artifacts_unique. now rewrite processFile_artifacts.
    - now apply processConversationEntries_unique. }
  split; [exact Huniq|]. intros fs filePath conv.
  now apply processJSONLFile_unique.
Qed.

End ArtifactsUnique.

(** ** The correlation of invocations and results *)

Lemma map_set_In key new m k c :
  In (k, c) (Extractor.map_set key new m) -> In (k, c) m \/ c = new.
Proof.
  induction m as [|[k0 c0] rest IH]; cbn.
  - intros [[= _ <-]|[]]. now right.
  - destruct (same_value_zero k0 key).
    + intros [[= _ <-]|Hin]; auto.
    + intros [E|Hin]; [auto|]. destruct (IH Hin); auto.
Qed.

Lemma map_set_keys key new m :
  map fst (Extractor.map_set key new m) = map fst m
  \/ ((forall k, In k (map fst m) -> same_value_zero k key = false)
      /\ map fst (Extractor.map_set key new m) = (map fst m ++ [key])%list).
Proof.
  induction m as [|[k0 c0] rest IH]; cbn.
  - right. split; [intros k []|reflexivity].
  - destruct (same_value_zero k0 key) eqn:Hk; [now left|].
    cbn. destruct IH as [->|[Hno ->]]; [now left|].
    right. split; [|reflexivity]. intros k [<-|Hin]; auto.
Qed.

Lemma map_get_In m key c :
  Extractor.map_get m key = Some c -> exists k, In (k, c) m.
Proof.
  induction m as [|[k0 c0] rest IH]; cbn; [discriminate|].
  destruct (same_value_zero k0 key).
  - intros [= <-]. exists k0. now left.
  - intros H. destruct (IH H) as [k Hin]. exists k. now right.
Qed.

Lemma for_each_inv {S A} (P : S -> Prop) (f : A -> SE S unit) (l : list A) :
  (forall x s, P s -> P (snd (f x s))) ->
  forall s, P s -> P (snd (Extractor.for_each f l s)).
Proof.
  intros Hf. induction l as [|x rest IH]; intros s Hs; [exact Hs|].
  cbn [Extractor.for_each]. unfold bind.
  pose proof (Hf x s Hs) as H1.
  destruct (f x s) as [[[]|] s1]; [apply IH|]; exact H1.
Qed.

(** What holds of an entry of the map: the invocation was met at a line
    before [a]; a result it holds was attached at a later line before [b];
    and as long as none is attached, its payload and error flag are
    undefined. *)
Definition call_inv (a b : nat) (c : Extractor.tool_call) : Prop :=
  Extractor.lineIndex c < a
  /\ match Extractor.resultLineIndex c with
     | Some j => Extractor.lineIndex c < j /\ j < b
     | None => Extractor.result c = VUndef /\ Extractor.isError c = VUndef
     end.

Definition map_inv (P : Extractor.tool_call -> Prop) (m : Extractor.toolCallMap)
  : Prop :=
  (forall k c, In (k, c) m -> P c) /\ distinct_values (map fst m).

Lemma map_inv_set P key new m :
  map_inv P m -> P new -> map_inv P (Extractor.map_set key new m).
Proof.
  intros [HP Hd] Hnew. split.
  - intros k c Hin. apply map_set_In in Hin as [Hin| ->]; eauto.
  - destruct (map_set_keys key new m) as [->|[Hno ->]]; [exact Hd|].
    now apply distinct_values_snoc.
Qed.

Lemma map_inv_impl (P Q : Extractor.tool_call -> Prop) m :
  map_inv P m -> (forall c, P c -> Q c) -> map_inv Q m.
Proof. intros [HP Hd] H. split; eauto. Qed.

Section Correlation.

Variable JSON_parse : string -> option value.

Lemma record_tool_use_inv i entry block m :
  map_inv (call_inv (S i) (S i)) m ->
  map_inv (call_inv (S i) (S i))
          (snd (Extractor.record_tool_use i entry block m)).
Proof.
  intros Hm. unfold Extractor.record_tool_use, bind, lift.
  destruct (prop block "type") as [type|]; [|exact Hm].
  destruct (is_str type "tool_use"); [|exact Hm].
  cbn [snd]. apply map_inv_set; [exact Hm|].
  split; cbn; auto.
Qed.

Lemma record_tool_result_inv i block m :
  map_inv (call_inv i (S i)) m ->
  map_inv (call_inv i (S i)) (snd (Extractor.record_tool_result i block m)).
Proof.
  intros Hm. unfold Extractor.record_tool_result, bind, lift.
  destruct (prop block "type") as [type|]; [|exact Hm].
  destruct (is_str type "tool_result"); [|exact Hm].
  destruct (Extractor.map_get m _) as [call|] eqn:Hget; [|exact Hm].
  cbn [snd]. apply map_inv_set; [exact Hm|].
  destruct (map_get_In _ _ _ Hget) as [k Hin].
  destruct Hm as [HP _]. destruct (HP k call Hin) as [Hlt _].
  split; cbn in *; [exact Hlt|lia].
Qed.

Lemma call_inv_mono a b a' b' c :
  a <= a' -> b <= b' -> call_inv a b c -> call_inv a' b' c.
Proof.
  intros Ha Hb [H1 H2]. split; [lia|].
  destruct (Extractor.resultLineIndex c); [lia|exact H2].
Qed.

Lemma collect_line_body_inv i line m :
  map_inv (call_inv i i) m ->
  map_inv (call_inv (S i) (S i))
          (snd (Extractor.collect_line_body JSON_parse i line m)).
Proof.
  intros Hm.
  assert (Hweak : map_inv (call_inv (S i) (S i)) m)
    by (eapply map_inv_impl; [exact Hm|intros c; apply call_inv_mono; lia]).
  unfold Extractor.collect_line_body.
  destruct (JSON_parse line) as [entry|]; [|exact Hweak].
  unfold bind at 1. unfold lift at 1.
  destruct (prop entry "type") as [type|]; [|exact Hweak].
  set (content := prop_opt (prop_opt entry "message") "content").
  destruct (is_str type "assistant") eqn:Ha.
  - assert (Hu : is_str type "user" = false).
    { destruct type; try reflexivity. cbn in Ha |- *.
      apply String.eqb_eq in Ha. now subst. }
    rewrite Hu. cbn [andb]. unfold bind.
    destruct content as [| | | | |blocks|]; cbn [isArray]; try exact Hweak.
    pose proof (for_each_inv (map_inv (call_inv (S i) (S i)))
                  (Extractor.record_tool_use i entry) blocks
                  (fun block s => record_tool_use_inv i entry block s) m Hweak)
      as H1.
    destruct (Extractor.for_each _ blocks m) as [[[]|] m1]; exact H1.
  - cbn [andb]. unfold bind at 1. cbn [ret].
    destruct (is_str type "user" && isArray content); [|exact Hweak].
    destruct content as [| | | | |blocks|]; try exact Hweak.
    eapply map_inv_impl with (P := call_inv i (S i));
      [|intros c; apply call_inv_mono; lia].
    apply for_each_inv.
    + intros block s. apply record_tool_result_inv.
    + eapply map_inv_impl; [exact Hm|intros c; apply call_inv_mono; lia].
Qed.

Lemma collect_lines_inv lines i m :
  map_inv (call_inv i i) m ->
  map_inv (call_inv (i + length lines) (i + length lines))
          (snd (Extractor.collect_lines JSON_parse i lines m)).
Proof.
  revert i m. induction lines as [|line rest IH]; intros i m Hm.
  - cbn. now rewrite Nat.add_0_r.
  - cbn [Extractor.collect_lines length]. unfold bind, try_or.
    pose proof (collect_line_body_inv i line m Hm) as H1.
    destruct (Extractor.collect_line_body JSON_parse i line m) as [[[]|] m1];
      cbn [snd] in H1;
      replace (i + S (length rest)) with (S i + length rest) by lia;
      apply IH; exact H1.
Qed.

End Correlation.

(** The first pass pairs each invocation with a result that follows it.
    For every entry of the correlation map: the invocation was met at a line
    of the file; a result it holds was attached at a later line of the file;
    an entry with no result attached has an undefined payload and error flag
    and so the outcome pending; and no other entry has the same id. *)
Theorem collected_tool_calls (JSON_parse : string -> option value)
    (lines : list string) (toolId : value) (call : Extractor.tool_call) :
  In (toolId, call) (Extractor.collect_tool_calls JSON_parse lines) ->
  Extractor.lineIndex call < length lines
  /\ match Extractor.resultLineIndex call with
     | Some j => Extractor.lineIndex call < j < length lines
     | None =>
         Extractor.result call = VUndef /\ Extractor.isError call = VUndef
         /\ outcome_of call = "pending"
     end
  /\ forall toolId' call',
      In (toolId', call') (Extractor.collect_tool_calls JSON_parse lines) ->
      same_value_zero toolId toolId' = true ->
      (toolId', call') = (toolId, call).
Proof.
  intros Hin.
  assert (Hstart : map_inv (call_inv 0 0) []).
  { split; [intros k c []|]. intros i j a b Hi. discriminate. }
  pose proof (collect_lines_inv JSON_parse lines 0 [] Hstart) as [HP Hd].
  fold (Extractor.collect_tool_calls JSON_parse lines) in HP, Hd.
  cbn [Nat.add] in HP.
  destruct (HP toolId call Hin) as [Hline Hres].
  split; [exact Hline|]. split.
  - destruct (Extractor.resultLineIndex call) as [j|]; [lia|].
    destruct Hres as [Hr He]. repeat split; auto.
    unfold outcome_of. now rewrite Hr, He.
  - intros toolId' call' Hin' Hsame.
    apply list_elem_of_In, list_elem_of_lookup_1 in Hin as [i Hi].
    apply list_elem_of_In, list_elem_of_lookup_1 in Hin' as [j Hj].
    assert (i = j).
    { apply (Hd i j toolId toolId'); auto.
      - now rewrite lookup_map, Hi.
      - now rewrite lookup_map, Hj. }
    subst j. congruence.
Qed.

(** ** Strings: reversal and trimming *)

Fixpoint str_forall (p : ascii -> bool) (s : string) : bool :=
  match s with
  | EmptyString => true
  | String c s' => p c && str_forall p s'
  end.

Lemma str_rev_app s t : str_rev (s ++ t) = (str_rev t ++ str_rev s).
Proof.
  induction s as [|c s IH]; [now rewrite append_nil_l, append_nil_r|].
  rewrite append_cons, !str_rev_cons, IH. apply append_assoc.
Qed.

Lemma str_rev_involutive s : str_rev (str_rev s) = s.
Proof.
  induction s as [|c s IH]; [reflexivity|].
  rewrite str_rev_cons, str_rev_app, IH. reflexivity.
Qed.

Lemma trim_start_idempotent s : trim_start (trim_start s) = trim_start s.
Proof.
  induction s as [|c s IH]; [reflexivity|]. cbn [trim_start].
  destruct (is_ws c) eqn:Hc; [exact IH|]. cbn [trim_start]. now rewrite Hc.
Qed.

(** [trim_start] drops a prefix, and what is left does not start with white
    space. *)
Lemma trim_start_suffix s : exists w, s = (w ++ trim_start s).
Proof.
  induction s as [|c s [w IH]]; [now exists ""|]. cbn [trim_start].
  destruct (is_ws c); [|now exists ""].
  exists (String c w). now rewrite append_cons, <- IH.
Qed.

Definition starts_clean (s : string) : Prop :=
  match s with String c _ => is_ws c = false | EmptyString => True end.

Lemma trim_start_clean s : starts_clean (trim_start s).
Proof.
  induction s as [|c s IH]; [exact I|]. cbn [trim_start].
  destruct (is_ws c) eqn:Hc; [exact IH|exact Hc].
Qed.

Lemma trim_start_of_clean s : starts_clean s -> trim_start s = s.
Proof.
  destruct s as [|c s]; [reflexivity|]. cbn [starts_clean trim_start].
  now intros ->.
Qed.

Lemma trim_idempotent s : trim (trim s) = trim s.
Proof.
  unfold trim at 2 3.
  set (x := trim_start s). set (y := str_rev (trim_start (str_rev x))).
  assert (Hy : trim_start y = y).
  { apply trim_start_of_clean.
    destruct (trim_start_suffix (str_rev x)) as [w Hw].
    assert (Hx : x = (y ++ str_rev w)).
    { rewrite <- (str_rev_involutive x). rewrite Hw at 1.
      now rewrite str_rev_app. }
    pose proof (trim_start_clean s) as Hclean. fold x in Hclean.
    rewrite Hx in Hclean. now destruct y. }
  unfold trim. rewrite Hy. unfold y at 1.
  now rewrite str_rev_involutive, trim_start_idempotent.
Qed.

(** ** The fence scanner *)

Lemma str_drop_app s t : str_drop (String.length s) (s ++ t) = t.
Proof. induction s as [|c s IH]; [now destruct t|exact IH]. Qed.

Lemma word_prefix_word s : str_forall is_word (Extractor.word_prefix s) = true.
Proof.
  induction s as [|c s IH]; [reflexivity|]. cbn [Extractor.word_prefix].
  destruct (is_word c) eqn:Hc; [cbn [str_forall]; now rewrite Hc|reflexivity].
Qed.

Lemma word_prefix_app lang c rest :
  str_forall is_word lang = true -> is_word c = false ->
  Extractor.word_prefix (lang ++ String c rest) = lang.
Proof.
  intros Hl Hc. induction lang as [|a lang IH].
  - rewrite append_nil_l. cbn [Extractor.word_prefix]. now rewrite Hc.
  - cbn [str_forall] in Hl. apply andb_true_iff in Hl as [Ha Hl].
    rewrite append_cons. cbn [Extractor.word_prefix]. now rewrite Ha, IH.
Qed.

Definition no_backtick (s : string) : bool :=
  str_forall (fun c => negb (Ascii.eqb c "`"%char)) s.

Lemma prefix_fence_other c s :
  Ascii.eqb c "`"%char = false -> String.prefix "```" (String c s) = false.
Proof.
  intros Hc.
  change (String.prefix "```" (String c s))
    with (match ascii_dec "`"%char c with
          | left _ => String.prefix "``" s
          | right _ => false
          end).
  destruct (ascii_dec "`"%char c) as [<-|_]; [discriminate|reflexivity].
Qed.

Lemma prefix_fence s : String.prefix "```" ("```" ++ s) = true.
Proof. destruct s; vm_compute; reflexivity. Qed.

Lemma fence_body_app body post :
  no_backtick body = true ->
  Extractor.fence_body (body ++ "```" ++ post) = Some body.
Proof.
  intros Hb. induction body as [|c body IH].
  { rewrite append_nil_l. destruct post; vm_compute; reflexivity. }
  cbn in Hb. apply andb_true_iff in Hb as [Hc Hb].
  apply negb_true_iff in Hc.
  rewrite append_cons. cbn [Extractor.fence_body].
  rewrite (prefix_fence_other _ _ Hc), (IH Hb). reflexivity.
Qed.

Definition shift (n : nat) (b : Extractor.code_block) : Extractor.code_block :=
  {| Extractor.cb_language := Extractor.cb_language b;
     Extractor.cb_content := Extractor.cb_content b;
     Extractor.cb_startIndex := n + Extractor.cb_startIndex b |}.

Lemma code_scan_shift s idx skip :
  Extractor.code_scan s idx skip = map (shift idx) (Extractor.code_scan s 0 skip).
Proof.
  revert idx skip.
  assert (H : forall s a b skip,
             Extractor.code_scan s (a + b) skip
             = map (shift a) (Extractor.code_scan s b skip)).
  { clear s. induction s as [|c s IH]; intros a b skip; [reflexivity|].
    cbn [Extractor.code_scan]. destruct skip as [|k].
    - destruct (Extractor.code_match_at (String c s)) as [[lang body]|].
      + cbn [map]. f_equal. rewrite <- IH. f_equal. lia.
      + rewrite <- IH. f_equal. lia.
    - rewrite <- IH. f_equal. lia. }
  intros idx skip. rewrite <- (H s idx 0 skip). f_equal. lia.
Qed.

Lemma code_scan_skip a b idx :
  Extractor.code_scan (a ++ b) idx (String.length a)
  = Extractor.code_scan b (idx + String.length a) 0.
Proof.
  revert idx. induction a as [|c a IH]; intros idx.
  - cbn. now rewrite Nat.add_0_r.
  - rewrite append_cons. cbn [Extractor.code_scan String.length].
    rewrite IH. f_equal. lia.
Qed.

Lemma code_scan_no_backtick pre s idx :
  no_backtick pre = true ->
  Extractor.code_scan (pre ++ s) idx 0
  = Extractor.code_scan s (idx + String.length pre) 0.
Proof.
  revert idx. induction pre as [|c pre IH]; intros idx Hp.
  - cbn. now rewrite Nat.add_0_r.
  - cbn in Hp. apply andb_true_iff in Hp as [Hc Hp].
    apply negb_true_iff in Hc.
    rewrite append_cons. cbn [Extractor.code_scan String.length].
    unfold Extractor.code_match_at. rewrite (prefix_fence_other _ _ Hc).
    rewrite (IH _ Hp). f_equal. lia.
Qed.

(** What the scanner holds of each block, for the text [s] at index [idx]. *)
Definition block_at (s : string) (idx : nat) (b : Extractor.code_block) : Prop :=
  Extractor.cb_language b <> ""
  /\ str_forall is_word (Extractor.cb_language b) = true
  /\ trim (Extractor.cb_content b) = Extractor.cb_content b
  /\ idx <= Extractor.cb_startIndex b < idx + String.length s
  /\ String.prefix "```" (str_drop (Extractor.cb_startIndex b - idx) s) = true.

Lemma code_scan_blocks s idx skip :
  Forall (block_at s idx) (Extractor.code_scan s idx skip)
  /\ StronglySorted lt (map Extractor.cb_startIndex (Extractor.code_scan s idx skip)).
Proof.
  revert idx skip. induction s as [|c s IH]; intros idx skip.
  { cbn. split; constructor. }
  assert (Htail : forall k,
             Forall (block_at (String c s) idx) (Extractor.code_scan s (S idx) k)).
  { intros k. destruct (IH (S idx) k) as [Hf _].
    eapply Forall_impl; [exact Hf|].
    intros b (H1 & H2 & H3 & H4 & H5). repeat split; auto; cbn; try lia.
    replace (Extractor.cb_startIndex b - idx)
      with (S (Extractor.cb_startIndex b - S idx)) by lia.
    exact H5. }
  cbn [Extractor.code_scan]. destruct skip as [|k].
  - destruct (Extractor.code_match_at (String c s)) as [[lang body]|] eqn:Hm.
    + cbn [map Extractor.cb_startIndex]. split.
      * constructor; [|apply Htail].
        unfold Extractor.code_match_at in Hm.
        destruct (String.prefix "```" (String c s)) eqn:Hp; [|discriminate].
        assert (Hlang : lang = Extractor.word_prefix (str_drop 3 (String c s))).
        { destruct (str_drop _ (String c s)) as [|c0 rest]; [discriminate|].
          destruct (Ascii.eqb c0 _); [|discriminate].
          destruct (Extractor.fence_body rest); [|discriminate].
          now injection Hm as <- _. }
        split; [|split; [|split; [|split]]];
          cbn [Extractor.cb_language Extractor.cb_content Extractor.cb_startIndex].
        -- destruct (str_empty lang) eqn:He; [discriminate|].
           intros ->. discriminate.
        -- destruct (str_empty lang); [reflexivity|].
           rewrite Hlang. apply word_prefix_word.
        -- apply trim_idempotent.
        -- cbn. lia.
        -- rewrite Nat.sub_diag. exact Hp.
      * constructor; [apply IH|].
        destruct (IH (S idx) (String.length lang + String.length body + 6))
          as [Hf _].
        apply Forall_forall. intros i Hi. apply list_elem_of_In in Hi.
        apply in_map_iff in Hi as (b & <- & Hb).
        rewrite Forall_forall in Hf. apply list_elem_of_In in Hb.
        destruct (Hf b Hb) as (_ & _ & _ & Hrange & _). lia.
    + split; [apply Htail|apply IH].
  - split; [apply Htail|apply IH].
Qed.


(** The blocks [extractCodeBlocks] returns.  Each has a language tag of word
    characters that is not empty, a content with no white space around it,
    and a start index at which the text has three backticks; the start
    indices increase strictly; and a text without a backtick has no
    block. *)
Theorem extractCodeBlocks_blocks (text : string) :
  let blocks := Extractor.extractCodeBlocks text in
  Forall (fun b =>
            Extractor.cb_language b <> ""
            /\ str_forall is_word (Extractor.cb_language b) = true
            /\ trim (Extractor.cb_content b) = Extractor.cb_content b
            /\ Extractor.cb_startIndex b < String.length text
            /\ String.prefix "```" (str_drop (Extractor.cb_startIndex b) text)
               = true) blocks
  /\ StronglySorted lt (map Extractor.cb_startIndex blocks)
  /\ (no_backtick text = true -> blocks = []).
Proof.
  cbn zeta. unfold Extractor.extractCodeBlocks.
  destruct (code_scan_blocks text 0 0) as [Hf Hs].
  split; [|split; [exact Hs|]].
  - eapply Forall_impl; [exact Hf|].
    intros b (H1 & H2 & H3 & H4 & H5). rewrite Nat.sub_0_r in H5.
    repeat split; auto. lia.
  - intros Hno. rewrite <- (append_nil_r text).
    now rewrite code_scan_no_backtick.
Qed.

(** A fenced block is found where it stands.  In a text made of a prefix
    without backticks, a fence with a language tag of word characters, a body
    without backticks, the closing fence and a rest, the first block has the
    tag (or [text] for an empty tag), the trimmed body and the length of the
    prefix as start index, and the other blocks are those of the rest, moved
    by the length of what precedes it. *)
Theorem fenced_block_found (pre lang body post : string) :
  no_backtick pre = true ->
  str_forall is_word lang = true ->
  no_backtick body = true ->
  Extractor.extractCodeBlocks
    (pre ++ "```" ++ lang ++ nl ++ body ++ "```" ++ post)
  = {| Extractor.cb_language := if str_empty lang then "text" else lang;
       Extractor.cb_content := trim body;
       Extractor.cb_startIndex := String.length pre |}
    :: map (shift (String.length pre + String.length lang
                   + String.length body + 7))
           (Extractor.extractCodeBlocks post).
Proof.
  intros Hpre Hlang Hbody. unfold Extractor.extractCodeBlocks.
  rewrite (code_scan_no_backtick pre _ 0 Hpre). cbn [Nat.add].
  assert (Hm : Extractor.code_match_at
                 ("```" ++ lang ++ nl ++ body ++ "```" ++ post)
               = Some (lang, body)).
  { unfold Extractor.code_match_at. rewrite prefix_fence. cbv zeta.
    set (rest := body ++ "```" ++ post).
    assert (Hw : Extractor.word_prefix (str_drop 3 ("```" ++ lang ++ nl ++ rest))
                 = lang).
    { change (str_drop 3 ("```" ++ lang ++ nl ++ rest))
        with (lang ++ String (ascii_of_N 10) ("" ++ rest)).
      now apply word_prefix_app. }
    rewrite Hw.
    assert (Hd : str_drop (3 + String.length lang)
                   ("```" ++ lang ++ nl ++ rest)
                 = String (ascii_of_N 10) rest).
    { change (str_drop (3 + String.length lang) ("```" ++ lang ++ nl ++ rest))
        with (str_drop (String.length lang)
                (lang ++ String (ascii_of_N 10) rest)).
      apply str_drop_app. }
    rewrite Hd.
    change (Ascii.eqb (ascii_of_N 10) "010"%char) with true. cbv iota.
    unfold rest. now rewrite (fence_body_app body post Hbody). }
  change ("```" ++ lang ++ nl ++ body ++ "```" ++ post)
    with (String "`"%char ("``" ++ lang ++ nl ++ body ++ "```" ++ post)) in *.
  cbn [Extractor.code_scan]. rewrite Hm. f_equal.
  replace ("``" ++ lang ++ nl ++ body ++ "```" ++ post)
    with (("``" ++ lang ++ nl ++ body ++ "```") ++ post)
    by (now rewrite !append_assoc).
  replace (String.length lang + String.length body + 6)
    with (String.length ("``" ++ lang ++ nl ++ body ++ "```"))
    by (rewrite !length_append; change (String.length "``") with 2;
        change (String.length nl) with 1;
        change (String.length "```") with 3; lia).
  rewrite code_scan_skip, code_scan_shift. f_equal.
  rewrite !length_append. change (String.length "``") with 2.
  change (String.length nl) with 1. change (String.length "```") with 3.
  f_equal. lia.
Qed.

(** ** The brace scanner *)

Definition no_closing_brace (s : string) : bool :=
  str_forall (fun c => negb (Ascii.eqb c "}"%char)) s.

Lemma str_forall_app p s t :
  str_forall p (s ++ t) = str_forall p s && str_forall p t.
Proof.
  induction s as [|c s IH]; [reflexivity|].
  rewrite append_cons. cbn [str_forall]. now rewrite IH, andb_assoc.
Qed.

Section BraceScanner.

Variable JSON_parse : string -> option value.

(** The item is the piece of [text] at its start index, from an opening
    brace to the first closing brace after it. *)
Definition item_at (text : string) (item : Extractor.json_object) : Prop :=
  exists pre body post,
    text = (pre ++ String "{"%char body ++ String "}"%char post)
    /\ String.length pre = Extractor.jo_startIndex item
    /\ Extractor.jo_content item = String "{"%char (body ++ "}")
    /\ no_closing_brace body = true.

Lemma json_scan_sub done s idx open item :
  String.length done = idx ->
  match open with
  | Some (start, acc) =>
      exists pre body,
        done = (pre ++ String "{"%char body)
        /\ String.length pre = start
        /\ str_rev acc = String "{"%char body
        /\ no_closing_brace body = true
  | None => True
  end ->
  In item (Extractor.json_scan JSON_parse s idx open) ->
  item_at (done ++ s) item.
Proof.
  revert done idx open. induction s as [|c s IH]; intros done idx open Hlen Hopen Hin;
    [destruct open as [[? ?]|]; contradiction|].
  assert (Hnext : String.length (done ++ String c "") = S idx)
    by (rewrite length_append; cbn; lia).
  assert (Happ : (done ++ String c s) = ((done ++ String c "") ++ s))
    by (now rewrite append_assoc).
  rewrite Happ.
  destruct open as [[start acc]|]; cbn [Extractor.json_scan] in Hin.
  - destruct Hopen as (pre & body & Hdone & Hpre & Hacc & Hbody).
    destruct (Ascii.eqb_spec c "}"%char) as [->|Hc].
    + assert (Hitem : forall parsed,
                 item_at ((done ++ "}") ++ s)
                   {| Extractor.jo_content := str_rev (String "}"%char acc);
                      Extractor.jo_parsed := parsed;
                      Extractor.jo_startIndex := start |}).
      { intros parsed. exists pre, body, s.
        cbn [Extractor.jo_content Extractor.jo_startIndex].
        split; [|split; [exact Hpre|split; [|exact Hbody]]].
        - rewrite Hdone, !append_assoc, append_cons. reflexivity.
        - now rewrite str_rev_cons, Hacc. }
      destruct (JSON_parse (str_rev (String "}"%char acc))) as [parsed|];
        [destruct (Extractor.meaningful parsed)|].
      * destruct Hin as [<-|Hin]; [apply Hitem|].
        exact (IH _ _ None Hnext I Hin).
      * exact (IH _ _ None Hnext I Hin).
      * exact (IH _ _ None Hnext I Hin).
    + refine (IH _ _ (Some (_, _)) Hnext _ Hin).
      exists pre, (body ++ String c ""). repeat split; auto.
      * now rewrite Hdone, append_assoc.
      * now rewrite str_rev_cons, Hacc.
      * unfold no_closing_brace in *. rewrite str_forall_app, Hbody. cbn.
        apply Ascii.eqb_neq in Hc. now rewrite Hc.
  - destruct (Ascii.eqb c "{"%char) eqn:Hc.
    + refine (IH _ _ (Some (_, _)) Hnext _ Hin).
      apply Ascii.eqb_eq in Hc. subst c. exists done, "".
      repeat split; auto.
    + exact (IH _ _ None Hnext I Hin).
Qed.

Lemma json_scan_sorted s idx open :
  match open with Some (start, _) => start < idx | None => True end ->
  let items := Extractor.json_scan JSON_parse s idx open in
  Forall (fun item =>
            match open with Some (start, _) => start | None => idx end
            <= Extractor.jo_startIndex item) items
  /\ StronglySorted lt (map Extractor.jo_startIndex items).
Proof.
  cbn zeta. revert idx open.
  induction s as [|c s IH]; intros idx open Hopen;
    [cbn; split; constructor|].
  assert (Hnone : Forall (fun item => idx <= Extractor.jo_startIndex item)
                         (Extractor.json_scan JSON_parse s (S idx) None)).
  { destruct (IH (S idx) None I) as [Hf _].
    eapply Forall_impl; [exact Hf|]. cbn. intros item H. lia. }
  destruct open as [[start acc]|]; cbn [Extractor.json_scan].
  - assert (Hnone' : Forall (fun item => start <= Extractor.jo_startIndex item)
                            (Extractor.json_scan JSON_parse s (S idx) None)).
    { eapply Forall_impl; [exact Hnone|]. cbn. intros item H. lia. }
    destruct (Ascii.eqb c "}"%char).
    + destruct (JSON_parse _) as [parsed|];
        [destruct (Extractor.meaningful parsed)|];
        try (split; [exact Hnone'|apply (IH (S idx) None I)]).
      cbn [map Extractor.jo_startIndex]. split.
      * constructor; [cbn; lia|exact Hnone'].
      * constructor; [apply (IH (S idx) None I)|].
        apply Forall_forall. intros i Hi. apply list_elem_of_In in Hi.
        apply in_map_iff in Hi as (item & <- & Hitem).
        rewrite Forall_forall in Hnone. apply list_elem_of_In in Hitem.
        specialize (Hnone item Hitem). cbn in Hnone. lia.
    + apply (IH (S idx) (Some (start, String c acc))). lia.
  - destruct (Ascii.eqb c "{"%char).
    + destruct (IH (S idx) (Some (idx, String c "")) (Nat.lt_succ_diag_r idx))
        as [Hf Hs]. split; [exact Hf|exact Hs].
    + split; [exact Hnone|apply (IH (S idx) None I)].
Qed.

(** Each item [extractJsonObjects] returns is the piece of the text at its
    start index that runs from an opening brace to the first closing brace
    after it, so an object that holds another object is not returned whole;
    and the start indices increase strictly. *)
Theorem extractJsonObjects_items (text : string) :
  let items := Extractor.extractJsonObjects JSON_parse text in
  Forall (item_at text) items
  /\ StronglySorted lt (map Extractor.jo_startIndex items).
Proof.
  cbn zeta. unfold Extractor.extractJsonObjects. split.
  - apply Forall_forall. intros item Hin. apply list_elem_of_In in Hin.
    exact (json_scan_sub "" text 0 None item eq_refl I Hin).
  - apply (json_scan_sorted text 0 None I).
Qed.

End BraceScanner.

(** ** The rows extraction appends, one by one *)

Lemma grows_ext {A} P (Q : A -> Prop) (m m' : SE store A) :
  (forall st, m st = m' st) -> grows P Q m' -> grows P Q m.
Proof. intros E H st. unfold grows_at. rewrite E. apply H. Qed.

Section ExtractedRows.

Variable JSON_parse : string -> option value.
Variable sha256 : string -> string.

(** The row of an invocation of the map: its [tool_call] artifact, or the
    [tool_result] artifact of its truthy payload. *)
Definition tool_row (calls : Extractor.toolCallMap) (entries : list value)
    (conv : nat) (row : artifact_row) : Prop :=
  exists toolId call error_type,
    In (toolId, call) calls
    /\ Extractor.error_type_of (is_true (Extractor.isError call)) call
       = Ok error_type
    /\ ((exists context,
            Extractor.getPromptContext entries (Extractor.lineIndex call)
            = Ok context
            /\ row = Extractor.artifact_to_row
                       (Extractor.tool_call_artifact sha256 conv toolId call
                          error_type context))
        \/ (truthy (Extractor.result call) = true
            /\ row = Extractor.artifact_to_row
                       (Extractor.tool_result_artifact sha256 conv toolId call
                          error_type))).

(** The row of one of [blocks], with the prompt context [context] yields. *)
Definition code_block_row (conv : nat) (entry_id : option nat)
    (context : res value) (blocks : list Extractor.code_block)
    (row : artifact_row) : Prop :=
  exists block ctx,
    In block blocks /\ context = Ok ctx
    /\ row = Extractor.artifact_to_row
               (Extractor.code_block_artifact sha256 conv entry_id block ctx).

Lemma process_tool_call_described calls entries conv toolId call r :
  In (toolId, call) calls ->
  grows (tool_row calls entries conv) (fun _ => True)
        (Extractor.process_tool_call sha256 entries conv toolId call r).
Proof.
  intros Hin. unfold Extractor.process_tool_call.
  eapply grows_bind; [apply grows_artifactExists|]. intros present _.
  destruct present; [apply grows_ret; exact I|].
  eapply grows_bind
    with (Q := fun et => Extractor.error_type_of
                           (is_true (Extractor.isError call)) call = Ok et);
    [apply grows_lift; auto|]. intros et Het.
  eapply grows_bind
    with (Q := fun ctx => Extractor.getPromptContext entries
                            (Extractor.lineIndex call) = Ok ctx);
    [apply grows_lift; auto|]. intros ctx Hctx.
  eapply grows_bind with (Q := fun _ => True).
  { apply grows_storeArtifact. exists toolId, call, et.
    split; [exact Hin|]. split; [exact Het|]. left. exists ctx. auto. }
  intros _ _.
  destruct (truthy (Extractor.result call)) eqn:Hres; [|apply grows_ret; exact I].
  eapply grows_bind; [apply grows_artifactExists|]. intros present _.
  destruct present; cbn [negb]; [apply grows_ret; exact I|].
  eapply grows_bind
    with (Q := fun et => Extractor.error_type_of
                           (is_true (Extractor.isError call)) call = Ok et);
    [apply grows_lift; auto|]. intros et2 Het2.
  eapply grows_bind with (Q := fun _ => True).
  { apply grows_storeArtifact. exists toolId, call, et2.
    split; [exact Hin|]. split; [exact Het2|]. right. auto. }
  intros _ _. apply grows_ret; exact I.
Qed.

Lemma process_tool_calls_described calls entries conv todo r :
  (forall x, In x todo -> In x calls) ->
  grows (tool_row calls entries conv) (fun _ => True)
        (Extractor.process_tool_calls sha256 entries conv todo r).
Proof.
  revert r. induction todo as [|[toolId call] rest IH]; intros r Hsub; cbn.
  - apply grows_ret; exact I.
  - eapply grows_bind with (Q := fun _ => True).
    + apply process_tool_call_described. apply Hsub. now left.
    + intros r' _. apply IH. intros x Hx. apply Hsub. now right.
Qed.

Lemma store_code_blocks_described conv entry_id context blocks todo r :
  (forall b, In b todo -> In b blocks) ->
  grows (code_block_row conv entry_id context blocks) (fun _ => True)
        (Extractor.store_code_blocks sha256 conv entry_id context todo r).
Proof.
  revert r. induction todo as [|block rest IH]; intros r Hsub; cbn.
  - apply grows_ret; exact I.
  - assert (Hrest : forall b, In b rest -> In b blocks)
      by (intros b Hb; apply Hsub; now right).
    eapply grows_bind; [apply grows_artifactExists|]. intros present _.
    destruct present; [now apply IH|].
    eapply grows_bind with (Q := fun ctx => context = Ok ctx);
      [apply grows_lift; auto|]. intros ctx Hctx.
    eapply grows_bind with (Q := fun _ => True).
    { apply grows_storeArtifact. exists block, ctx.
      split; [apply Hsub; now left|]. auto. }
    intros _ _. now apply IH.
Qed.

(** A [code_block] row of the event-log path: the block was found in the
    text of an assistant line of the file. *)
Definition file_code_row (entries : list value) (conv : nat)
    (row : artifact_row) : Prop :=
  exists i entry blocks,
    nth_error entries i = Some entry
    /\ entry_blocks entry = Ok blocks
    /\ code_block_row conv None (Extractor.getPromptContext entries i) blocks row.

Lemma process_entry_described entries conv i entry r :
  nth_error entries i = Some entry ->
  grows (file_code_row entries conv) (fun _ => True)
        (Extractor.process_entry sha256 entries conv i entry r).
Proof.
  intros Hnth.
  eapply grows_ext; [intros st; apply process_entry_blocks|].
  eapply grows_bind with (Q := fun blocks => entry_blocks entry = Ok blocks);
    [apply grows_lift; auto|]. intros blocks Hblocks.
  eapply grows_impl;
    [apply (store_code_blocks_described conv None _ blocks blocks); auto|].
  intros row Hrow. exists i, entry, blocks. auto.
Qed.

Lemma process_entries_described entries conv i todo r :
  (forall k e, nth_error todo k = Some e -> nth_error entries (i + k) = Some e) ->
  grows (file_code_row entries conv) (fun _ => True)
        (Extractor.process_entries sha256 entries conv i todo r).
Proof.
  revert i r. induction todo as [|entry rest IH]; intros i r Hsub; cbn.
  - apply grows_ret; exact I.
  - eapply grows_bind with (Q := fun _ => True).
    + apply process_entry_described.
      specialize (Hsub 0 entry eq_refl). now rewrite Nat.add_0_r in Hsub.
    + intros r' _. apply IH. intros k e Hk.
      specialize (Hsub (S k) e Hk). now rewrite Nat.add_succ_r in Hsub.
Qed.

(** The rows the event-log path appends for a file. *)
Definition file_row (file : string) (conv : nat) (row : artifact_row) : Prop :=
  let lines := nonblank_lines file in
  let entries := Extractor.decode_lines JSON_parse lines in
  tool_row (Extractor.collect_tool_calls JSON_parse lines) entries conv row
  \/ file_code_row entries conv row.

Lemma processJSONLFile_described fs filePath conv :
  grows (fun row => exists file, fs filePath = Some file /\ file_row file conv row)
        (fun _ => True)
        (Extractor.processJSONLFile JSON_parse sha256 fs filePath conv).
Proof.
  unfold Extractor.processJSONLFile.
  destruct (fs filePath) as [file|]; [|apply grows_ret; exact I].
  eapply grows_bind with (Q := fun _ => True).
  - eapply grows_impl;
      [apply (process_tool_calls_described
                (Extractor.collect_tool_calls JSON_parse (nonblank_lines file)));
       auto|].
    intros row Hrow. exists file. split; [reflexivity|]. now left.
  - intros r _. eapply grows_bind with (Q := fun _ => True).
    + eapply grows_impl; [apply process_entries_described; auto|].
      intros row Hrow. exists file. split; [reflexivity|]. now right.
    + intros r' _. apply grows_ret. exact I.
Qed.

(** A [code_block] row of the stored-entries path: the block was found in
    the content of a stored assistant entry, which the row points to. *)
Definition entry_code_row (rows : list entry_row) (conv : nat)
    (row : artifact_row) : Prop :=
  exists i e,
    nth_error rows i = Some e
    /\ is_str (e_role e) "assistant" = true
    /\ code_block_row conv (Some (e_id e)) (Ok (Extractor.stored_context rows i))
         (Extractor.extractCodeBlocks (e_content e)) row.

Lemma process_rows_described rows conv i todo r :
  (forall k e, nth_error todo k = Some e -> nth_error rows (i + k) = Some e) ->
  grows (entry_code_row rows conv) (fun _ => True)
        (Extractor.process_rows sha256 rows conv i todo r).
Proof.
  revert i r. induction todo as [|entry rest IH]; intros i r Hsub; cbn.
  - apply grows_ret; exact I.
  - assert (Hrest : forall k e, nth_error rest k = Some e ->
                                nth_error rows (S i + k) = Some e).
    { intros k e Hk. specialize (Hsub (S k) e Hk).
      now rewrite Nat.add_succ_r in Hsub. }
    destruct (is_str (e_role entry) "assistant") eqn:Hrole; cbn [negb];
      [|now apply IH].
    eapply grows_bind with (Q := fun _ => True).
    + eapply grows_impl;
        [apply (store_code_blocks_described conv (Some (e_id entry)) _
                  (Extractor.extractCodeBlocks (e_content entry))); auto|].
      intros row Hrow. exists i, entry. split; [|auto].
      specialize (Hsub 0 entry eq_refl). now rewrite Nat.add_0_r in Hsub.
    + intros r' _. now apply IH.
Qed.

End ExtractedRows.

(** ** The prompt context of a stored artifact *)

(** No context, a non-empty text of at most [PROMPT_CONTEXT_LENGTH] code
    units, or at most that many items. *)
Definition context_bounded (v : value) : Prop :=
  match v with
  | VNull => True
  | VStr s => 0 < String.length s <= Extractor.PROMPT_CONTEXT_LENGTH
  | VArr items => length items <= Extractor.PROMPT_CONTEXT_LENGTH
  | _ => False
  end.

Lemma length_str_drop k s :
  String.length (str_drop k s) = String.length s - k.
Proof.
  revert s. induction k as [|k IH]; intros [|c s]; cbn; auto.
Qed.

Lemma slice_last_bounded n s :
  s <> "" -> 0 < n ->
  0 < String.length (slice_last n s) <= n.
Proof.
  intros Hs Hn. unfold slice_last. rewrite length_str_drop.
  destruct s as [|c s]; [contradiction|]. cbn [String.length]. lia.
Qed.

Lemma slice_last_truthy n s :
  s <> "" -> 0 < n -> truthy (VStr (slice_last n s)) = true.
Proof.
  intros Hs Hn. destruct (slice_last_bounded n s Hs Hn) as [Hpos _].
  cbn. destruct (slice_last n s); [cbn in Hpos; lia|reflexivity].
Qed.

Lemma getPromptContext_bounded entries i ctx :
  Extractor.getPromptContext entries i = Ok ctx ->
  context_bounded (js_or ctx VNull).
Proof.
  unfold Extractor.getPromptContext.
  destruct (_ || _); [intros [= <-]; exact I|].
  destruct (truthy (prop_opt _ "content")) eqn:Ht; cbn [negb];
    [|intros [= <-]; exact I].
  destruct (prop_opt _ "content") as [| | | |s|items|]; try discriminate.
  - intros [= <-].
    assert (Hs : s <> "") by (intros ->; discriminate).
    unfold js_or. rewrite slice_last_truthy; [|exact Hs|unfold Extractor.PROMPT_CONTEXT_LENGTH; lia].
    apply slice_last_bounded; [exact Hs|unfold Extractor.PROMPT_CONTEXT_LENGTH; lia].
  - intros [= <-]. cbn. unfold Extractor.last_items.
    rewrite length_drop. lia.
Qed.

Lemma stored_context_bounded rows i :
  context_bounded (js_or (Extractor.stored_context rows i) VNull).
Proof.
  unfold Extractor.stored_context. destruct i as [|j]; [exact I|].
  destruct (nth_error rows j) as [prev|]; [|exact I].
  destruct (str_empty (e_content prev)) eqn:He; [exact I|].
  assert (Hs : e_content prev <> "") by (intros E; rewrite E in He; discriminate).
  unfold js_or. rewrite slice_last_truthy; [|exact Hs|unfold Extractor.PROMPT_CONTEXT_LENGTH; lia].
  apply slice_last_bounded; [exact Hs|unfold Extractor.PROMPT_CONTEXT_LENGTH; lia].
Qed.

Section StoredPath.

Variable JSON_parse : string -> option value.
Variable sha256 : string -> string.
Variable order_by_entry_index : list entry_row -> list entry_row.

(** The stored entries of a conversation, as the stored-entries path reads
    them. *)
Definition entries_of (conv : nat) (st : store) : list entry_row :=
  order_by_entry_index
    (List.filter (fun e => Nat.eqb (e_conversation_id e) conv) (entries st)).

(** Whether extraction for the conversation reads its event log. *)
Definition reads_file (fs : filesystem) (conversation : conversation_row) : bool :=
  String.eqb (c_source_file_type conversation) "jsonl"
  && bool_decide (is_Some (fs (c_source_file_path conversation))).

(** The rows extraction for a conversation appends: those of its event log
    when it is on disk, else those of its stored entries. *)
Definition extracted_row (fs : filesystem) (conv : nat) (st : store)
    (row : artifact_row) : Prop :=
  (exists conversation file,
      Queries.getConversation conv st = Some conversation
      /\ c_source_file_type conversation = "jsonl"
      /\ fs (c_source_file_path conversation) = Some file
      /\ file_row JSON_parse sha256 file conv row)
  \/ (exists conversation,
         Queries.getConversation conv st = Some conversation
         /\ reads_file fs conversation = false
         /\ entry_code_row sha256 (entries_of conv st) conv row).

Lemma processConversationEntries_unfold fs conv st :
  Extractor.processConversationEntries JSON_parse sha256 order_by_entry_index
    fs conv st
  = match Queries.getConversation conv st with
    | None => (Ok (Extractor.ExtractFailure "Conversation not found"), st)
    | Some conversation =>
        if reads_file fs conversation
        then Extractor.processJSONLFile JSON_parse sha256 fs
               (c_source_file_path conversation) conv st
        else
          bind (Extractor.process_rows sha256 (entries_of conv st) conv 0
                  (entries_of conv st) Extractor.no_counts)
               (fun results =>
                  ret (Extractor.ExtractEntriesDone
                         (Extractor.codeBlocks results)
                         (Extractor.jsonObjects results)
                         (Extractor.skipped results))) st
    end.
Proof.
  unfold Extractor.processConversationEntries, Queries.getConversation,
    reads_file, entries_of, bind at 1, get.
  destruct (List.find _ (conversations st)) as [conversation|]; [|reflexivity].
  now destruct (_ && _).
Qed.

Lemma processConversationEntries_described fs conv st :
  grows_at (extracted_row fs conv st) (fun _ => True)
           (Extractor.processConversationEntries JSON_parse sha256
              order_by_entry_index fs conv) st.
Proof.
  unfold Extractor.processConversationEntries. apply grows_at_bind_get.
  destruct (List.find _ (conversations st)) as [conversation|] eqn:Hfind;
    [|apply grows_ret; exact I].
  fold (reads_file fs conversation).
  destruct (reads_file fs conversation) eqn:Hreads.
  - eapply grows_impl; [apply processJSONLFile_described|].
    intros row (file & Hfile & Hrow). left. exists conversation, file.
    unfold reads_file in Hreads. apply andb_true_iff in Hreads as [Hty _].
    apply String.eqb_eq in Hty. auto.
  - fold (entries_of conv st).
    eapply grows_bind with (Q := fun _ => True).
    + eapply grows_impl;
        [apply (process_rows_described sha256 (entries_of conv st)); auto|].
      intros row Hrow. right. exists conversation. auto.
    + intros r _. apply grows_ret. exact I.
Qed.

Lemma tool_row_context calls entries conv row :
  tool_row sha256 calls entries conv row ->
  context_bounded (a_prompt_context row).
Proof.
  intros (toolId & call & et & _ & _ & [(ctx & Hctx & ->)|(_ & ->)]).
  - cbn. now apply getPromptContext_bounded with (entries := entries)
                                                (i := Extractor.lineIndex call).
  - exact I.
Qed.

Lemma code_block_row_context conv entry_id context blocks row :
  (forall ctx, context = Ok ctx -> context_bounded (js_or ctx VNull)) ->
  code_block_row sha256 conv entry_id context blocks row ->
  context_bounded (a_prompt_context row).
Proof.
  intros Hctx (block & ctx & _ & E & ->). cbn. auto.
Qed.

Lemma extracted_row_context fs conv st row :
  extracted_row fs conv st row -> context_bounded (a_prompt_context row).
Proof.
  intros [(conversation & file & _ & _ & _ & [Hrow|Hrow])
         |(conversation & _ & _ & Hrow)].
  - eapply tool_row_context; eauto.
  - destruct Hrow as (i & entry & blocks & _ & _ & Hrow).
    eapply code_block_row_context; [|exact Hrow].
    intros ctx. apply getPromptContext_bounded.
  - destruct Hrow as (i & e & _ & _ & Hrow).
    eapply code_block_row_context; [|exact Hrow].
    intros ctx [= <-]. apply stored_context_bounded.
Qed.

(** The prompt context of every row extraction appends, on either path, is
    null, a non-empty text of at most 200 code units, or at most 200 items
    of a content array. *)
Theorem prompt_context_bounded (fs : filesystem) (filePath : string)
    (conv : nat) (st : store) :
  (exists rows,
      artifacts (snd (Extractor.processJSONLFile JSON_parse sha256 fs filePath
                        conv st))
      = (artifacts st ++ rows)%list
      /\ Forall (fun row => context_bounded (a_prompt_context row)) rows)
  /\ (exists rows,
         artifacts (snd (Extractor.processConversationEntries JSON_parse sha256
                           order_by_entry_index fs conv st))
         = (artifacts st ++ rows)%list
         /\ Forall (fun row => context_bounded (a_prompt_context row)) rows).
Proof.
  split.
  - destruct (processJSONLFile_described JSON_parse sha256 fs filePath conv st)
      as ((rows & E & F) & _).
    exists rows. split; [exact E|].
    eapply Forall_impl; [exact F|].
    intros row (file & _ & [Hrow|Hrow]).
    + eapply tool_row_context; eauto.
    + destruct Hrow as (i & entry & blocks & _ & _ & Hrow).
      eapply code_block_row_context; [|exact Hrow].
      intros ctx. apply getPromptContext_bounded.
  - destruct (processConversationEntries_described fs conv st)
      as ((rows & E & F) & _).
    exists rows. split; [exact E|].
    eapply Forall_impl; [exact F|]. apply extracted_row_context.
Qed.


End StoredPath.

(** ** The counters of a run count the rows it stored *)

Definition count_type (ty : string) (rows : list artifact_row) : nat :=
  length (List.filter (fun row => String.eqb (a_artifact_type row) ty) rows).

Lemma count_type_app ty r1 r2 :
  count_type ty (r1 ++ r2) = count_type ty r1 + count_type ty r2.
Proof. unfold count_type. now rewrite List.filter_app, length_app. Qed.

(** The counters [r'] after a step that started from [r] and appended
    [rows]. *)
Definition counts_rows (r r' : Extractor.extract_counts)
    (rows : list artifact_row) : Prop :=
  Extractor.toolCalls r' = Extractor.toolCalls r + count_type "tool_call" rows
  /\ Extractor.toolResults r'
     = Extractor.toolResults r + count_type "tool_result" rows
  /\ Extractor.codeBlocks r'
     = Extractor.codeBlocks r + count_type "code_block" rows
  /\ Extractor.jsonObjects r' = Extractor.jsonObjects r
  /\ Extractor.skipped r <= Extractor.skipped r'
  /\ length rows
     = count_type "tool_call" rows + count_type "tool_result" rows
       + count_type "code_block" rows.

Definition counted
    (m : Extractor.extract_counts -> SE store Extractor.extract_counts) : Prop :=
  forall r st,
    exists rows,
      artifacts (snd (m r st)) = (artifacts st ++ rows)%list
      /\ match fst (m r st) with
         | Ok r' => counts_rows r r' rows
         | Throw => True
         end.

Lemma counts_rows_nil r : counts_rows r r [].
Proof. unfold counts_rows. cbn. repeat split; lia. Qed.

Lemma counts_rows_app r1 r2 r3 rows1 rows2 :
  counts_rows r1 r2 rows1 -> counts_rows r2 r3 rows2 ->
  counts_rows r1 r3 (rows1 ++ rows2).
Proof.
  unfold counts_rows. rewrite !count_type_app, length_app.
  intros (A1 & A2 & A3 & A4 & A5 & A6) (B1 & B2 & B3 & B4 & B5 & B6).
  repeat split; lia.
Qed.

Lemma counted_ret : counted (fun r => ret r).
Proof.
  intros r st. exists []. cbn. rewrite app_nil_r.
  split; [reflexivity|apply counts_rows_nil].
Qed.

Lemma counted_seq m1 m2 :
  counted m1 -> counted m2 -> counted (fun r => bind (m1 r) m2).
Proof.
  intros H1 H2 r st. unfold bind.
  destruct (H1 r st) as (rows1 & E1 & C1).
  destruct (m1 r st) as [[r1|] st1]; cbn [fst snd] in *.
  - destruct (H2 r1 st1) as (rows2 & E2 & C2).
    exists (rows1 ++ rows2)%list. split.
    + now rewrite E2, E1, app_assoc.
    + destruct (fst (m2 r1 st1)); [|exact I].
      eapply counts_rows_app; eauto.
  - exists rows1. auto.
Qed.

Lemma counted_ext m m' :
  (forall r st, m r st = m' r st) -> counted m -> counted m'.
Proof. intros E H r st. rewrite <- E. apply H. Qed.

Section Counted.

Variable JSON_parse : string -> option value.
Variable sha256 : string -> string.

Lemma storeArtifact_appends a st :
  Extractor.storeArtifact a st
  = (Ok tt, snd (Extractor.storeArtifact a st))
  /\ artifacts (snd (Extractor.storeArtifact a st))
     = (artifacts st ++ [Extractor.artifact_to_row a])%list.
Proof. split; reflexivity. Qed.

Lemma bind_lift_ok {S A B} (a : A) (f : A -> SE S B) s :
  bind (lift (Ok a)) f s = f a s.
Proof. reflexivity. Qed.

Lemma bind_lift_throw {S A B} (f : A -> SE S B) s :
  bind (lift Throw) f s = (Throw, s).
Proof. reflexivity. Qed.

Lemma process_tool_call_counted entries conv toolId call :
  counted (Extractor.process_tool_call sha256 entries conv toolId call).
Proof.
  intros r st. unfold Extractor.process_tool_call.
  rewrite bind_artifactExists.
  destruct (has_artifact st conv _).
  { exists []. cbn. rewrite app_nil_r. split; [reflexivity|].
    unfold counts_rows. cbn. repeat split; lia. }
  destruct (Extractor.error_type_of _ call) as [et|];
    [rewrite bind_lift_ok
    |rewrite bind_lift_throw; exists []; cbn; rewrite app_nil_r; auto].
  destruct (Extractor.getPromptContext entries _) as [ctx|];
    [rewrite bind_lift_ok
    |rewrite bind_lift_throw; exists []; cbn; rewrite app_nil_r; auto].
  set (a := Extractor.tool_call_artifact sha256 conv toolId call et ctx).
  destruct (storeArtifact_appends a st) as [E1 A1].
  rewrite (bind_ok _ _ _ _ _ E1).
  set (st1 := snd (Extractor.storeArtifact a st)) in *.
  assert (Hone : counts_rows r (Extractor.bump_toolCalls r)
                             [Extractor.artifact_to_row a]).
  { unfold counts_rows. cbn. repeat split; lia. }
  destruct (truthy (Extractor.result call));
    [|exists [Extractor.artifact_to_row a]; split; [exact A1|exact Hone]].
  rewrite bind_artifactExists.
  destruct (has_artifact st1 conv _); cbn [negb];
    [exists [Extractor.artifact_to_row a]; split; [exact A1|exact Hone]|].
  rewrite bind_lift_ok.
  set (b := Extractor.tool_result_artifact sha256 conv toolId call et).
  destruct (storeArtifact_appends b st1) as [E2 A2].
  rewrite (bind_ok _ _ _ _ _ E2). cbn [fst snd ret].
  exists [Extractor.artifact_to_row a; Extractor.artifact_to_row b].
  split; [rewrite A2, A1; now rewrite <- app_assoc|].
  unfold counts_rows. cbn. repeat split; lia.
Qed.

Lemma process_tool_calls_counted entries conv calls :
  counted (Extractor.process_tool_calls sha256 entries conv calls).
Proof.
  induction calls as [|[toolId call] rest IH]; [apply counted_ret|].
  apply (counted_seq _ _ (process_tool_call_counted entries conv toolId call) IH).
Qed.

Lemma code_step_counted conv entry_id context block :
  counted (code_step sha256 conv entry_id context block).
Proof.
  intros r st. unfold code_step. rewrite bind_artifactExists.
  destruct (has_artifact st conv _).
  { exists []. cbn. rewrite app_nil_r. split; [reflexivity|].
    unfold counts_rows. cbn. repeat split; lia. }
  destruct context as [ctx|];
    [rewrite bind_lift_ok
    |rewrite bind_lift_throw; exists []; cbn; rewrite app_nil_r; auto].
  set (a := Extractor.code_block_artifact sha256 conv entry_id block ctx).
  destruct (storeArtifact_appends a st) as [E1 A1].
  rewrite (bind_ok _ _ _ _ _ E1). cbn [fst snd ret].
  exists [Extractor.artifact_to_row a]. split; [exact A1|].
  unfold counts_rows. cbn. repeat split; lia.
Qed.

Lemma store_code_blocks_counted conv entry_id context blocks :
  counted (Extractor.store_code_blocks sha256 conv entry_id context blocks).
Proof.
  induction blocks as [|block rest IH]; [apply counted_ret|].
  eapply counted_ext;
    [intros r st; symmetry; apply store_code_blocks_cons|].
  apply (counted_seq _ _ (code_step_counted conv entry_id context block) IH).
Qed.

Lemma process_entry_counted entries conv i entry :
  counted (Extractor.process_entry sha256 entries conv i entry).
Proof.
  eapply counted_ext;
    [intros r st; symmetry; apply process_entry_blocks|].
  intros r st. unfold bind, lift.
  destruct (entry_blocks entry) as [blocks|];
    [apply store_code_blocks_counted|].
  exists []. cbn. rewrite app_nil_r. auto.
Qed.

Lemma process_entries_counted entries conv i todo :
  counted (Extractor.process_entries sha256 entries conv i todo).
Proof.
  revert i. induction todo as [|entry rest IH]; intros i; [apply counted_ret|].
  apply (counted_seq _ _ (process_entry_counted entries conv i entry) (IH (S i))).
Qed.

Lemma process_rows_counted rows conv i todo :
  counted (Extractor.process_rows sha256 rows conv i todo).
Proof.
  revert i. induction todo as [|entry rest IH]; intros i; [apply counted_ret|].
  cbn [Extractor.process_rows].
  destruct (negb (is_str (e_role entry) "assistant")); [apply IH|].
  apply (counted_seq _ _
           (store_code_blocks_counted conv (Some (e_id entry))
              (Ok (Extractor.stored_context rows i))
              (Extractor.extractCodeBlocks (e_content entry)))
           (IH (S i))).
Qed.

Variable order_by_entry_index : list entry_row -> list entry_row.

(** What a run of extraction reports.  The counters of a successful run are
    the numbers of [tool_call], [tool_result] and [code_block] rows the run
    appended, and it appended no other row; the stored-entries path reports
    its [code_block] rows and stores no other; a run that reports a failure
    stored nothing. *)
Theorem extraction_report (fs : filesystem) (filePath : string) (conv : nat)
    (st : store) :
  let reports (run : res Extractor.extract_result * store) :=
    exists rows,
      artifacts (snd run) = (artifacts st ++ rows)%list
      /\ match fst run with
         | Ok (Extractor.ExtractDone r) =>
             Extractor.toolCalls r = count_type "tool_call" rows
             /\ Extractor.toolResults r = count_type "tool_result" rows
             /\ Extractor.codeBlocks r = count_type "code_block" rows
             /\ Extractor.jsonObjects r = 0
             /\ length rows
                = Extractor.toolCalls r + Extractor.toolResults r
                  + Extractor.codeBlocks r
         | Ok (Extractor.ExtractEntriesDone codeBlocks jsonObjects _) =>
             codeBlocks = length rows
             /\ codeBlocks = count_type "code_block" rows
             /\ jsonObjects = 0
         | Ok (Extractor.ExtractFailure _) => rows = []
         | Throw => True
         end in
  reports (Extractor.processJSONLFile JSON_parse sha256 fs filePath conv st)
  /\ reports (Extractor.processConversationEntries JSON_parse sha256
                order_by_entry_index fs conv st).
Proof.
  cbn zeta.
  assert (Hfile : forall path,
             exists rows,
               artifacts (snd (Extractor.processJSONLFile JSON_parse sha256 fs
                                 path conv st))
               = (artifacts st ++ rows)%list
               /\ match fst (Extractor.processJSONLFile JSON_parse sha256 fs
                               path conv st) with
                  | Ok (Extractor.ExtractDone r) =>
                      Extractor.toolCalls r = count_type "tool_call" rows
                      /\ Extractor.toolResults r = count_type "tool_result" rows
                      /\ Extractor.codeBlocks r = count_type "code_block" rows
                      /\ Extractor.jsonObjects r = 0
                      /\ length rows
                         = Extractor.toolCalls r + Extractor.toolResults r
                           + Extractor.codeBlocks r
                  | Ok (Extractor.ExtractEntriesDone codeBlocks jsonObjects _) =>
                      codeBlocks = length rows
                      /\ codeBlocks = count_type "code_block" rows
                      /\ jsonObjects = 0
                  | Ok (Extractor.ExtractFailure _) => rows = []
                  | Throw => True
                  end).
  { intros path. unfold Extractor.processJSONLFile.
    destruct (fs path) as [file|];
      [|exists []; cbn; rewrite app_nil_r; split; reflexivity].
    set (entries := Extractor.decode_lines JSON_parse (nonblank_lines file)).
    set (calls := Extractor.collect_tool_calls JSON_parse (nonblank_lines file)).
    destruct (counted_seq _ _
                (process_tool_calls_counted entries conv calls)
                (process_entries_counted entries conv 0 entries)
                Extractor.no_counts st) as (rows & E & C).
    unfold bind in *.
    destruct (Extractor.process_tool_calls _ _ _ _ _ st) as [[r1|] st1];
      [|exists rows; auto].
    destruct (Extractor.process_entries _ _ _ _ _ r1 st1) as [[r2|] st2];
      [|exists rows; auto].
    exists rows. split; [exact E|]. cbn [fst snd] in *.
    destruct C as (C1 & C2 & C3 & C4 & _ & C6). cbn in C1, C2, C3, C4.
    repeat split; auto. lia. }
  split; [apply Hfile|].
  rewrite processConversationEntries_unfold.
  destruct (Queries.getConversation conv st) as [conversation|];
    [|exists []; cbn; rewrite app_nil_r; split; reflexivity].
  destruct (reads_file fs conversation); [apply Hfile|].
  set (rows := entries_of order_by_entry_index conv st).
  destruct (process_rows_counted rows conv 0 rows Extractor.no_counts st)
    as (added & E & C).
  destruct (process_rows_types sha256 rows conv 0 rows Extractor.no_counts st)
    as ((added' & E' & Hcode) & _).
  rewrite E in E'. apply app_inv_head in E'. subst added'.
  unfold bind.
  destruct (Extractor.process_rows _ _ _ _ _ _ st) as [[r1|] st1];
    [|exists added; auto].
  exists added. split; [exact E|]. cbn [fst snd] in *.
  destruct C as (_ & _ & C3 & C4 & _ & _). cbn in C3, C4.
  assert (Hall : count_type "code_block" added = length added).
  { clear -Hcode. induction Hcode as [|row rows Hrow _ IH]; [reflexivity|].
    unfold count_type in *. cbn. unfold code_row in Hrow. rewrite Hrow.
    cbn. now rewrite IH. }
  repeat split; auto; lia.
Qed.

End Counted.

(** ** An invocation is extracted once *)

Section ExtractedOnce.

Variable sha256 : string -> string.

Lemma process_tool_call_stored entries conv toolId call r st r1 :
  fst (Extractor.process_tool_call sha256 entries conv toolId call r st) = Ok r1 ->
  has_artifact
    (snd (Extractor.process_tool_call sha256 entries conv toolId call r st))
    conv (Extractor.tool_call_hash sha256 toolId call) = true.
Proof.
  unfold Extractor.process_tool_call. rewrite bind_artifactExists.
  destruct (has_artifact st conv _) eqn:Hhas; [intros _; exact Hhas|].
  destruct (Extractor.error_type_of _ call) as [et|];
    [rewrite bind_lift_ok|rewrite bind_lift_throw; discriminate].
  destruct (Extractor.getPromptContext entries _) as [ctx|];
    [rewrite bind_lift_ok|rewrite bind_lift_throw; discriminate].
  set (a := Extractor.tool_call_artifact sha256 conv toolId call et ctx).
  destruct (storeArtifact_appends a st) as [E1 A1].
  rewrite (bind_ok _ _ _ _ _ E1).
  pose proof (has_artifact_stored a st) as Hkey.
  set (st1 := snd (Extractor.storeArtifact a st)) in *.
  change (has_artifact st1 conv (Extractor.tool_call_hash sha256 toolId call)
          = true) in Hkey.
  intros _.
  destruct (truthy (Extractor.result call)); [|exact Hkey].
  rewrite bind_artifactExists.
  destruct (has_artifact st1 conv (Extractor.tool_result_hash _ _ _));
    cbn [negb]; [exact Hkey|].
  rewrite bind_lift_ok.
  set (b := Extractor.tool_result_artifact sha256 conv toolId call et).
  destruct (storeArtifact_appends b st1) as [E2 A2].
  rewrite (bind_ok _ _ _ _ _ E2). cbn [snd ret].
  eapply has_artifact_extends; [apply extends_stored|exact Hkey].
Qed.

(** An invocation is extracted once.  Once a turn of the loop over the
    invocations has returned for an id and an input, every later turn for
    the same id and input is skipped and stores nothing, whatever result the
    invocation holds by then: an invocation first extracted without its
    result keeps the outcome it was stored with, and its result is never
    stored. *)
Theorem tool_call_extracted_once (entries entries' : list value) (conv : nat)
    (toolId : value) (call call' : Extractor.tool_call)
    (r r1 r' : Extractor.extract_counts) (st : store) :
  fst (Extractor.process_tool_call sha256 entries conv toolId call r st) = Ok r1 ->
  Extractor.input call' = Extractor.input call ->
  let st1 :=
    snd (Extractor.process_tool_call sha256 entries conv toolId call r st) in
  Extractor.process_tool_call sha256 entries' conv toolId call' r' st1
  = (Ok (Extractor.bump_skipped r'), st1).
Proof.
  intros Hrun Hinput st1.
  pose proof (process_tool_call_stored _ _ _ _ _ _ _ Hrun) as Hkey.
  fold st1 in Hkey.
  unfold Extractor.process_tool_call at 1. rewrite bind_artifactExists.
  assert (Hhash : Extractor.tool_call_hash sha256 toolId call'
                  = Extractor.tool_call_hash sha256 toolId call)
    by (unfold Extractor.tool_call_hash; now rewrite Hinput).
  now rewrite Hhash, Hkey.
Qed.

End ExtractedOnce.

(** ** The queries over the artifacts *)

(** An artifact row as extraction stores it: of one of the three types, and
    a [code_block] has no outcome. *)
Definition row_ok (row : artifact_row) : Prop :=
  a_artifact_type row = "tool_call" \/ a_artifact_type row = "tool_result"
  \/ (a_artifact_type row = "code_block" /\ a_outcome row = None).

Lemma count_of_type_cons ty row rows :
  Queries.count_of_type ty (row :: rows)
  = (if String.eqb (a_artifact_type row) ty then 1 else 0)
    + Queries.count_of_type ty rows.
Proof.
  unfold Queries.count_of_type. cbn [List.filter].
  now destruct (String.eqb _ ty).
Qed.

Lemma stats_of_rows rows :
  Forall row_ok rows ->
  Queries.count_of_type "json_object" rows = 0
  /\ length rows
     = Queries.count_of_type "code_block" rows
       + Queries.count_of_type "tool_call" rows
       + Queries.count_of_type "tool_result" rows
  /\ length (List.filter Queries.is_error rows)
     <= Queries.count_of_type "tool_call" rows
        + Queries.count_of_type "tool_result" rows.
Proof.
  induction 1 as [|row rows Hrow _ (IH1 & IH2 & IH3)];
    [cbn; repeat split; lia|].
  rewrite !count_of_type_cons. cbn [List.filter length].
  assert (Herr : length (if Queries.is_error row
                         then row :: List.filter Queries.is_error rows
                         else List.filter Queries.is_error rows)
                 <= 1 + length (List.filter Queries.is_error rows))
    by (destruct (Queries.is_error row); cbn [length]; lia).
  destruct Hrow as [Hty|[Hty|[Hty Hout]]]; rewrite Hty.
  - change (String.eqb "tool_call" "json_object") with false.
    change (String.eqb "tool_call" "code_block") with false.
    change (String.eqb "tool_call" "tool_call") with true.
    change (String.eqb "tool_call" "tool_result") with false.
    cbv iota. repeat split; lia.
  - change (String.eqb "tool_result" "json_object") with false.
    change (String.eqb "tool_result" "code_block") with false.
    change (String.eqb "tool_result" "tool_call") with false.
    change (String.eqb "tool_result" "tool_result") with true.
    cbv iota. repeat split; lia.
  - change (String.eqb "code_block" "json_object") with false.
    change (String.eqb "code_block" "code_block") with true.
    change (String.eqb "code_block" "tool_call") with false.
    change (String.eqb "code_block" "tool_result") with false.
    cbv iota. unfold Queries.is_error at 1. rewrite Hout.
    repeat split; lia.
Qed.

Section ArtifactQueries.

Variable JSON_parse : string -> option value.
Variable sha256 : string -> string.
Variable sql_min sql_max : list value -> value.
Variable date_diff_seconds : value -> value -> value.
Variable order_by_entry_index : list entry_row -> list entry_row.

Lemma extracted_row_ok fs conv st row :
  extracted_row JSON_parse sha256 order_by_entry_index fs conv st row ->
  row_ok row.
Proof.
  assert (Htool : forall calls entries,
             tool_row sha256 calls entries conv row -> row_ok row).
  { intros calls entries
           (toolId & call & et & _ & _ & [(ctx & _ & ->)|(_ & ->)]);
      [left|right; left]; reflexivity. }
  assert (Hcode : forall entry_id context blocks,
             code_block_row sha256 conv entry_id context blocks row ->
             row_ok row).
  { intros entry_id context blocks (block & ctx & _ & _ & ->).
    right; right. split; reflexivity. }
  intros [(conversation & file & _ & _ & _ & [Hrow|Hrow])
         |(conversation & _ & _ & Hrow)].
  - eapply Htool; eauto.
  - destruct Hrow as (i & entry & blocks & _ & _ & Hrow). eapply Hcode; eauto.
  - destruct Hrow as (i & e & _ & _ & Hrow). eapply Hcode; eauto.
Qed.

Lemma reachable_rows_ok st :
  reachable JSON_parse sha256 sql_min sql_max date_diff_seconds
            order_by_entry_index st ->
  Forall row_ok (artifacts st).
Proof.
  induction 1 as [|st fs filePath projectId _ IH|st fs conv _ IH].
  - constructor.
  - now rewrite processFile_artifacts.
  - destruct (processConversationEntries_described JSON_parse sha256
                order_by_entry_index fs conv st) as ((rows & -> & F) & _).
    apply Forall_app. split; [exact IH|].
    eapply Forall_impl; [exact F|]. apply extracted_row_ok.
Qed.

(** The statistics over a store that parsing and extraction lead to, for one
    conversation or for all: no artifact of type [json_object] is counted,
    the total is the sum of the code blocks, tool calls and tool results,
    and every error is a tool call or a tool result. *)
Theorem artifact_statistics (st : store) (conversationId : option nat) :
  reachable JSON_parse sha256 sql_min sql_max date_diff_seconds
            order_by_entry_index st ->
  let stats := Queries.getArtifactStats conversationId st in
  Queries.json_objects stats = 0
  /\ Queries.total stats
     = Queries.code_blocks stats + Queries.tool_calls stats
       + Queries.tool_results stats
  /\ Queries.errors stats
     <= Queries.tool_calls stats + Queries.tool_results stats
  /\ Queries.total stats <= length (artifacts st).
Proof.
  intros Hreach. cbn zeta.
  pose proof (reachable_rows_ok st Hreach) as Hok.
  assert (Hscope : Forall row_ok (Queries.stats_scope conversationId st)
                   /\ length (Queries.stats_scope conversationId st)
                      <= length (artifacts st)).
  { unfold Queries.stats_scope. destruct conversationId as [[|n]|]; auto.
    split.
    - apply Forall_forall. intros row Hin. apply list_elem_of_In in Hin.
      apply filter_In in Hin as [Hin _].
      rewrite Forall_forall in Hok. apply Hok. now apply list_elem_of_In.
    - apply filter_length_le. }
  destruct Hscope as [Hrows Hlen].
  destruct (stats_of_rows _ Hrows) as (H1 & H2 & H3).
  unfold Queries.getArtifactStats. cbn. auto.
Qed.

End ArtifactQueries.

(** *** Pages of artifacts *)

Lemma map_res_app {A B} (f : A -> res B) (l1 l2 : list A) (r : list B) :
  Parser.map_res f (l1 ++ l2) = Ok r ->
  exists r1 r2,
    Parser.map_res f l1 = Ok r1 /\ Parser.map_res f l2 = Ok r2
    /\ r = (r1 ++ r2)%list.
Proof.
  revert r. induction l1 as [|x l1 IH]; intros r; cbn.
  - intros H. exists [], r. auto.
  - destruct (f x) as [y|]; cbn [res_bind]; [|discriminate].
    destruct (Parser.map_res f (l1 ++ l2)) as [ys|] eqn:E; cbn [res_bind];
      [|discriminate].
    intros [= <-]. destruct (IH ys eq_refl) as (r1 & r2 & -> & E2 & ->).
    exists (y :: r1), r2. cbn. auto.
Qed.

Lemma map_res_Forall2 {A B} (f : A -> res B) (l : list A) (r : list B) :
  Parser.map_res f l = Ok r -> Forall2 (fun x y => f x = Ok y) l r.
Proof.
  revert r. induction l as [|x l IH]; intros r; cbn.
  - intros [= <-]. constructor.
  - destruct (f x) as [y|] eqn:Hy; cbn [res_bind]; [|discriminate].
    destruct (Parser.map_res f l) as [ys|]; cbn [res_bind]; [|discriminate].
    intros [= <-]. constructor; auto.
Qed.

Lemma with_ids_lookup rows i row :
  In (i, row) (Queries.with_ids rows) ->
  1 <= i /\ nth_error rows (i - 1) = Some row.
Proof.
  unfold Queries.with_ids. intros Hin.
  assert (H : forall start l,
             In (i, row) (combine (seq start (length l)) l) ->
             start <= i /\ nth_error l (i - start) = Some row).
  { clear. intros start l. revert start.
    induction l as [|x l IH]; intros start; cbn; [intros []|].
    intros [[= <- <-]|Hin].
    - rewrite Nat.sub_diag. auto.
    - destruct (IH (S start) Hin) as [Hle Hnth]. split; [lia|].
      replace (i - start) with (S (i - S start)) by lia. exact Hnth. }
  exact (H 1 rows Hin).
Qed.

Lemma with_ids_sorted rows :
  StronglySorted lt (map fst (Queries.with_ids rows)).
Proof.
  unfold Queries.with_ids.
  assert (H : forall start (l : list artifact_row),
             StronglySorted lt (map fst (combine (seq start (length l)) l))
             /\ Forall (fun i => start <= i)
                       (map fst (combine (seq start (length l)) l))).
  { intros start l. revert start.
    induction l as [|x l IH]; intros start; cbn; [split; constructor|].
    destruct (IH (S start)) as [Hs Hf]. split.
    - constructor; [exact Hs|]. eapply Forall_impl; [exact Hf|].
      cbn. intros i Hi. lia.
    - constructor; [lia|]. eapply Forall_impl; [exact Hf|].
      cbn. intros i Hi. lia. }
  apply H.
Qed.

Lemma sublist_In {A} (l l' : list A) x : sublist l' l -> In x l' -> In x l.
Proof.
  intros Hsub Hin. apply list_elem_of_In.
  apply (sublist_subseteq _ _ Hsub). now apply list_elem_of_In.
Qed.

Lemma filter_sublist {A} (p : A -> bool) (l : list A) :
  sublist (List.filter p l) l.
Proof.
  induction l as [|x l IH]; cbn; [constructor|].
  destruct (p x); now constructor.
Qed.

Lemma map_sublist {A B} (f : A -> B) (l l' : list A) :
  sublist l' l -> sublist (map f l') (map f l).
Proof. induction 1; cbn; now constructor. Qed.

Lemma StronglySorted_sublist {A} (R : A -> A -> Prop) (l l' : list A) :
  sublist l' l -> StronglySorted R l -> StronglySorted R l'.
Proof.
  intros Hsub Hs. revert l' Hsub.
  induction Hs as [|x l Hs IH Hx]; intros l' Hsub.
  - apply sublist_nil_r in Hsub. subst. constructor.
  - apply sublist_cons_r in Hsub as [Hsub|(k & -> & Hsub)]; [auto|].
    constructor; [auto|].
    apply Forall_forall. intros y Hy.
    rewrite Forall_forall in Hx. apply Hx.
    apply list_elem_of_In. eapply sublist_In; [exact Hsub|].
    now apply list_elem_of_In.
Qed.

Section ArtifactPages.

Variable JSON_parse : string -> option value.
Variable sql_equal : value -> string -> bool.

#[local] Abbreviation getConversationArtifacts :=
  (Queries.getConversationArtifacts JSON_parse sql_equal).

(** The options with another window. *)
Definition window (o : Queries.artifact_options) (offset limit : nat)
  : Queries.artifact_options :=
  {| Queries.o_type := Queries.o_type o;
     Queries.o_toolName := Queries.o_toolName o;
     Queries.o_outcome := Queries.o_outcome o;
     Queries.o_limit := Some limit;
     Queries.o_offset := Some offset |}.

Lemma getConversationArtifacts_window conversationId o offset limit st :
  getConversationArtifacts conversationId (window o offset limit) st
  = Parser.map_res (Queries.decode_metadata JSON_parse)
      (take limit
         (drop offset
            (List.filter
               (fun row => Queries.selected sql_equal conversationId o (snd row))
               (Queries.with_ids (artifacts st))))).
Proof. reflexivity. Qed.

(** The pages of [getConversationArtifacts].  A page holds at most [limit]
    rows, 100 when no limit is given; each is a row of the table with its
    id, belongs to the conversation and passes every filter that is set; the
    ids increase strictly; and two adjacent windows together return what the
    one window over both returns. *)
Theorem artifact_pages (conversationId : nat) (o : Queries.artifact_options)
    (st : store) :
  (forall results,
      getConversationArtifacts conversationId o st = Ok results ->
      length results <= default 100 (Queries.o_limit o)
      /\ Forall (fun r =>
                   nth_error (artifacts st) (Queries.r_id r - 1)
                   = Some (Queries.r_row r)
                   /\ 1 <= Queries.r_id r
                   /\ Queries.selected sql_equal conversationId o (Queries.r_row r)
                      = true) results
      /\ StronglySorted lt (map Queries.r_id results))
  /\ (forall offset l1 l2 results,
         getConversationArtifacts conversationId (window o offset (l1 + l2)) st
         = Ok results ->
         exists page1 page2,
           getConversationArtifacts conversationId (window o offset l1) st
           = Ok page1
           /\ getConversationArtifacts conversationId
                (window o (offset + l1) l2) st = Ok page2
           /\ results = (page1 ++ page2)%list).
Proof.
  split.
  - intros results Hrun. unfold Queries.getConversationArtifacts in Hrun.
    cbn zeta in Hrun.
    set (limit := default 100 (Queries.o_limit o)) in *.
    set (chosen := take limit _) in Hrun.
    pose proof (map_res_Forall2 _ _ _ Hrun) as Hall.
    assert (Hsub : sublist chosen (Queries.with_ids (artifacts st))).
    { unfold chosen. etrans; [apply sublist_take|].
      etrans; [apply sublist_drop|]. apply filter_sublist. }
    assert (Hsel : Forall (fun row => Queries.selected sql_equal conversationId o
                                        (snd row) = true) chosen).
    { apply Forall_forall. intros row Hin. apply list_elem_of_In in Hin.
      unfold chosen in Hin.
      eapply sublist_In in Hin; [|etrans; [apply sublist_take|apply sublist_drop]].
      apply filter_In in Hin. apply Hin. }
    assert (Hdec : forall row r, Queries.decode_metadata JSON_parse row = Ok r ->
                                 Queries.r_id r = fst row
                                 /\ Queries.r_row r = snd row).
    { intros row r. unfold Queries.decode_metadata.
      destruct (Extractor.or_null _) as [text|];
        [destruct (JSON_parse text)|]; intros [= <-]; auto. }
    split; [|split].
    + rewrite <- (Forall2_length _ _ _ Hall). unfold chosen.
      rewrite length_take. lia.
    + clear Hrun. clearbody chosen. revert Hsub Hsel.
      induction Hall as [|row r rows rs Hr _ IH]; intros Hsub Hsel;
        [constructor|].
      apply Forall_cons in Hsel as [Hs Hsel].
      assert (Hsub' : sublist rows (Queries.with_ids (artifacts st))).
      { etrans; [|exact Hsub]. now apply sublist_cons. }
      constructor; [|apply IH; auto].
      destruct (Hdec _ _ Hr) as [Hid Hrow]. rewrite Hid, Hrow.
      assert (Hin : In row (Queries.with_ids (artifacts st))).
      { eapply sublist_In; [exact Hsub|]. now left. }
      destruct row as [i a]. destruct (with_ids_lookup _ _ _ Hin). auto.
    + assert (Hids : map Queries.r_id results = map fst chosen).
      { clear -Hall Hdec. induction Hall as [|row r rows rs Hr _ IH];
          [reflexivity|].
        cbn. destruct (Hdec _ _ Hr) as [-> _]. now rewrite IH. }
      rewrite Hids.
      apply (StronglySorted_sublist lt
               (map fst (Queries.with_ids (artifacts st))));
        [|apply with_ids_sorted].
      apply map_sublist. exact Hsub.
  - intros offset l1 l2 results Hrun.
    rewrite getConversationArtifacts_window in Hrun.
    rewrite !getConversationArtifacts_window.
    set (all := List.filter _ (Queries.with_ids (artifacts st))) in *.
    assert (Hsplit : take (l1 + l2) (drop offset all)
                     = (take l1 (drop offset all)
                          ++ take l2 (drop (offset + l1) all))%list).
    { rewrite <- drop_drop. symmetry. apply take_take_drop. }
    rewrite Hsplit in Hrun.
    destruct (map_res_app _ _ _ _ Hrun) as (page1 & page2 & E1 & E2 & ->).
    exists page1, page2. auto.
Qed.

End ArtifactPages.

(** * The configuration extractor *)

(** ** Snapshots *)

Definition snapshot_key (s : ConfigExtractor.snapshot_row) : string * string :=
  (ConfigExtractor.s_file_path s, ConfigExtractor.s_file_hash s).

Lemma snapshot_exists_spec filePath fileHash st :
  ConfigExtractor.snapshot_exists filePath fileHash st = true
  <-> In (filePath, fileHash) (map snapshot_key st).
Proof.
  unfold ConfigExtractor.snapshot_exists.
  rewrite existsb_exists, in_map_iff. split.
  - intros (s & Hin & Hs). exists s. split; [|exact Hin].
    apply andb_true_iff in Hs as [Hp Hh].
    apply String.eqb_eq in Hp, Hh. unfold snapshot_key. congruence.
  - intros (s & Hs & Hin). exists s. split; [exact Hin|].
    unfold snapshot_key in Hs. injection Hs as <- <-.
    now rewrite !String.eqb_refl.
Qed.

Lemma getFileType_cases filePath :
  In (ConfigExtractor.getFileType filePath)
     ["settings"; "plugin"; "hooks"; "claude_md"; "unknown"].
Proof.
  unfold ConfigExtractor.getFileType.
  repeat match goal with
         | |- context [if ?b then _ else _] => destruct b
         end; cbn; auto 10.
Qed.

Section ConfigSnapshots.

Variable JSON_parse : string -> option value.
Variable sha256 : string -> string.
Variable syntax_error : string -> string.
Variable read_error : value -> string -> string.
Variable map_error : string.
Variable project_known : value -> bool.

#[local] Abbreviation config_processFile :=
  (ConfigExtractor.processFile JSON_parse sha256 syntax_error read_error
     map_error project_known).
#[local] Abbreviation extract_metadata :=
  (ConfigExtractor.extract_metadata JSON_parse syntax_error read_error
     map_error).

Lemma extract_metadata_unknown content :
  extract_metadata "unknown" content = None.
Proof. reflexivity. Qed.

Lemma extract_metadata_none filePath content :
  extract_metadata (ConfigExtractor.getFileType filePath) content = None ->
  ConfigExtractor.getFileType filePath = "unknown".
Proof.
  destruct (getFileType_cases filePath) as [<-|[<-|[<-|[<-|[<-|[]]]]]];
    cbn; try discriminate. reflexivity.
Qed.

(** The snapshot [processFile] appends. *)
Definition new_snapshot (projectId : value) (filePath content : string)
    (metadata : value) : ConfigExtractor.snapshot_row :=
  {| ConfigExtractor.s_project_id := projectId;
     ConfigExtractor.s_file_path := filePath;
     ConfigExtractor.s_file_type := ConfigExtractor.getFileType filePath;
     ConfigExtractor.s_file_hash := sha256 content;
     ConfigExtractor.s_metadata := Extractor.serialized metadata |}.

Lemma config_processFile_unfold fs filePath projectId st :
  config_processFile fs filePath projectId st
  = match fs filePath with
    | None => (Ok (ConfigExtractor.ConfigFailure "File not found"), st)
    | Some content =>
        if ConfigExtractor.snapshot_exists filePath (sha256 content) st
        then (Ok ConfigExtractor.ConfigUnchanged, st)
        else
          match extract_metadata (ConfigExtractor.getFileType filePath) content with
          | None => (Ok (ConfigExtractor.ConfigFailure "Unknown file type"), st)
          | Some metadata =>
              if project_known projectId
              then
                (Ok (ConfigExtractor.ConfigStored
                       (ConfigExtractor.getFileType filePath) metadata),
                 (st ++ [new_snapshot projectId filePath content metadata])%list)
              else (Throw, st)
          end
    end.
Proof.
  unfold ConfigExtractor.processFile.
  destruct (fs filePath) as [content|]; [|reflexivity].
  unfold bind, ConfigExtractor.snapshotExists, ConfigExtractor.storeSnapshot.
  destruct (ConfigExtractor.snapshot_exists filePath (sha256 content) st) eqn:Hex;
    [reflexivity|].
  destruct (extract_metadata _ content); [|reflexivity].
  rewrite Hex. destruct (project_known projectId); reflexivity.
Qed.

Lemma snapshot_exists_new projectId filePath content metadata st :
  ConfigExtractor.snapshot_exists filePath (sha256 content)
    (st ++ [new_snapshot projectId filePath content metadata])%list
  = true.
Proof.
  unfold ConfigExtractor.snapshot_exists. rewrite existsb_app. cbn.
  now rewrite !String.eqb_refl, orb_true_r.
Qed.

(** A configuration file is stored once per content.  A run of [processFile]
    either fails and stores nothing (the file is missing, or its name is of
    no known type), or finds the snapshot of the file's content stored and
    leaves the table as it is, or appends one snapshot that holds the path,
    the type of the file name, the hash of the content and the
    serialization of the metadata extracted for that type.  The run raises
    only when the insert is refused for its project, never for the
    uniqueness of path and hash, and stores nothing then.  After a run that
    stored a snapshot, a run on the same file, for whatever project, reports
    it unchanged and stores nothing; and the table never holds two snapshots
    of the same path and hash. *)
Theorem config_snapshot_once (fs : filesystem) (filePath : string)
    (projectId projectId' : value) (st : ConfigExtractor.snapshots) :
  let run := config_processFile fs filePath projectId st in
  (NoDup (map snapshot_key st) -> NoDup (map snapshot_key (snd run)))
  /\ match fst run with
     | Ok (ConfigExtractor.ConfigStored fileType metadata) =>
         exists content,
           fs filePath = Some content
           /\ fileType = ConfigExtractor.getFileType filePath
           /\ fileType <> "unknown"
           /\ project_known projectId = true
           /\ extract_metadata fileType content = Some metadata
           /\ snd run
              = (st ++ [{| ConfigExtractor.s_project_id := projectId;
                           ConfigExtractor.s_file_path := filePath;
                           ConfigExtractor.s_file_type := fileType;
                           ConfigExtractor.s_file_hash := sha256 content;
                           ConfigExtractor.s_metadata :=
                             Extractor.serialized metadata |}])%list
           /\ config_processFile fs filePath projectId' (snd run)
              = (Ok ConfigExtractor.ConfigUnchanged, snd run)
     | Ok ConfigExtractor.ConfigUnchanged =>
         snd run = st
         /\ exists content,
             fs filePath = Some content
             /\ In (filePath, sha256 content) (map snapshot_key st)
     | Ok (ConfigExtractor.ConfigFailure error) =>
         snd run = st
         /\ ((error = "File not found" /\ fs filePath = None)
             \/ (error = "Unknown file type"
                 /\ ConfigExtractor.getFileType filePath = "unknown"
                 /\ fs filePath <> None))
     | Throw =>
         snd run = st
         /\ project_known projectId = false
         /\ exists content,
             fs filePath = Some content
             /\ ~ In (filePath, sha256 content) (map snapshot_key st)
             /\ ConfigExtractor.getFileType filePath <> "unknown"
     end.
Proof.
  cbn zeta. rewrite config_processFile_unfold.
  destruct (fs filePath) as [content|] eqn:Hfs.
  2:{ cbn [fst snd]. split; [exact (fun H => H)|].
      split; [reflexivity|]. left. split; reflexivity. }
  destruct (ConfigExtractor.snapshot_exists filePath (sha256 content) st) eqn:Hex.
  { cbn [fst snd]. split; [exact (fun H => H)|]. split; [reflexivity|].
    exists content. split; [reflexivity|]. now apply snapshot_exists_spec. }
  destruct (extract_metadata (ConfigExtractor.getFileType filePath) content)
    as [metadata|] eqn:Hmeta.
  2:{ cbn [fst snd]. split; [exact (fun H => H)|]. split; [reflexivity|].
      right. split; [reflexivity|]. split; [|discriminate].
      eapply extract_metadata_none; eauto. }
  assert (Htype : ConfigExtractor.getFileType filePath <> "unknown").
  { intros Hunknown. rewrite Hunknown in Hmeta. discriminate. }
  destruct (project_known projectId) eqn:Hknown.
  2:{ cbn [fst snd]. split; [exact (fun H => H)|]. split; [reflexivity|].
      split; [reflexivity|]. exists content. split; [reflexivity|].
      split; [|exact Htype].
      intros Hin. apply snapshot_exists_spec in Hin. congruence. }
  cbn [fst snd]. split.
  - intros Huniq. rewrite map_app. apply NoDup_app.
    split; [exact Huniq|]. split; [|apply NoDup_singleton].
    intros key Hkey Hin. apply list_elem_of_singleton in Hin. subst key.
    apply list_elem_of_In, snapshot_exists_spec in Hkey. cbn in Hkey.
    congruence.
  - exists content. split; [reflexivity|]. split; [reflexivity|].
    split; [exact Htype|]. split; [reflexivity|].
    split; [exact Hmeta|]. split; [reflexivity|].
    rewrite config_processFile_unfold, Hfs.
    now rewrite snapshot_exists_new.
Qed.

End ConfigSnapshots.

(** ** Plugins *)

Lemma prop_of_value v k : is_nullish v = false -> prop v k = Ok (prop_opt v k).
Proof. destruct v; cbn; congruence. Qed.

Lemma prop_of_nullish v k : is_nullish v = true -> prop v k = Throw.
Proof. destruct v; cbn; congruence. Qed.

(** The entry [extractPlugins] lists for a plugin. *)
Definition plugin_entry (plugin entry : value) : Prop :=
  entry
  = VObj [("name", js_or (prop_opt plugin "name") plugin);
          ("version", js_or (prop_opt plugin "version") VNull);
          ("enabled",
           VBool (ConfigExtractor.not_false (prop_opt plugin "enabled")))].

Section Plugins.

Variable JSON_parse : string -> option value.
Variable syntax_error : string -> string.
Variable read_error : value -> string -> string.
Variable map_error : string.

#[local] Abbreviation extractPlugins :=
  (ConfigExtractor.extractPlugins JSON_parse syntax_error read_error map_error).

Lemma plugin_entries_all items :
  Forall (fun plugin => is_nullish plugin = false) items ->
  exists entries,
    ConfigExtractor.plugin_entries read_error items = inr entries
    /\ Forall2 plugin_entry items entries.
Proof.
  induction 1 as [|plugin rest Hplugin _ (entries & Hrest & Hall)].
  - exists []. split; [reflexivity|constructor].
  - cbn [ConfigExtractor.plugin_entries].
    rewrite (prop_of_value _ _ Hplugin), Hrest.
    eexists. split; [reflexivity|]. constructor; [reflexivity|exact Hall].
Qed.

Lemma plugin_entries_first before plugin after :
  Forall (fun plugin => is_nullish plugin = false) before ->
  is_nullish plugin = true ->
  ConfigExtractor.plugin_entries read_error (before ++ plugin :: after)
  = inl (read_error plugin "name").
Proof.
  intros Hbefore Hplugin.
  induction Hbefore as [|p rest Hp _ IH]; cbn [app ConfigExtractor.plugin_entries].
  - now rewrite (prop_of_nullish _ _ Hplugin).
  - now rewrite (prop_of_value _ _ Hp), IH.
Qed.

(** The plugin list of a plugin file.  When the file decodes to a value
    whose [plugins] is an array (or is falsy, which counts as the empty
    array) and no plugin is [null], the metadata counts the plugins and
    lists one entry per plugin, in order: its name (the plugin itself when
    it has no truthy name), its version or [null], and [enabled], which is
    false only for a plugin whose [enabled] is [false].  A [null] among the
    plugins makes the whole metadata the error of the first one; a file that
    does not decode, that decodes to [null], or whose [plugins] is truthy
    and not an array gives an error as well. *)
Theorem plugins_listed (content : string) :
  let metadata := extractPlugins content in
  match JSON_parse content with
  | None => metadata = ConfigExtractor.error_metadata (syntax_error content)
  | Some config =>
      if is_nullish config
      then metadata
           = ConfigExtractor.error_metadata (read_error config "plugins")
      else
        match js_or (prop_opt config "plugins") (VArr []) with
        | VArr items =>
            (Forall (fun plugin => is_nullish plugin = false) items ->
             exists entries,
               metadata
               = VObj [("pluginCount",
                        ConfigExtractor.number (length items));
                       ("plugins", VArr entries)]
               /\ Forall2 plugin_entry items entries)
            /\ (forall before plugin after,
                   items = (before ++ plugin :: after)%list ->
                   Forall (fun plugin => is_nullish plugin = false) before ->
                   is_nullish plugin = true ->
                   metadata
                   = ConfigExtractor.error_metadata (read_error plugin "name"))
        | _ => metadata = ConfigExtractor.error_metadata map_error
        end
  end.
Proof.
  cbn zeta. unfold ConfigExtractor.extractPlugins.
  destruct (JSON_parse content) as [config|]; [|reflexivity].
  destruct (is_nullish config) eqn:Hconfig.
  { now rewrite (prop_of_nullish _ _ Hconfig). }
  rewrite (prop_of_value _ _ Hconfig).
  destruct (js_or (prop_opt config "plugins") (VArr [])) as [| |b|n|s|items|fields];
    try reflexivity.
  split.
  - intros Hall. destruct (plugin_entries_all items Hall) as (entries & -> & H2).
    exists entries. split; [|exact H2].
    now rewrite (Forall2_length _ _ _ H2).
  - intros before plugin after -> Hbefore Hplugin.
    now rewrite (plugin_entries_first _ _ _ Hbefore Hplugin).
Qed.

End Plugins.

(** ** Section headers *)

(** [n] hash signs. *)
Fixpoint hashes (n : nat) : string :=
  match n with
  | 0 => ""
  | S k => String "#"%char (hashes k)
  end.

Lemma length_hashes n : String.length (hashes n) = n.
Proof. induction n as [|n IH]; cbn; auto. Qed.

Lemma count_prefix_hashes n c rest :
  Ascii.eqb "#"%char c = false ->
  ConfigExtractor.count_prefix (Ascii.eqb "#"%char) (hashes n ++ String c rest)
  = n.
Proof.
  intros Hc. induction n as [|n IH].
  - rewrite append_nil_l. cbn [ConfigExtractor.count_prefix]. now rewrite Hc.
  - cbn [hashes]. rewrite append_cons. cbn [ConfigExtractor.count_prefix].
    rewrite Ascii.eqb_refl. now rewrite IH.
Qed.

Lemma take_while_all p s :
  str_forall p s = true -> ConfigExtractor.take_while p s = s.
Proof.
  induction s as [|c s IH]; [reflexivity|]. cbn [str_forall].
  intros H. apply andb_true_iff in H as [Hc Hs].
  cbn [ConfigExtractor.take_while]. now rewrite Hc, IH.
Qed.

Lemma header_match_level line n text :
  ConfigExtractor.header_match line = Some (n, text) -> 1 <= n <= 6.
Proof.
  unfold ConfigExtractor.header_match.
  set (k := ConfigExtractor.count_prefix _ line).
  destruct ((1 <=? k)%nat && (k <=? 6)%nat) eqn:Hk; [|discriminate].
  apply andb_true_iff in Hk as [H1 H6].
  apply Nat.leb_le in H1, H6.
  destruct (ConfigExtractor.count_prefix is_ws _); [discriminate|].
  destruct (str_drop _ _).
  - destruct (ConfigExtractor.last_dot _); [|discriminate].
    intros [= <- _]. lia.
  - intros [= <- _]. lia.
Qed.

Lemma omap_length {A B} (f : A -> option B) (l : list A) :
  length (omap f l) <= length l.
Proof.
  induction l as [|x l IH]; [reflexivity|]. cbn.
  destruct (f x); cbn; lia.
Qed.

Lemma in_omap {A B} (f : A -> option B) (l : list A) (y : B) :
  In y (omap f l) -> exists x, In x l /\ f x = Some y.
Proof.
  induction l as [|x l IH]; cbn; [intros []|].
  destruct (f x) as [z|] eqn:Hz.
  - intros [<-|Hin]; [eauto|]. destruct (IH Hin) as (x' & Hx & Hf). eauto.
  - intros Hin. destruct (IH Hin) as (x' & Hx & Hf). eauto.
Qed.

(** The section headers found in a hooks file or an instruction file.  Each
    has a level between 1 and 6 and a title without white space around it,
    and there is at most one per line.  A line of one to six hash signs, a
    space and a text that starts with a character that is not white space
    and holds no line terminator is a header of that level with the trimmed
    text as title; a line that starts with seven hash signs or more is not a
    header. *)
Theorem section_headers (lines : list string) :
  Forall (fun h =>
            1 <= ConfigExtractor.level h <= 6
            /\ trim (ConfigExtractor.title h) = ConfigExtractor.title h)
         (ConfigExtractor.headers_of lines)
  /\ length (ConfigExtractor.headers_of lines) <= length lines
  /\ (forall n c rest,
         1 <= n <= 6 -> is_ws c = false ->
         str_forall ConfigExtractor.is_dot (String c rest) = true ->
         ConfigExtractor.header_of (hashes n ++ " " ++ String c rest)
         = Some {| ConfigExtractor.level := n;
                   ConfigExtractor.title := trim (String c rest) |})
  /\ (forall line,
         6 < ConfigExtractor.count_prefix (Ascii.eqb "#"%char) line ->
         ConfigExtractor.header_of line = None).
Proof.
  split; [|split; [|split]].
  - apply Forall_forall. intros h Hin. apply list_elem_of_In in Hin.
    apply in_omap in Hin as (line & _ & Hh).
    unfold ConfigExtractor.header_of in Hh.
    destruct (ConfigExtractor.header_match line) as [[n text]|] eqn:Hm;
      [|discriminate].
    injection Hh as <-. cbn. split; [|apply trim_idempotent].
    eapply header_match_level; eauto.
  - apply omap_length.
  - intros n c rest Hn Hc Hdot.
    unfold ConfigExtractor.header_of, ConfigExtractor.header_match.
    change (" " ++ String c rest) with (String " "%char (String c rest)).
    rewrite (count_prefix_hashes n " "%char _ eq_refl).
    assert (Hle : ((1 <=? n)%nat && (n <=? 6)%nat) = true).
    { apply andb_true_iff. split; apply Nat.leb_le; lia. }
    rewrite Hle. cbv zeta.
    assert (Hd : str_drop n (hashes n ++ String " "%char (String c rest))
                 = String " "%char (String c rest)).
    { rewrite <- (length_hashes n) at 1. apply str_drop_app. }
    rewrite Hd.
    assert (Hsp : ConfigExtractor.count_prefix is_ws
                    (String " "%char (String c rest)) = 1).
    { cbn [ConfigExtractor.count_prefix].
      change (is_ws " "%char) with true. cbv iota. now rewrite Hc. }
    rewrite Hsp. cbn [str_drop].
    now rewrite (take_while_all _ _ Hdot).
  - intros line Hmany.
    unfold ConfigExtractor.header_of, ConfigExtractor.header_match.
    apply Nat.leb_gt in Hmany. rewrite Hmany. now rewrite andb_false_r.
Qed.

(** ** Hook names *)

Lemma length_str_map f s : String.length (str_map f s) = String.length s.
Proof. induction s as [|c s IH]; cbn; auto. Qed.

Lemma str_take_map f n s : str_take n (str_map f s) = str_map f (str_take n s).
Proof.
  revert s. induction n as [|n IH]; intros [|c s]; cbn; auto.
  now rewrite IH.
Qed.

Lemma prefix_take a b :
  String.prefix a b = true -> str_take (String.length a) b = a.
Proof.
  revert b. induction a as [|c a IH]; intros b; [now destruct b|].
  destruct b as [|d b]; [discriminate|].
  change (String.prefix (String c a) (String d b))
    with (match ascii_dec c d with
          | left _ => String.prefix a b
          | right _ => false
          end).
  destruct (ascii_dec c d) as [<-|]; [|discriminate].
  intros H. cbn. now rewrite IH.
Qed.

Lemma first_ci_variant pattern line name :
  ConfigExtractor.first_ci pattern line = Some name ->
  toLowerCase name = toLowerCase pattern.
Proof.
  induction line as [|c line IH]; cbn [ConfigExtractor.first_ci].
  - destruct (String.prefix _ _) eqn:Hp; [|discriminate].
    intros [= <-]. unfold toLowerCase in *.
    rewrite <- str_take_map, <- (length_str_map lower_char pattern).
    now apply prefix_take.
  - destruct (String.prefix _ _) eqn:Hp; [|exact IH].
    intros [= <-]. unfold toLowerCase in *.
    rewrite <- str_take_map, <- (length_str_map lower_char pattern).
    now apply prefix_take.
Qed.

Lemma listed_spec name hooks :
  ConfigExtractor.listed name hooks = true <-> In name hooks.
Proof.
  unfold ConfigExtractor.listed. rewrite existsb_exists. split.
  - intros (h & Hin & Hh). apply String.eqb_eq in Hh. now subst.
  - intros Hin. exists name. split; [exact Hin|apply String.eqb_refl].
Qed.

(** A spelling of one of the five hook names. *)
Definition hook_spelling (name : string) : Prop :=
  exists pattern,
    In pattern ConfigExtractor.hookPatterns
    /\ toLowerCase name = toLowerCase pattern.

(** Some spelling of [pattern] is listed. *)
Definition spelled (pattern : string) (hooks : list string) : Prop :=
  exists name, In name hooks /\ toLowerCase name = toLowerCase pattern.

Definition hooks_inv (hooks : list string) : Prop :=
  NoDup hooks /\ Forall hook_spelling hooks.

Lemma hook_step_cases line hooks pattern :
  ConfigExtractor.hook_step line hooks pattern = hooks
  \/ exists name,
      ConfigExtractor.first_ci pattern line = Some name
      /\ ~ In name hooks
      /\ ConfigExtractor.hook_step line hooks pattern = (hooks ++ [name])%list.
Proof.
  unfold ConfigExtractor.hook_step.
  destruct (ConfigExtractor.first_ci pattern line) as [name|]; [|now left].
  destruct (negb (ConfigExtractor.listed pattern hooks)); [|now left].
  destruct (negb (str_empty name)); [|now left].
  destruct (ConfigExtractor.listed name hooks) eqn:Hl; [now left|].
  right. exists name. repeat split; auto.
  intros Hin. apply listed_spec in Hin. congruence.
Qed.

Lemma hook_step_inv line hooks pattern :
  In pattern ConfigExtractor.hookPatterns ->
  hooks_inv hooks -> hooks_inv (ConfigExtractor.hook_step line hooks pattern).
Proof.
  intros Hp [Hnd Hsp].
  destruct (hook_step_cases line hooks pattern) as [->|(name & Hf & Hnew & ->)];
    [split; assumption|].
  split.
  - apply NoDup_app. split; [exact Hnd|]. split; [|apply NoDup_singleton].
    intros x Hx Hin. apply list_elem_of_singleton in Hin. subst x.
    apply Hnew. now apply list_elem_of_In.
  - apply Forall_app. split; [exact Hsp|]. constructor; [|constructor].
    exists pattern. split; [exact Hp|]. eapply first_ci_variant; eauto.
Qed.

Lemma hook_step_grows line hooks pattern name :
  In name hooks -> In name (ConfigExtractor.hook_step line hooks pattern).
Proof.
  intros Hin.
  destruct (hook_step_cases line hooks pattern) as [->|(x & _ & _ & ->)]; auto.
  apply in_or_app. now left.
Qed.

Lemma hook_step_spelled line hooks pattern :
  pattern <> "" ->
  ConfigExtractor.first_ci pattern line <> None ->
  spelled pattern (ConfigExtractor.hook_step line hooks pattern).
Proof.
  intros Hne Hfound. unfold ConfigExtractor.hook_step.
  destruct (ConfigExtractor.first_ci pattern line) as [name|] eqn:Hf;
    [|contradiction].
  pose proof (first_ci_variant _ _ _ Hf) as Hvar.
  destruct (ConfigExtractor.listed pattern hooks) eqn:Hlp; cbn [negb andb].
  { exists pattern. split; [now apply listed_spec|reflexivity]. }
  destruct (str_empty name) eqn:He; cbn [negb andb].
  { exfalso. apply str_empty_true in He. subst name.
    destruct pattern; [contradiction|discriminate]. }
  destruct (ConfigExtractor.listed name hooks) eqn:Hln; cbn [negb].
  - exists name. split; [now apply listed_spec|exact Hvar].
  - exists name. split; [apply in_or_app; right; now left|exact Hvar].
Qed.

Lemma patterns_inv line patterns hooks :
  (forall p, In p patterns -> In p ConfigExtractor.hookPatterns) ->
  hooks_inv hooks ->
  hooks_inv (fold_left (ConfigExtractor.hook_step line) patterns hooks).
Proof.
  revert hooks. induction patterns as [|p rest IH]; intros hooks Hsub Hinv;
    [exact Hinv|].
  cbn [fold_left]. apply IH; [intros q Hq; apply Hsub; now right|].
  apply hook_step_inv; [apply Hsub; now left|exact Hinv].
Qed.

Lemma patterns_grow line patterns hooks name :
  In name hooks ->
  In name (fold_left (ConfigExtractor.hook_step line) patterns hooks).
Proof.
  revert hooks. induction patterns as [|p rest IH]; intros hooks Hin;
    [exact Hin|].
  cbn [fold_left]. apply IH. now apply hook_step_grows.
Qed.

Lemma spelled_grows pattern hooks hooks' :
  (forall name, In name hooks -> In name hooks') ->
  spelled pattern hooks -> spelled pattern hooks'.
Proof. intros Hsub (name & Hin & Hv). exists name. auto. Qed.

Lemma patterns_spelled line patterns hooks pattern :
  In pattern patterns -> pattern <> "" ->
  ConfigExtractor.first_ci pattern line <> None ->
  spelled pattern (fold_left (ConfigExtractor.hook_step line) patterns hooks).
Proof.
  revert hooks. induction patterns as [|p rest IH]; intros hooks Hin Hne Hf;
    [contradiction|].
  cbn [fold_left]. destruct Hin as [->|Hin]; [|now apply IH].
  eapply spelled_grows; [|apply hook_step_spelled; eauto].
  intros name. apply patterns_grow.
Qed.

Lemma lines_grow lines hooks name :
  In name hooks ->
  In name (fold_left
             (fun hooks line =>
                fold_left (ConfigExtractor.hook_step line)
                          ConfigExtractor.hookPatterns hooks) lines hooks).
Proof.
  revert hooks. induction lines as [|line rest IH]; intros hooks Hin;
    [exact Hin|].
  cbn [fold_left]. apply IH. now apply patterns_grow.
Qed.

(** The hook names [extractHooks] lists.  Each is a spelling of one of the
    five hook names, and none is listed twice.  Every hook name that a line
    of the file mentions, in whatever case, is listed in some spelling. *)
Theorem hooks_listed (lines : list string) :
  let hooks := ConfigExtractor.hooks_of lines in
  NoDup hooks
  /\ Forall hook_spelling hooks
  /\ (forall line pattern,
         In line lines -> In pattern ConfigExtractor.hookPatterns ->
         ConfigExtractor.first_ci pattern line <> None ->
         spelled pattern hooks).
Proof.
  cbn zeta. unfold ConfigExtractor.hooks_of.
  assert (Hinv : forall todo hooks,
             hooks_inv hooks ->
             hooks_inv (fold_left
                          (fun hooks line =>
                             fold_left (ConfigExtractor.hook_step line)
                                       ConfigExtractor.hookPatterns hooks)
                          todo hooks)).
  { induction todo as [|line rest IH]; intros hooks H; [exact H|].
    cbn [fold_left]. apply IH. now apply patterns_inv. }
  destruct (Hinv lines []) as [Hnd Hsp]; [split; constructor|].
  split; [exact Hnd|]. split; [exact Hsp|].
  intros line pattern Hline Hp Hfound.
  assert (Hne : pattern <> "").
  { intros ->. cbn in Hp. repeat destruct Hp as [Hp|Hp]; discriminate || auto. }
  clear Hinv Hnd Hsp. generalize (@nil string).
  induction lines as [|l rest IH]; intros hooks; [contradiction|].
  cbn [fold_left]. destruct Hline as [->|Hline].
  - eapply spelled_grows; [|apply patterns_spelled; eauto].
    intros name. apply lines_grow.
  - now apply IH.
Qed.

(** ** The statements above at the scenarios *)



Lemma parseTXT_rows_witness :
  exists rows,
    entries (snd (Scenarios.parse Scenarios.scenario_c "c.txt" empty_store))
    = rows
    /\ map e_role rows = [VStr "user"; VStr "assistant"]
    /\ Forall (fun row =>
                 e_entry_hash row = Scenarios.plain_hash (e_content row)
                 /\ e_timestamp row = VNull) rows.
Proof.
  destruct (parseTXT_rows Scenarios.plain_hash Scenarios.no_timestamp
              Scenarios.no_timestamp Scenarios.no_duration Scenarios.scenario_c
              "c.txt" VNull empty_store
              (snd (Scenarios.parse Scenarios.scenario_c "c.txt" empty_store))
              1 (VStr "txt-c") 2 0 None)
    as (content & rows & _ & _ & _ & E & _ & _ & Hf & _);
    [vm_compute; reflexivity|].
  exists rows. split; [exact E|]. split.
  - change (entries empty_store ++ rows)%list with rows in E.
    rewrite <- E. vm_compute. reflexivity.
  - eapply Forall_impl; [exact Hf|].
    intros row (_ & _ & _ & Ht & Hh & _). auto.
Defined.


(** The conversation of the file that holds the same line twice. *)
Definition twice_conversation : conversation_row :=
  {| c_id := 1; c_conversation_id := VStr "twice"; c_project_id := VNull;
     c_source_file_path := "twice.jsonl"; c_source_file_type := "jsonl";
     c_started_at := VNull; c_ended_at := VNull; c_duration_seconds := VNull;
     c_message_count := 1; c_model_used := VNull;
     c_claude_code_version := VNull; c_git_branch := VNull;
     c_working_directory := VNull |}.

Lemma conversation_identity_witness :
  Queries.getConversation 1 twice_parsed = Some twice_conversation
  /\ Parser.find_conversation (VStr "twice") twice_parsed
     = Some twice_conversation.
Proof.
  destruct (conversation_identity Scenarios.decode Scenarios.plain_hash
              Scenarios.no_timestamp Scenarios.no_timestamp
              Scenarios.no_duration Scenarios.rows_in_order twice_parsed
              twice_conversation) as (_ & Hid & Hsid).
  - apply reach_parse. apply reach_empty.
  - vm_compute. now left.
  - split; [exact Hid|]. now apply Hsid.
Defined.

(** Scenario A parsed, and its artifacts extracted. *)
Definition scenario_a_extracted : store :=
  snd (Extractor.processConversationEntries Scenarios.decode
         Scenarios.plain_hash Scenarios.rows_in_order Scenarios.scenario_a 1
         (snd (Scenarios.parse Scenarios.scenario_a "a.jsonl" empty_store))).

Lemma stored_artifacts_unique_witness :
  map a_artifact_type (artifacts scenario_a_extracted)
  = ["tool_call"; "tool_result"]
  /\ NoDup (map artifact_key (artifacts scenario_a_extracted)).
Proof.
  split; [vm_compute; reflexivity|].
  apply (stored_artifacts_unique Scenarios.decode Scenarios.plain_hash
           Scenarios.rows_in_order Scenarios.no_timestamp
           Scenarios.no_timestamp Scenarios.no_duration scenario_a_extracted).
  apply reach_extract, reach_parse, reach_empty.
Defined.

(** The invocation of Scenario A with its result attached. *)
Definition answered_t1 : Extractor.tool_call :=
  {| Extractor.name := VStr "Read";
     Extractor.input := VObj [("file_path", VStr "a.txt")];
     Extractor.lineIndex := 0;
     Extractor.timestamp := VUndef;
     Extractor.result := VStr "hello";
     Extractor.isError := VUndef;
     Extractor.resultLineIndex := Some 1 |}.

Lemma collected_tool_calls_witness :
  let lines := nonblank_lines (default "" (Scenarios.scenario_a "a.jsonl")) in
  Extractor.collect_tool_calls Scenarios.decode lines
  = [(VStr "t1", answered_t1)]
  /\ Extractor.lineIndex answered_t1 < length lines.
Proof.
  cbn zeta. split; [vm_compute; reflexivity|].
  apply (collected_tool_calls Scenarios.decode _ (VStr "t1") answered_t1).
  vm_compute. left. reflexivity.
Defined.

Lemma fenced_block_found_witness :
  Extractor.extractCodeBlocks
    (("Here:" ++ nl) ++ "```" ++ "python" ++ nl ++ ("print(1)" ++ nl) ++ "```" ++ "")
  = {| Extractor.cb_language := "python";
       Extractor.cb_content := trim ("print(1)" ++ nl);
       Extractor.cb_startIndex := 6 |}
    :: map (shift (6 + 6 + 9 + 7)) (Extractor.extractCodeBlocks "").
Proof.
  apply (fenced_block_found ("Here:" ++ nl) "python" ("print(1)" ++ nl) "");
    vm_compute; reflexivity.
Defined.

Lemma artifact_statistics_witness :
  Queries.getArtifactStats (Some 1) scenario_a_extracted
  = {| Queries.total := 2; Queries.code_blocks := 0; Queries.tool_calls := 1;
       Queries.tool_results := 1; Queries.json_objects := 0;
       Queries.errors := 0 |}
  /\ Queries.json_objects (Queries.getArtifactStats (Some 1) scenario_a_extracted)
     = 0.
Proof.
  split; [vm_compute; reflexivity|].
  apply (artifact_statistics Scenarios.decode Scenarios.plain_hash
           Scenarios.no_timestamp Scenarios.no_timestamp Scenarios.no_duration
           Scenarios.rows_in_order scenario_a_extracted (Some 1)).
  apply reach_extract, reach_parse, reach_empty.
Defined.

(** An event log of two lines, the second of which does not decode, and the
    same log after a third line was appended: parsed in two steps, the third
    line gets the index 2; parsed at once, the index 1. *)
Lemma incremental_parse_witness :
  let parse fs :=
    Parser.parseJSONL Scenarios.decode Scenarios.plain_hash
      Scenarios.no_timestamp Scenarios.no_timestamp Scenarios.no_duration
      fs "g.jsonl" VNull in
  let before :=
    Scenarios.file_with "g.jsonl"
      [Scenarios.line_of Scenarios.ask_to_read; "{not json"] in
  let after :=
    Scenarios.file_with "g.jsonl"
      [Scenarios.line_of Scenarios.ask_to_read; "{not json";
       Scenarios.line_of Scenarios.read_t1] in
  let in_steps := snd (parse after (snd (parse before empty_store))) in
  let at_once := snd (parse after empty_store) in
  Forall2 same_but_index (entries in_steps) (entries at_once)
  /\ map e_entry_index (entries in_steps) = [0; 2]
  /\ map e_entry_index (entries at_once) = [0; 1].
Proof.
  cbn zeta. split; [|split; vm_compute; reflexivity].
  refine (proj1 (incremental_parse Scenarios.decode Scenarios.plain_hash
                   Scenarios.no_timestamp Scenarios.no_timestamp
                   Scenarios.no_duration _ _ "g.jsonl" VNull empty_store _ _
                   [Scenarios.line_of Scenarios.read_t1]
                   eq_refl eq_refl _ _ _));
    vm_compute; reflexivity.
Defined.

(** The invocation of Scenario A before its result arrived. *)
Definition pending_t1 : Extractor.tool_call :=
  {| Extractor.name := VStr "Read";
     Extractor.input := VObj [("file_path", VStr "a.txt")];
     Extractor.lineIndex := 0;
     Extractor.timestamp := VUndef;
     Extractor.result := VUndef;
     Extractor.isError := VUndef;
     Extractor.resultLineIndex := None |}.

Lemma tool_call_extracted_once_witness :
  let st1 :=
    snd (Extractor.process_tool_call Scenarios.plain_hash [] 1 (VStr "t1")
           pending_t1 Extractor.no_counts empty_store) in
  map a_outcome (artifacts st1) = [Some "pending"]
  /\ Extractor.process_tool_call Scenarios.plain_hash [] 1 (VStr "t1")
       answered_t1 Extractor.no_counts st1
     = (Ok (Extractor.bump_skipped Extractor.no_counts), st1).
Proof.
  cbn zeta. split; [vm_compute; reflexivity|].
  eapply (tool_call_extracted_once Scenarios.plain_hash [] [] 1 (VStr "t1")
            pending_t1 answered_t1);
    vm_compute; reflexivity.
Defined.
